(** * fal-cli: the batch generation core, its cost estimation and spending gate

    A shallow embedding of
      - [src/core/image-generator.js]: [extractImageUrls],
        [generateSingleImage], [saveImagesToDisk], [generateBatch],
        [calculateCost];
      - the protocol server: [SPENDING_LIMIT], [calculateGenerationCost],
        [requiresSpendingConfirmation], [getApiKey], [validateApiKeyFormat],
        [getSuggestionForError] and the [generate_image] and
        [batch_generate] handlers;
      - the model loader of the command line: [getSharedParameters],
        [getModelsByCategory];
      - [src/core/model-manager.js]: [validateModelConfig],
        [getFilteredModels], [getModelStats];
      - [src/core/prompt-optimizer.js]: [optimizePrompt],
        [extractOptimizedPrompt], [analyzeImprovements],
        [estimateComplexity];
      - [src/secure-storage.js]: [validateApiKey].

    JavaScript numbers are IEEE-754 binary64 values, which is what Rocq's
    primitive [float] is; JSON values are an inductive type; exceptions are an
    error monad; the asynchronous window of [generateBatch] is an event trace
    whose completion order is driven by a latency oracle.  The loop of
    [generateBatch] is given twice: [generateBatch] for a [batchSize] that is
    a whole number, and [generateBatchNumber] for any binary64 number, the
    two agreeing on whole numbers ([generateBatchNumber_whole]). *)

From Stdlib Require Import ZArith List String Ascii Bool Lia Permutation.
From Stdlib Require Import Floats.
Import ListNotations.

Local Open Scope string_scope.
Local Open Scope list_scope.
Local Open Scope Z_scope.

#[local] Set Warnings "-register-all,-inexact-float".

(** ** JavaScript values and exceptions *)

Module JS.

(** A JSON-like JavaScript value.  Objects list their own properties in
    insertion order. *)
Inductive value : Type :=
| VUndefined
| VNull
| VBool (b : bool)
| VNum (x : float)
| VStr (s : string)
| VArr (items : list value)
| VObj (props : list (string * value)).

(** Thrown values: [new Error(msg)] and the engine's [TypeError]. *)
Inductive exn : Type :=
| Error (msg : string)
| TypeError (msg : string).

(** [error.message] *)
Definition message (e : exn) : string :=
  match e with
  | Error m => m
  | TypeError m => m
  end.

(** A computation that returns or throws. *)
Inductive Throws (A : Type) : Type :=
| Return (a : A)
| Throw (e : exn).
Arguments Return {A} a.
Arguments Throw {A} e.

Definition bind {A B : Type} (m : Throws A) (k : A -> Throws B) : Throws B :=
  match m with
  | Return a => k a
  | Throw e => Throw e
  end.

(** Truthiness of a number: neither zero (of either sign) nor NaN. *)
Definition truthy_num (x : float) : bool :=
  negb (PrimFloat.is_zero x || PrimFloat.is_nan x).

(** ToBoolean. *)
Definition truthy (v : value) : bool :=
  match v with
  | VUndefined | VNull => false
  | VBool b => b
  | VNum x => truthy_num x
  | VStr s => negb (String.eqb s "")
  | VArr _ | VObj _ => true
  end.

(** Own property of an object literal; [undefined] when absent. *)
Fixpoint lookup (k : string) (props : list (string * value)) : value :=
  match props with
  | [] => VUndefined
  | (k', v) :: rest => if String.eqb k' k then v else lookup k rest
  end.

(** [v.k] for the property names this program reads ([images], [image],
    [url], [image_url], [data], [output], [requestId], [seed],
    [num_images]): none of them is defined on the prototypes of strings,
    numbers, booleans or arrays, so there the read gives [undefined]; on
    [undefined] and [null] it throws. *)
Definition getProp (v : value) (k : string) : Throws value :=
  match v with
  | VUndefined =>
      Throw (TypeError ("Cannot read properties of undefined (reading '" ++ k ++ "')"))
  | VNull =>
      Throw (TypeError ("Cannot read properties of null (reading '" ++ k ++ "')"))
  | VObj props => Return (lookup k props)
  | VBool _ | VNum _ | VStr _ | VArr _ => Return VUndefined
  end.

(** [Array.isArray] *)
Definition isArray (v : value) : bool :=
  match v with
  | VArr _ => true
  | _ => false
  end.

(** [typeof v === 'string'] *)
Definition isString (v : value) : bool :=
  match v with
  | VStr _ => true
  | _ => false
  end.

(** [typeof v === 'number'] *)
Definition isNumber (v : value) : bool :=
  match v with
  | VNum _ => true
  | _ => false
  end.

(** The body of a [forEach] callback that pushes onto one array: the
    pushes of every element, in order, unless an element throws. *)
Fixpoint collect (f : value -> Throws (list value)) (items : list value)
  : Throws (list value) :=
  match items with
  | [] => Return []
  | x :: rest =>
      bind (f x) (fun here =>
      bind (collect f rest) (fun there => Return (here ++ there)))
  end.

(** [v.forEach(f)], where [callee] is the source text of [v]: only an array
    has a callable [forEach], and the engine names the callee in its
    message. *)
Definition forEach (callee : string) (v : value) (f : value -> Throws (list value))
  : Throws (list value) :=
  match v with
  | VArr items => collect f items
  | _ => Throw (TypeError (callee ++ ".forEach is not a function"))
  end.

End JS.

Import JS.

Declare Scope throws_scope.
Delimit Scope throws_scope with throws.
Notation "x <- m ;; k" := (bind m (fun x => k))
  (at level 100, m at next level, right associativity) : throws_scope.
Local Open Scope throws_scope.

(** ** src/core/image-generator.js *)

(** The callback of the first shape, [result.images.forEach]:
    [img.url], else [img.image_url], else the element itself when it is a
    string. *)
Definition pushImage (img : value) : Throws (list value) :=
  url <- getProp img "url" ;;
  if truthy url then Return [url]
  else
    image_url <- getProp img "image_url" ;;
    if truthy image_url then Return [image_url]
    else if isString img then Return [img]
    else Return [].

(** The callback of the wrapper shapes: [if (img.url) images.push(img.url)]. *)
Definition pushUrl (img : value) : Throws (list value) :=
  url <- getProp img "url" ;;
  if truthy url then Return [url] else Return [].

(** [a && a.k]: the value of the conjunction. *)
Definition andProp (a : value) (k : string) : Throws value :=
  if truthy a then getProp a k else Return a.

(** [extractImageUrls(result)]: an if / else-if chain over the shapes. *)
Definition extractImageUrls (result : value) : Throws (list value) :=
  images <- getProp result "images" ;;
  if truthy images && isArray images then
    forEach "result.images" images pushImage
  else
    image <- getProp result "image" ;;
    image_url <- andProp image "url" ;;
    if truthy image_url then
      url <- getProp image "url" ;;
      Return [url]
    else
      data <- getProp result "data" ;;
      data_images <- andProp data "images" ;;
      if truthy data_images then
        forEach "result.data.images" data_images pushUrl
      else
        output <- getProp result "output" ;;
        output_images <- andProp output "images" ;;
        if truthy output_images then
          forEach "result.output.images" output_images pushUrl
        else
          Return [].

(** A generation task: [{ model, prompt, parameters }]. *)
Record Task : Type := {
  model : string;
  prompt : string;
  parameters : value
}.

(** How the provider call [fal.subscribe] settles. *)
Inductive ProviderOutcome : Type :=
| Resolved (result : value)
| Rejected (e : exn).

(** One file written by [saveImagesToDisk] (the file name carries a time
    stamp and a random suffix and is left out). *)
Record SavedFile : Type := {
  saved_url : value;
  saved_index : nat;
  saved_size : nat
}.

(** Everything outside the program.  [provider pos task] is how the provider
    call for the task at position [pos] of the batch settles; [latency pos]
    is when it settles, counted from the dispatch of its window;
    [ensureDir dir] is the error of [fs.ensureDir], if any; [download dir url]
    is the size fetched and written for one URL, or [None] when the fetch or
    the write fails. *)
Record World : Type := {
  provider : nat -> Task -> ProviderOutcome;
  latency : nat -> nat;
  ensureDir : string -> option exn;
  download : string -> value -> option nat
}.

(** The object [generateSingleImage] returns on success (the clock fields
    [duration] and [timestamp] and [metadata.raw_result] are left out). *)
Record SuccessResponse : Type := {
  ok_model : string;
  ok_prompt : string;
  images : list value;
  ok_parameters : value;
  ok_generationId : option string;
  request_id : value;
  seed : value;
  savedFiles : option (list SavedFile)
}.

(** The object built by its [catch] block. *)
Record FailureResponse : Type := {
  ko_model : string;
  ko_prompt : string;
  error : string;
  ko_generationId : option string
}.

Inductive GenerationResult : Type :=
| Success (r : SuccessResponse)
| Failure (r : FailureResponse).

(** The [success] field. *)
Definition success (r : GenerationResult) : bool :=
  match r with
  | Success _ => true
  | Failure _ => false
  end.

(** The loop of [saveImagesToDisk], over the download primitive: a failed
    download is logged and skipped. *)
Fixpoint saveLoop (fetch : string -> value -> option nat) (outputDir : string)
  (i : nat) (imageUrls : list value) : list SavedFile :=
  match imageUrls with
  | [] => []
  | imageUrl :: rest =>
      match fetch outputDir imageUrl with
      | Some size =>
          {| saved_url := imageUrl; saved_index := (i + 1)%nat; saved_size := size |}
            :: saveLoop fetch outputDir (S i) rest
      | None => saveLoop fetch outputDir (S i) rest
      end
  end.

(** [saveImagesToDisk(imageUrls, outputDir, metadata)] *)
Definition saveImagesToDisk (w : World) (imageUrls : list value) (outputDir : string)
  : Throws (list SavedFile) :=
  match ensureDir w outputDir with
  | Some e => Throw e
  | None => Return (saveLoop (download w) outputDir 0 imageUrls)
  end.

(** [await promise] inside a [try]. *)
Definition await (o : ProviderOutcome) : Throws value :=
  match o with
  | Resolved result => Return result
  | Rejected e => Throw e
  end.

(** [a || b] on values. *)
Definition orElse (a b : value) : value := if truthy a then a else b.

(** The destructuring default [parameters = {}]. *)
Definition defaultParameters (p : value) : value :=
  match p with
  | VUndefined => VObj []
  | _ => p
  end.

(** [if (outputDir)]: null and the empty string are falsy. *)
Definition truthyDir (outputDir : option string) : option string :=
  match outputDir with
  | Some d => if String.eqb d "" then None else Some d
  | None => None
  end.

(** The [try] block of [generateSingleImage], after the provider call has
    settled as [outcome]. *)
Definition generateSingleImage_try (w : World) (task : Task)
  (outputDir generationId : option string) (outcome : ProviderOutcome)
  : Throws GenerationResult :=
  let params := defaultParameters (parameters task) in
  result <- await outcome ;;
  imgs <- extractImageUrls result ;;
  if (List.length imgs =? 0)%nat then Throw (Error "No images generated")
  else
    requestId <- getProp result "requestId" ;;
    result_seed <- getProp result "seed" ;;
    seed_value <-
      (if truthy result_seed then Return result_seed
       else param_seed <- getProp params "seed" ;; Return (orElse param_seed VNull)) ;;
    saved <-
      match truthyDir outputDir with
      | Some dir => files <- saveImagesToDisk w imgs dir ;; Return (Some files)
      | None => Return None
      end ;;
    Return (Success {|
      ok_model := model task;
      ok_prompt := prompt task;
      images := imgs;
      ok_parameters := params;
      ok_generationId := generationId;
      request_id := orElse requestId VNull;
      seed := seed_value;
      savedFiles := saved
    |}).

(** [generateSingleImage({model, prompt, parameters, apiKey, outputDir,
    generationId})]: the [catch] block turns every exception of the [try]
    block into a failure object. *)
Definition generateSingleImage (w : World) (task : Task)
  (outputDir generationId : option string) (outcome : ProviderOutcome)
  : GenerationResult :=
  match generateSingleImage_try w task outputDir generationId outcome with
  | Return response => response
  | Throw e =>
      Failure {|
        ko_model := model task;
        ko_prompt := prompt task;
        error := message e;
        ko_generationId := generationId
      |}
  end.

(** [s.replace(/[^a-zA-Z0-9]/g, '_')], character by character. *)
Definition isAlnum (c : ascii) : bool :=
  let n := nat_of_ascii c in
  ((48 <=? n) && (n <=? 57) || (65 <=? n) && (n <=? 90) || (97 <=? n) && (n <=? 122))%nat.

Fixpoint sanitize (s : string) : string :=
  match s with
  | EmptyString => EmptyString
  | String c rest => String (if isAlnum c then c else "_"%char) (sanitize rest)
  end.

(** [path.join(a, b)], without its normalisation of the path. *)
Definition path_join (a b : string) : string := a ++ "/" ++ b.

(** The [options] of [generateBatch]; [batchSize] is an integer, and
    [onProgress] says whether a callback was supplied (the callback itself is
    the caller's and is taken not to throw). *)
Record Options : Type := {
  outputDir : option string;
  generationId : option string;
  batchSize : Z;
  onProgress : bool
}.

(** The defaults of the destructuring: [options = {}]. *)
Definition defaultOptions : Options :=
  {| outputDir := None; generationId := None; batchSize := 1; onProgress := false |}.

(** What can be observed while a batch runs: the provider call of the task
    at position [pos] being issued; the [await generateSingleImage(...)] of
    that task returning, its promise having settled; and the call
    [onProgress({completed, total, currentTask, result})] that follows in the
    same continuation. *)
Inductive event : Type :=
| EvDispatch (pos : nat) (task : Task)
| EvSettle (pos : nat) (result : GenerationResult)
| EvProgress (completed total : Z) (currentTask : Task) (result : GenerationResult).

(** How an asynchronous run stands when it is observed: returned, or still
    in its loop.  [generateBatch] has no [throw] of its own. *)
Inductive Run : Type :=
| Done (results : list GenerationResult) (trace : list event)
| Pending (trace : list event).

(** The relative index of [Array.prototype.slice]: a negative index counts
    from the end, and both ends are clamped to the array. *)
Definition relIndex (len k : Z) : Z :=
  if k <? 0 then Z.max (len + k) 0 else Z.min k len.

(** [l.slice(start, stop)] *)
Definition slice {A : Type} (l : list A) (start stop : Z) : list A :=
  let len := Z.of_nat (List.length l) in
  let from := relIndex len start in
  let final := relIndex len stop in
  firstn (Z.to_nat (final - from)) (skipn (Z.to_nat from) l).

(** The tasks with their positions in the input list. *)
Definition indexed (tasks : list Task) : list (nat * Task) :=
  combine (seq 0 (List.length tasks)) tasks.

(** One element of a window: the task, its position in the input, its index
    in the window, and the object its promise resolves to. *)
Record Job : Type := {
  job_pos : nat;
  job_batchIndex : nat;
  job_task : Task;
  job_result : GenerationResult
}.

(** [taskOutputDir]: [outputDir ? path.join(outputDir, sanitized model) : null] *)
Definition taskOutputDir (opts : Options) (task : Task) : option string :=
  match truthyDir (outputDir opts) with
  | Some dir => Some (path_join dir (sanitize (model task)))
  | None => None
  end.

(** The result object of one task of the batch. *)
Definition taskResult (w : World) (opts : Options) (pos : nat) (task : Task)
  : GenerationResult :=
  generateSingleImage w task (taskOutputDir opts task) (generationId opts)
    (provider w pos task).

(** [batch.map(async (task, batchIndex) => ...)]: one job per element. *)
Fixpoint jobsFrom (w : World) (opts : Options) (batchIndex : nat)
  (batch : list (nat * Task)) : list Job :=
  match batch with
  | [] => []
  | (pos, task) :: rest =>
      {| job_pos := pos; job_batchIndex := batchIndex; job_task := task;
         job_result := taskResult w opts pos task |}
        :: jobsFrom w opts (S batchIndex) rest
  end.

(** The order in which the promises of a window settle: by latency, the
    dispatch order deciding between equal latencies. *)
Fixpoint insertByLatency (w : World) (j : Job) (l : list Job) : list Job :=
  match l with
  | [] => [j]
  | j' :: rest =>
      if (latency w (job_pos j) <=? latency w (job_pos j'))%nat
      then j :: j' :: rest
      else j' :: insertByLatency w j rest
  end.

Definition settleOrder (w : World) (jobs : list Job) : list Job :=
  fold_right (insertByLatency w) [] jobs.

(** What happens when the promise of one job settles: the continuation
    after [await generateSingleImage(...)] reports progress with
    [completed: i + batchIndex + 1]. *)
Definition settleEvents (opts : Options) (i total : Z) (j : Job) : list event :=
  EvSettle (job_pos j) (job_result j)
    :: (if onProgress opts
        then [EvProgress (i + Z.of_nat (job_batchIndex j) + 1) total (job_task j) (job_result j)]
        else []).

(** The events of one window: every task is dispatched, in order, before any
    promise settles; [await Promise.all] then waits for all of them. *)
Definition windowEvents (w : World) (opts : Options) (i total : Z) (jobs : list Job)
  : list event :=
  map (fun j => EvDispatch (job_pos j) (job_task j)) jobs
    ++ flat_map (settleEvents opts i total) (settleOrder w jobs).

(** The [for] loop of [generateBatch]; [fuel] bounds the number of
    iterations observed. *)
Fixpoint generateBatch_loop (w : World) (tasks : list Task) (opts : Options)
  (fuel : nat) (i : Z) (results : list GenerationResult) (trace : list event) : Run :=
  if i <? Z.of_nat (List.length tasks) then
    match fuel with
    | O => Pending trace
    | S fuel' =>
        let batch := slice (indexed tasks) i (i + batchSize opts) in
        let jobs := jobsFrom w opts 0 batch in
        let batchResults := map job_result jobs in
        generateBatch_loop w tasks opts fuel' (i + batchSize opts)
          (results ++ batchResults)
          (trace ++ windowEvents w opts i (Z.of_nat (List.length tasks)) jobs)
    end
  else Done results trace.

(** [generateBatch(tasks, apiKey, options)] *)
Definition generateBatch (w : World) (tasks : list Task) (opts : Options) (fuel : nat)
  : Run :=
  generateBatch_loop w tasks opts fuel 0 [] [].

(** *** Cost estimation

    [calculateCost] only adds, multiplies and tests numbers, so it is written
    once over the arithmetic it uses.  [float_arith] is the arithmetic of the
    program (binary64); [Z_arith] is exact arithmetic on amounts counted in a
    whole unit. *)

Class Arith (num : Type) : Type := {
  n_zero : num;
  n_one : num;
  n_add : num -> num -> num;
  n_mul : num -> num -> num;
  n_ltb : num -> num -> bool;
  n_truthy : num -> bool
}.

#[export] Instance float_arith : Arith float := {|
  n_zero := 0%float;
  n_one := 1%float;
  n_add := PrimFloat.add;
  n_mul := PrimFloat.mul;
  n_ltb := PrimFloat.ltb;
  n_truthy := truthy_num
|}.

#[export] Instance Z_arith : Arith Z := {|
  n_zero := 0;
  n_one := 1;
  n_add := Z.add;
  n_mul := Z.mul;
  n_ltb := Z.ltb;
  n_truthy := fun z => negb (z =? 0)
|}.

(** A loaded model configuration, as far as costs read it; [costPerImage] is
    a number when it is present. *)
Record ModelConfig (num : Type) : Type := {
  cfg_id : string;
  cfg_name : string;
  cfg_costPerImage : option num
}.
Arguments cfg_id {num} _.
Arguments cfg_name {num} _.
Arguments cfg_costPerImage {num} _.

(** A task of [calculateCost]: [{ model, imageCount }], [imageCount] a number
    when it is present. *)
Record CostTask (num : Type) : Type := {
  ct_model : string;
  ct_imageCount : option num
}.
Arguments ct_model {num} _.
Arguments ct_imageCount {num} _.

(** An entry of [breakdown]. *)
Record BreakdownEntry (num : Type) : Type := {
  modelName : string;
  imageCount : num;
  costPerImage : num;
  totalCost : num
}.
Arguments modelName {num} _.
Arguments imageCount {num} _.
Arguments costPerImage {num} _.
Arguments totalCost {num} _.

(** The object [calculateCost] returns (its constant [currency: 'USD'] is
    left out); [breakdown] holds the own properties of the object, in the
    order in which they were created.  (JavaScript enumerates keys that read
    as array indices before the others; no property stated of a breakdown
    depends on its order.) *)
Record CostEstimate (num : Type) : Type := {
  est_totalCost : num;
  breakdown : list (string * BreakdownEntry num)
}.
Arguments est_totalCost {num} _.
Arguments breakdown {num} _.

(** The property names every object literal inherits from
    [Object.prototype]: [breakdown[key]] is truthy for them although
    [breakdown] has no such own property. *)
Definition objectPrototypeKeys : list string :=
  [ "constructor"; "__proto__"; "hasOwnProperty"; "isPrototypeOf";
    "propertyIsEnumerable"; "toLocaleString"; "toString"; "valueOf";
    "__defineGetter__"; "__defineSetter__"; "__lookupGetter__";
    "__lookupSetter__" ].

Definition inherited (key : string) : bool :=
  existsb (String.eqb key) objectPrototypeKeys.

Section CalculateCost.

Context {num : Type} {A : Arith num}.

(** [x || 1] on an optional number. *)
Definition orOne (x : option num) : num :=
  match x with
  | Some n => if n_truthy n then n else n_one
  | None => n_one
  end.

(** The own property [key] of [breakdown]. *)
Fixpoint entryOf (key : string) (b : list (string * BreakdownEntry num))
  : option (BreakdownEntry num) :=
  match b with
  | [] => None
  | (k, e) :: rest => if String.eqb k key then Some e else entryOf key rest
  end.

(** Replace the entry of [key], in place. *)
Fixpoint updateEntry (key : string) (f : BreakdownEntry num -> BreakdownEntry num)
  (b : list (string * BreakdownEntry num)) : list (string * BreakdownEntry num) :=
  match b with
  | [] => []
  | (k, e) :: rest =>
      if String.eqb k key then (k, f e) :: rest
      else (k, e) :: updateEntry key f rest
  end.

(** [models.find(m => m.id === task.model)] followed by the test
    [model && model.costPerImage]: the model and its price, when both are
    there and the price is truthy. *)
Definition pricedModel (models : list (ModelConfig num)) (modelId : string)
  : option (ModelConfig num * num) :=
  match find (fun m => String.eqb (cfg_id m) modelId) models with
  | Some m =>
      match cfg_costPerImage m with
      | Some c => if n_truthy c then Some (m, c) else None
      | None => None
      end
  | None => None
  end.

(** The body of [tasks.forEach(task => ...)]. *)
Definition costStep (models : list (ModelConfig num)) (acc : CostEstimate num)
  (task : CostTask num) : CostEstimate num :=
  match pricedModel models (ct_model task) with
  | Some (m, price) =>
      let count := orOne (ct_imageCount task) in
      let cost := n_mul price count in
      let key := ct_model task in
      let total := n_add (est_totalCost acc) cost in
      if inherited key then
        (* [breakdown[key]] is the inherited member: no entry is created and
           the two updates land on that member, not on [breakdown] *)
        {| est_totalCost := total; breakdown := breakdown acc |}
      else
        let created :=
          match entryOf key (breakdown acc) with
          | Some _ => breakdown acc
          | None =>
              breakdown acc ++
                [(key, {| modelName := cfg_name m; imageCount := n_zero;
                          costPerImage := price; totalCost := n_zero |})]
          end in
        let counted :=
          updateEntry key
            (fun e => {| modelName := modelName e;
                         imageCount := n_add (imageCount e) count;
                         costPerImage := costPerImage e;
                         totalCost := totalCost e |}) created in
        let charged :=
          updateEntry key
            (fun e => {| modelName := modelName e;
                         imageCount := imageCount e;
                         costPerImage := costPerImage e;
                         totalCost := n_add (totalCost e) cost |}) counted in
        {| est_totalCost := total; breakdown := charged |}
  | None => acc
  end.

(** [calculateCost(tasks, models)] *)
Definition calculateCost (tasks : list (CostTask num)) (models : list (ModelConfig num))
  : CostEstimate num :=
  fold_left (costStep models) tasks {| est_totalCost := n_zero; breakdown := [] |}.

(** The sum of a list of numbers, accumulated from the left. *)
Definition sumOf (l : list num) : num := fold_left n_add l n_zero.

End CalculateCost.

(** [x] is not negative: the test [x < 0] fails. *)
Definition nonneg {num : Type} {A : Arith num} (x : num) : Prop :=
  n_ltb x n_zero = false.

(** Arithmetic without rounding: the laws of sums and products that
    [calculateCost] would need for its totals to agree exactly.  Integers
    satisfy them; binary64 addition is not associative and does not. *)
Class ExactArith {num : Type} (A : Arith num) : Prop := {
  add_zero_l : forall a : num, n_add n_zero a = a;
  add_comm : forall a b : num, n_add a b = n_add b a;
  add_assoc : forall a b c : num, n_add a (n_add b c) = n_add (n_add a b) c;
  mul_zero_r : forall a : num, n_mul a n_zero = n_zero;
  mul_add_distr_l : forall a b c : num,
    n_mul a (n_add b c) = n_add (n_mul a b) (n_mul a c)
}.

(** Arithmetic that respects signs: zero and one are not negative, and
    neither is a sum or a product of numbers that are not negative. *)
Class SignArith {num : Type} (A : Arith num) : Prop := {
  nonneg_zero : nonneg n_zero;
  nonneg_one : nonneg n_one;
  nonneg_add : forall a b : num, nonneg a -> nonneg b -> nonneg (n_add a b);
  nonneg_mul : forall a b : num, nonneg a -> nonneg b -> nonneg (n_mul a b)
}.

(** A binary64 datum that is not below zero: a zero of either sign, NaN, or
    a number with a positive sign. *)
Definition SFnonneg (x : spec_float) : bool :=
  match x with
  | S754_infinity true | S754_finite true _ _ => false
  | _ => true
  end.

(** The number of images a task asks for: [task.imageCount || 1]. *)
Definition imagesOf {num : Type} {A : Arith num} (task : CostTask num) : num :=
  orOne (ct_imageCount task).

(** The tasks of a list that name the model [key]. *)
Definition tasksOf {num : Type} (key : string) (tasks : list (CostTask num))
  : list (CostTask num) :=
  filter (fun t => String.eqb (ct_model t) key) tasks.

(** The [totalCost] fields of a breakdown, in its order. *)
Definition entryTotals {num : Type} (b : list (string * BreakdownEntry num)) : list num :=
  map (fun kv => totalCost (snd kv)) b.

(** The two updates of an entry, [imageCount += count] and
    [totalCost += cost], as one. *)
Definition bump {num : Type} {A : Arith num} (count cost : num)
  (e : BreakdownEntry num) : BreakdownEntry num :=
  {| modelName := modelName e;
     imageCount := n_add (imageCount e) count;
     costPerImage := costPerImage e;
     totalCost := n_add (totalCost e) cost |}.

(** The cost [calculateCost] charges for one task: the price of its model
    times its images, when the model is priced. *)
Definition taskCost {num : Type} {A : Arith num} (models : list (ModelConfig num))
  (task : CostTask num) : num :=
  match pricedModel models (ct_model task) with
  | Some (_, price) => n_mul price (imagesOf task)
  | None => n_zero
  end.

(** The tasks of a list whose model is priced. *)
Definition pricedTasks {num : Type} {A : Arith num} (models : list (ModelConfig num))
  (tasks : list (CostTask num)) : list (CostTask num) :=
  filter (fun t => match pricedModel models (ct_model t) with
                   | Some _ => true
                   | None => false
                   end) tasks.

(** What the estimate records after the tasks [processed], in any
    arithmetic: the total adds up the costs of the priced tasks in their
    order; no model has two entries; every entry carries the price of its
    model, and its cost and its count add up the costs and the images of the
    tasks of its model, in their order; and every priced task has an
    entry. *)
Definition costLedger {num : Type} {A : Arith num}
  (models : list (ModelConfig num)) (processed : list (CostTask num))
  (acc : CostEstimate num) : Prop :=
  est_totalCost acc = sumOf (map (taskCost models) (pricedTasks models processed)) /\
  NoDup (map fst (breakdown acc)) /\
  (forall key e, entryOf key (breakdown acc) = Some e ->
     (exists m, pricedModel models key = Some (m, costPerImage e)) /\
     totalCost e = sumOf (map (taskCost models) (tasksOf key processed)) /\
     imageCount e = sumOf (map imagesOf (tasksOf key processed))) /\
  (forall t, In t processed ->
     pricedModel models (ct_model t) <> None ->
     entryOf (ct_model t) (breakdown acc) <> None).

(** What exact arithmetic adds: the total is the sum of the entries, and the
    cost of an entry is its price times its count. *)
Definition costBalance {num : Type} {A : Arith num} (acc : CostEstimate num) : Prop :=
  est_totalCost acc = sumOf (entryTotals (breakdown acc)) /\
  forall key e, entryOf key (breakdown acc) = Some e ->
    totalCost e = n_mul (costPerImage e) (imageCount e).

(** The prices of a catalog, and the image counts of a task list, are not
    negative. *)
Definition pricesNonneg {num : Type} {A : Arith num} (models : list (ModelConfig num))
  : Prop :=
  Forall (fun m => forall c, cfg_costPerImage m = Some c -> nonneg c) models.

Definition countsNonneg {num : Type} {A : Arith num} (tasks : list (CostTask num))
  : Prop :=
  Forall (fun t => forall c, ct_imageCount t = Some c -> nonneg c) tasks.

(** The total and every entry of an estimate are not negative. *)
Definition estimateNonneg {num : Type} {A : Arith num} (est : CostEstimate num) : Prop :=
  nonneg (est_totalCost est) /\
  forall key e, entryOf key (breakdown est) = Some e ->
    nonneg (imageCount e) /\ nonneg (costPerImage e) /\ nonneg (totalCost e).

(** *** Any number as [batchSize]

    [generateBatch] does not check [batchSize]: it is whatever number the
    caller passes (the tool schema of the server declares [batch_size] a
    [number]).  The definitions above take it to be an integer; the ones
    below follow the same loop for any number. *)

(** A JavaScript number: a whole number, kept as an integer (binary64 holds
    the whole numbers below 2^53 and adds them exactly), or any other
    binary64 value: a fraction, an infinity, NaN, the negative zero. *)
Inductive number : Type :=
| Whole (z : Z)
| Other (x : float).

(** The integer a binary64 value is, when it is a whole number. *)
Definition wholePart (x : float) : option Z :=
  match Prim2SF x with
  | S754_zero false => Some 0
  | S754_finite s m e =>
      if 0 <=? e then Some (cond_Zopp s (Z.pos m * 2 ^ e))
      else if Z.pos m mod 2 ^ (- e) =? 0
           then Some (cond_Zopp s (Z.pos m / 2 ^ (- e)))
           else None
  | _ => None
  end.

Definition ofFloat (x : float) : number :=
  match wholePart x with
  | Some z => Whole z
  | None => Other x
  end.

Definition floatOfZ (z : Z) : float :=
  if z <? 0 then (- PrimFloat.of_uint63 (Uint63Axioms.of_Z (- z)))%float
  else PrimFloat.of_uint63 (Uint63Axioms.of_Z z).

Definition toFloat (n : number) : float :=
  match n with
  | Whole z => floatOfZ z
  | Other x => x
  end.

(** [a + b] and [a < b] on numbers. *)
Definition plus (a b : number) : number :=
  match a, b with
  | Whole x, Whole y => Whole (x + y)
  | _, _ => ofFloat (toFloat a + toFloat b)
  end.

Definition less (a b : number) : bool :=
  match a, b with
  | Whole x, Whole y => x <? y
  | _, _ => (toFloat a <? toFloat b)%float
  end.

(** ToIntegerOrInfinity on a finite number: the fraction is dropped. *)
Definition truncate (x : float) : Z :=
  match Prim2SF x with
  | S754_finite s m e =>
      cond_Zopp s (if 0 <=? e then Z.pos m * 2 ^ e else Z.pos m / 2 ^ (- e))
  | _ => 0
  end.

(** The relative index of [slice] for any number: NaN counts as 0, the
    infinities are clamped to the ends of the array. *)
Definition relIndexNumber (len : Z) (k : number) : Z :=
  match k with
  | Whole z => relIndex len z
  | Other x =>
      match Prim2SF x with
      | S754_infinity false => len
      | S754_infinity true => 0
      | _ => relIndex len (truncate x)
      end
  end.

(** [l.slice(start, stop)] for any two numbers. *)
Definition sliceNumber {A : Type} (l : list A) (start stop : number) : list A :=
  let len := Z.of_nat (List.length l) in
  let from := relIndexNumber len start in
  let final := relIndexNumber len stop in
  firstn (Z.to_nat (final - from)) (skipn (Z.to_nat from) l).

(** The events of a run, with the number [completed] that [onProgress] is
    given. *)
Inductive numberEvent : Type :=
| NumDispatch (pos : nat) (task : Task)
| NumSettle (pos : nat) (result : GenerationResult)
| NumProgress (completed total : number) (currentTask : Task) (result : GenerationResult).

Inductive NumberRun : Type :=
| Returned (results : list GenerationResult) (trace : list numberEvent)
| Looping (trace : list numberEvent).

(** [completed: i + batchIndex + 1] *)
Definition settleEventsNumber (opts : Options) (i total : number) (j : Job)
  : list numberEvent :=
  NumSettle (job_pos j) (job_result j)
    :: (if onProgress opts
        then [NumProgress (plus (plus i (Whole (Z.of_nat (job_batchIndex j)))) (Whole 1))
                total (job_task j) (job_result j)]
        else []).

Definition windowEventsNumber (w : World) (opts : Options) (i total : number)
  (jobs : list Job) : list numberEvent :=
  map (fun j => NumDispatch (job_pos j) (job_task j)) jobs
    ++ flat_map (settleEventsNumber opts i total) (settleOrder w jobs).

(** The [for] loop of [generateBatch] with [size] as [batchSize]. *)
Fixpoint generateBatchNumber_loop (w : World) (tasks : list Task) (opts : Options)
  (size : number) (fuel : nat) (i : number) (results : list GenerationResult)
  (trace : list numberEvent) : NumberRun :=
  if less i (Whole (Z.of_nat (List.length tasks))) then
    match fuel with
    | O => Looping trace
    | S fuel' =>
        let batch := sliceNumber (indexed tasks) i (plus i size) in
        let jobs := jobsFrom w opts 0 batch in
        let batchResults := map job_result jobs in
        generateBatchNumber_loop w tasks opts size fuel' (plus i size)
          (results ++ batchResults)
          (trace ++ windowEventsNumber w opts i (Whole (Z.of_nat (List.length tasks))) jobs)
    end
  else Returned results trace.

(** [generateBatch(tasks, apiKey, options)] where [options.batchSize] is the
    number [size]; [opts] gives the other options, and its integer
    [batchSize] is not read. *)
Definition generateBatchNumber (w : World) (tasks : list Task) (opts : Options)
  (size : number) (fuel : nat) : NumberRun :=
  generateBatchNumber_loop w tasks opts size fuel (Whole 0) [] [].

(** A run with an integer [batchSize], seen as a run of the general loop. *)
Definition numberEventOf (e : event) : numberEvent :=
  match e with
  | EvDispatch pos task => NumDispatch pos task
  | EvSettle pos result => NumSettle pos result
  | EvProgress completed total task result =>
      NumProgress (Whole completed) (Whole total) task result
  end.

Definition numberRunOf (r : Run) : NumberRun :=
  match r with
  | Done results trace => Returned results (map numberEventOf trace)
  | Pending trace => Looping (map numberEventOf trace)
  end.

(** The calls in flight, the positions settled and the [completed] values
    of a trace of the general loop. *)
Fixpoint runningNumber (trace : list numberEvent) : Z :=
  match trace with
  | [] => 0
  | NumDispatch _ _ :: rest => runningNumber rest + 1
  | NumSettle _ _ :: rest => runningNumber rest - 1
  | NumProgress _ _ _ _ :: rest => runningNumber rest
  end.

Fixpoint progressNumbers (trace : list numberEvent) : list number :=
  match trace with
  | [] => []
  | NumProgress completed _ _ _ :: rest => completed :: progressNumbers rest
  | _ :: rest => progressNumbers rest
  end.

Fixpoint settledNumber (trace : list numberEvent) : list nat :=
  match trace with
  | [] => []
  | NumSettle pos _ :: rest => pos :: settledNumber rest
  | _ :: rest => settledNumber rest
  end.

Fixpoint dispatchedNumber (trace : list numberEvent) : list nat :=
  match trace with
  | [] => []
  | NumDispatch pos _ :: rest => pos :: dispatchedNumber rest
  | _ :: rest => dispatchedNumber rest
  end.

(** Six tasks of one model. *)
Definition sixTasks : list Task :=
  [ {| model := "fal-ai/flux/dev"; prompt := "a cat"; parameters := VUndefined |};
    {| model := "fal-ai/flux/dev"; prompt := "a dog"; parameters := VUndefined |};
    {| model := "fal-ai/flux/dev"; prompt := "a bird"; parameters := VUndefined |};
    {| model := "fal-ai/flux/dev"; prompt := "a fish"; parameters := VUndefined |};
    {| model := "fal-ai/flux/dev"; prompt := "a horse"; parameters := VUndefined |};
    {| model := "fal-ai/flux/dev"; prompt := "a fox"; parameters := VUndefined |} ].

(** ** JavaScript strings

    A string is its sequence of UTF-16 code units, and [s.length] counts
    them; [string] holds the code units below 256, the Latin-1 range, which
    is where the functions below are spelled out. *)

(** The white space of [\s] and of [trim] below 256: tab, line feed,
    vertical tab, form feed, carriage return, space and no-break space. *)
Definition isSpace (c : ascii) : bool :=
  let n := nat_of_ascii c in
  ((9 <=? n) && (n <=? 13) || (n =? 32) || (n =? 160))%nat.

(** [s.trimStart()] *)
Fixpoint trimStart (s : string) : string :=
  match s with
  | EmptyString => EmptyString
  | String c rest => if isSpace c then trimStart rest else s
  end.

(** [s.trimEnd()] *)
Fixpoint trimEnd (s : string) : string :=
  match s with
  | EmptyString => EmptyString
  | String c rest =>
      match trimEnd rest with
      | EmptyString => if isSpace c then EmptyString else String c EmptyString
      | kept => String c kept
      end
  end.

(** [s.trim()] *)
Definition trim (s : string) : string := trimEnd (trimStart s).

(** [toLowerCase] on one code unit: the letters A-Z, and the upper-case
    letters of Latin-1 (192-222 but the multiplication sign 215). *)
Definition lowerChar (c : ascii) : ascii :=
  let n := nat_of_ascii c in
  if ((65 <=? n) && (n <=? 90) || (192 <=? n) && (n <=? 222) && negb (n =? 215))%nat
  then ascii_of_nat (n + 32)
  else c.

(** [s.toLowerCase()] *)
Fixpoint toLowerCase (s : string) : string :=
  match s with
  | EmptyString => EmptyString
  | String c rest => String (lowerChar c) (toLowerCase rest)
  end.

(** [s.includes(sub)]: [sub] occurs in [s]. *)
Fixpoint includes (s sub : string) : bool :=
  String.prefix sub s ||
  match s with
  | EmptyString => false
  | String _ rest => includes rest sub
  end.

(** [s.split(sep)] for a separator of one character: never empty. *)
Fixpoint splitOn (sep : ascii) (s : string) : list string :=
  match s with
  | EmptyString => [EmptyString]
  | String c rest =>
      if Ascii.eqb c sep then EmptyString :: splitOn sep rest
      else
        match splitOn sep rest with
        | piece :: pieces => String c piece :: pieces
        | [] => [String c EmptyString]
        end
  end.

(** [s.split(/[...]+/)] for a character class [isSep]: the pieces between
    the maximal runs of separators; [inRun] says that the character before
    was a separator. *)
Fixpoint splitRunsFrom (isSep : ascii -> bool) (inRun : bool) (s : string)
  : list string :=
  match s with
  | EmptyString => [EmptyString]
  | String c rest =>
      if isSep c then
        if inRun then splitRunsFrom isSep true rest
        else EmptyString :: splitRunsFrom isSep true rest
      else
        match splitRunsFrom isSep false rest with
        | piece :: pieces => String c piece :: pieces
        | [] => [String c EmptyString]
        end
  end.

Definition splitRuns (isSep : ascii -> bool) (s : string) : list string :=
  splitRunsFrom isSep false s.

(** ** The protocol server: the API key *)

(** [[0-9a-f]] under the flag [i]. *)
Definition isHex (c : ascii) : bool :=
  let n := nat_of_ascii c in
  ((48 <=? n) && (n <=? 57) || (65 <=? n) && (n <=? 70) || (97 <=? n) && (n <=? 102))%nat.

(** [[0-9a-f]{n}] at the head of [s]: what follows the [n] digits. *)
Fixpoint hexRun (n : nat) (s : string) : option string :=
  match n with
  | O => Some s
  | S n' =>
      match s with
      | String c rest => if isHex c then hexRun n' rest else None
      | EmptyString => None
      end
  end.

(** A literal [-] at the head of [s]. *)
Definition dash (s : string) : option string :=
  match s with
  | String c rest => if Ascii.eqb c "-"%char then Some rest else None
  | EmptyString => None
  end.

(** One step of a match after another. *)
Definition andThen {A B : Type} (o : option A) (f : A -> option B) : option B :=
  match o with
  | Some a => f a
  | None => None
  end.

(** [/^[0-9a-f]{8}-[0-9a-f]{4}-[0-9a-f]{4}-[0-9a-f]{4}-[0-9a-f]{12}$/i.test(s)] *)
Definition uuidRegex_test (s : string) : bool :=
  match
    andThen (hexRun 8 s) (fun s =>
    andThen (dash s) (fun s =>
    andThen (hexRun 4 s) (fun s =>
    andThen (dash s) (fun s =>
    andThen (hexRun 4 s) (fun s =>
    andThen (dash s) (fun s =>
    andThen (hexRun 4 s) (fun s =>
    andThen (dash s) (fun s =>
    hexRun 12 s))))))))
  with
  | Some EmptyString => true
  | _ => false
  end.

(** [validateApiKeyFormat(apiKey)] *)
Definition validateApiKeyFormat (apiKey : value) : bool :=
  match apiKey with
  | VStr s =>
      if String.eqb s "" then false
      else
        match splitOn ":"%char s with
        | [uuid; token] =>
            if negb (uuidRegex_test uuid) then false
            else if (String.length token <? 32)%nat then false
            else true
        | _ => false
        end
  | _ => false
  end.

(** Where [getApiKey] looks: the environment variable [FAL_KEY], whether
    the configuration file exists ([hasStoredApiKey]), and what
    [retrieveApiKey] gives: the key decrypted, [null], or an exception. *)
Record KeySources : Type := {
  FAL_KEY : option string;
  hasStoredApiKey : bool;
  retrieveApiKey : Throws (option string)
}.

(** [if (x)] on a string that may be absent. *)
Definition truthyStr (x : option string) : option string :=
  match x with
  | Some s => if String.eqb s "" then None else Some s
  | None => None
  end.

Definition noKeyMessage : string :=
  "No FAL API key found. Set FAL_KEY environment variable or configure via CLI.".

Definition badKeyMessage : string :=
  "Invalid API key format. Expected format: xxxxxxxx-xxxx-xxxx-xxxx-xxxxxxxxxxxx:xxxxxxxxxxxxxxxxxxxxxxxxxxxxxxxx".

(** [getApiKey()] *)
Definition getApiKey (src : KeySources) : Throws string :=
  apiKey <-
    match truthyStr (FAL_KEY src) with
    | Some s => Return (Some s)
    | None => if hasStoredApiKey src then retrieveApiKey src else Return None
    end ;;
  match truthyStr apiKey with
  | None => Throw (Error noKeyMessage)
  | Some s =>
      if negb (validateApiKeyFormat (VStr s)) then Throw (Error badKeyMessage)
      else Return s
  end.

(** ** The protocol server: cost management and the [batch_generate] gate *)

(** ToNumber, used where a value meets [*] or [<].  It is spelled out on
    numbers, [undefined], [null] and booleans; [numeric] stands for it on
    strings, arrays and objects. *)
Definition toNumber (numeric : value -> float) (v : value) : float :=
  match v with
  | VNum x => x
  | VUndefined => PrimFloat.nan
  | VNull => 0%float
  | VBool true => 1%float
  | VBool false => 0%float
  | VStr _ | VArr _ | VObj _ => numeric v
  end.

(** [const SPENDING_LIMIT = 5.0] *)
Definition SPENDING_LIMIT : float := 5%float.

(** The conservative estimate per image, [0.05]. *)
Definition FALLBACK_COST_PER_IMAGE : float := 0.05%float.

(** [calculateGenerationCost(model, numImages)]; [loaded] is what
    [await loadModels()] gave, and the [catch] block answers with the same
    conservative estimate as an unknown price. *)
Definition calculateGenerationCost (loaded : Throws (list (ModelConfig float)))
  (modelId : string) (numImages : float) : float :=
  match loaded with
  | Return models =>
      match pricedModel models modelId with
      | Some (_, price) => (price * numImages)%float
      | None => (FALLBACK_COST_PER_IMAGE * numImages)%float
      end
  | Throw _ => (FALLBACK_COST_PER_IMAGE * numImages)%float
  end.

(** [requiresSpendingConfirmation(estimatedCost)]:
    [estimatedCost > SPENDING_LIMIT] *)
Definition requiresSpendingConfirmation (estimatedCost : float) : bool :=
  (SPENDING_LIMIT <? estimatedCost)%float.

(** The payload of the error thrown when confirmation is needed. *)
Record SpendingConfirmation : Type := {
  conf_type : string;
  estimated_cost : float;
  spending_limit : float;
  confirmation_needed : bool
}.

(** The spending check of both generation handlers:
    [if (requiresSpendingConfirmation(cost) && !confirm_spending) throw ...] *)
Definition checkSpending (estimatedCost : float) (confirm_spending : bool)
  : option SpendingConfirmation :=
  if requiresSpendingConfirmation estimatedCost && negb confirm_spending
  then Some {| conf_type := "SPENDING_CONFIRMATION_REQUIRED";
               estimated_cost := estimatedCost;
               spending_limit := SPENDING_LIMIT;
               confirmation_needed := true |}
  else None.

(** [task.parameters?.num_images || 1], as the number the product sees. *)
Definition numImagesOf (numeric : value -> float) (params : value) : float :=
  match params with
  | VUndefined | VNull => 1%float
  | _ =>
      match getProp params "num_images" with
      | Return v => if truthy v then toNumber numeric v else 1%float
      | Throw _ => 1%float
      end
  end.

(** The loop that adds up [totalEstimatedCost]. *)
Definition totalEstimatedCost (numeric : value -> float)
  (loaded : Throws (list (ModelConfig float))) (tasks : list Task) : float :=
  fold_left
    (fun total task =>
       (total + calculateGenerationCost loaded (model task)
                  (numImagesOf numeric (parameters task)))%float)
    tasks 0%float.

(** How the [batch_generate] handler ends: with the error of [getApiKey],
    with the confirmation error, or with the run of [generateBatch]. *)
Inductive HandlerOutcome : Type :=
| KeyRefused (e : exn)
| ConfirmationRequired (c : SpendingConfirmation)
| Generated (run : NumberRun).

(** The options the handler passes to [generateBatch], but for the
    [batchSize]: an output directory, a generation id, no callback. *)
Definition handlerOptions (dir now : string) : Options :=
  {| outputDir := Some dir; generationId := Some now;
     batchSize := 1; onProgress := false |}.

(** The [batch_generate] case of the tool handler: the key first, then the
    estimate and the spending check, then [generateBatch] with [batch_size]
    as it came.  [dir] is [output_directory] or the default directory, [now]
    the time stamp used as generation id. *)
Definition batch_generate (w : World) (numeric : value -> float)
  (loaded : Throws (list (ModelConfig float))) (src : KeySources)
  (tasks : list Task) (batch_size : number) (dir now : string)
  (confirm_spending : bool) (fuel : nat) : HandlerOutcome :=
  match getApiKey src with
  | Throw e => KeyRefused e
  | Return apiKey =>
      match checkSpending (totalEstimatedCost numeric loaded tasks) confirm_spending with
      | Some c => ConfirmationRequired c
      | None =>
          Generated (generateBatchNumber w tasks (handlerOptions dir now) batch_size fuel)
      end
  end.

(** ** src/core/model-manager.js *)

(** A parameter definition of a model configuration; [min] and [max] are
    numbers when they are present. *)
Record ParamSpec : Type := {
  param_type : value;
  param_min : option float;
  param_max : option float
}.

(** What a parameter name is mapped to: an object, read as a [ParamSpec]
    (a number, a string or a boolean has no [type], [min] or [max] and reads
    like an object without them), or [null] or [undefined], on which the
    read [param.type] throws. *)
Inductive ParamDef : Type :=
| ParamObject (p : ParamSpec)
| ParamNull
| ParamUndefined.

(** A model configuration as [validateModelConfig] receives it: the four
    required fields are arbitrary values ([undefined] when absent), and
    [parameters], when present, is an object of parameter definitions. *)
Record RawModelConfig : Type := {
  raw_id : value;
  raw_name : value;
  raw_type : value;
  raw_costPerImage : value;
  raw_parameters : option (list (string * ParamDef))
}.

Record Validation : Type := {
  valid : bool;
  errors : list string;
  warnings : list string
}.

(** [s.includes('/')] on a string. *)
Fixpoint hasSlash (s : string) : bool :=
  match s with
  | EmptyString => false
  | String c rest => Ascii.eqb c "/"%char || hasSlash rest
  end.

(** [id.includes('/')]: strings and arrays have the method, a call on any
    other value throws. *)
Definition includesSlash (v : value) : Throws bool :=
  match v with
  | VStr s => Return (hasSlash s)
  | VArr items =>
      Return (existsb (fun x => match x with VStr "/" => true | _ => false end) items)
  | _ => Throw (TypeError "modelConfig.id.includes is not a function")
  end.

(** The [required.forEach] loop. *)
Definition requiredErrors (cfg : RawModelConfig) : list string :=
  flat_map
    (fun fv : string * value =>
       if truthy (snd fv) then [] else [("Missing required field: " ++ fst fv)%string])
    [ ("id", raw_id cfg); ("name", raw_name cfg); ("type", raw_type cfg);
      ("costPerImage", raw_costPerImage cfg) ].

(** The two tests on [costPerImage]. *)
Definition costErrors (numeric : value -> float) (cost : value) : list string :=
  (if truthy cost && negb (isNumber cost)
   then ["costPerImage must be a number"] else [])
  ++ (if truthy cost && (toNumber numeric cost <? 0)%float
      then ["costPerImage cannot be negative"] else []).

(** [v === s] for a string [s]. *)
Definition strictEqStr (v : value) (s : string) : bool :=
  match v with
  | VStr s' => String.eqb s' s
  | _ => false
  end.

(** The errors one parameter adds: [param.type === 'number'] with both
    bounds present and [param.min >= param.max]. *)
Definition paramErrors (name : string) (p : ParamSpec) : list string :=
  if strictEqStr (param_type p) "number" then
    match param_min p, param_max p with
    | Some lo, Some hi =>
        if (hi <=? lo)%float
        then [("Parameter " ++ name ++ ": min value must be less than max value")%string]
        else []
    | _, _ => []
    end
  else [].

(** The warning one parameter adds. *)
Definition paramWarnings (name : string) (p : ParamSpec) : list string :=
  if truthy (param_type p) then []
  else [("Parameter " ++ name ++ " is missing type definition")%string].

(** The warning on the identifier; its text holds two quotation marks
    (character 34) around [provider/model-name]. *)
Definition idFormatWarning : string :=
  "Model ID should follow " ++ String "034"%char "provider/model-name"
    ++ String "034"%char " format".

(** The callback of [Object.entries(modelConfig.parameters).forEach]: the
    errors and the warnings one parameter adds, or the exception of
    [param.type]. *)
Definition checkParameter (name : string) (def : ParamDef)
  : Throws (list string * list string) :=
  match def with
  | ParamObject p => Return (paramErrors name p, paramWarnings name p)
  | ParamNull => Throw (TypeError "Cannot read properties of null (reading 'type')")
  | ParamUndefined =>
      Throw (TypeError "Cannot read properties of undefined (reading 'type')")
  end.

Fixpoint checkParameters (params : list (string * ParamDef))
  : Throws (list string * list string) :=
  match params with
  | [] => Return ([], [])
  | (name, def) :: rest =>
      here <- checkParameter name def ;;
      there <- checkParameters rest ;;
      Return (fst here ++ fst there, snd here ++ snd there)
  end.

(** [validateModelConfig(modelConfig)] *)
Definition validateModelConfig (numeric : value -> float) (cfg : RawModelConfig)
  : Throws Validation :=
  idWarning <-
    (if truthy (raw_id cfg) then
       slash <- includesSlash (raw_id cfg) ;;
       Return (if slash then []
               else [idFormatWarning])
     else Return []) ;;
  let params := match raw_parameters cfg with Some ps => ps | None => [] end in
  checked <- checkParameters params ;;
  let errs :=
    requiredErrors cfg ++ costErrors numeric (raw_costPerImage cfg) ++ fst checked in
  let warns := idWarning ++ snd checked in
  Return {| valid := (List.length errs =? 0)%nat; errors := errs; warnings := warns |}.

(** *** The response shapes, one extractor each

    The four branches of [extractImageUrls] taken apart, and the reading of
    the specification ("the first shape that yields at least one URL"), to be
    compared with the chain the source has. *)






(** *** Observations on a run of [generateBatch]

    The windows the loop goes through with [fuel] iterations from index [i]
    (each with the value of [i] it was sliced at), and whether the loop has
    left by then. *)

Fixpoint windowsOf (w : World) (tasks : list Task) (opts : Options)
  (fuel : nat) (i : Z) : list (Z * list Job) :=
  if i <? Z.of_nat (List.length tasks) then
    match fuel with
    | O => []
    | S fuel' =>
        (i, jobsFrom w opts 0 (slice (indexed tasks) i (i + batchSize opts)))
          :: windowsOf w tasks opts fuel' (i + batchSize opts)
    end
  else [].

Fixpoint returns (tasks : list Task) (opts : Options) (fuel : nat) (i : Z) : bool :=
  if i <? Z.of_nat (List.length tasks) then
    match fuel with
    | O => false
    | S fuel' => returns tasks opts fuel' (i + batchSize opts)
    end
  else true.

(** The positions and tasks of a window. *)
Definition windowTasks (win : Z * list Job) : list (nat * Task) :=
  map (fun j => (job_pos j, job_task j)) (snd win).

(** A window sliced at [i] holds jobs of the input: the job of index [m] is
    the task at position [i + m], with the result of that task. *)
Definition jobsOfInput (w : World) (tasks : list Task) (opts : Options)
  (win : Z * list Job) : Prop :=
  0 <= fst win /\
  forall m j, nth_error (snd win) m = Some j ->
    job_batchIndex j = m /\
    job_pos j = (Z.to_nat (fst win) + m)%nat /\
    nth_error tasks (job_pos j) = Some (job_task j) /\
    job_result j = taskResult w opts (job_pos j) (job_task j).

(** The events of a window of a run. *)
Definition eventsOfWindow (w : World) (tasks : list Task) (opts : Options)
  (win : Z * list Job) : list event :=
  windowEvents w opts (fst win) (Z.of_nat (List.length tasks)) (snd win).

(** The number of provider calls in flight after a trace: calls issued whose
    promise has not settled. *)
Fixpoint running (trace : list event) : Z :=
  match trace with
  | [] => 0
  | EvDispatch _ _ :: rest => running rest + 1
  | EvSettle _ _ :: rest => running rest - 1
  | EvProgress _ _ _ _ :: rest => running rest
  end.

(** The [completed] values passed to [onProgress], in the order of the calls. *)
Fixpoint progressValues (trace : list event) : list Z :=
  match trace with
  | [] => []
  | EvProgress completed _ _ _ :: rest => completed :: progressValues rest
  | _ :: rest => progressValues rest
  end.

(** The positions of the tasks whose promise has settled, in order. *)
Fixpoint settled (trace : list event) : list nat :=
  match trace with
  | [] => []
  | EvSettle pos _ :: rest => pos :: settled rest
  | _ :: rest => settled rest
  end.

(** The positions of the tasks whose provider call was issued, in order. *)
Fixpoint dispatched (trace : list event) : list nat :=
  match trace with
  | [] => []
  | EvDispatch pos _ :: rest => pos :: dispatched rest
  | _ :: rest => dispatched rest
  end.

(** The result object of every task of the input, in input order. *)
Definition resultsInOrder (w : World) (tasks : list Task) (opts : Options)
  : list GenerationResult :=
  map (fun pt => taskResult w opts (fst pt) (snd pt)) (indexed tasks).

(** The same world, except that the provider call of the task at position
    [k] settles as [o]. *)
Definition withOutcome (w : World) (k : nat) (o : ProviderOutcome) : World :=
  {| provider := fun pos task => if Nat.eqb pos k then o else provider w pos task;
     latency := latency w; ensureDir := ensureDir w; download := download w |}.

(** The same world with other latencies. *)
Definition withLatency (w : World) (lat : nat -> nat) : World :=
  {| provider := provider w; latency := lat;
     ensureDir := ensureDir w; download := download w |}.

(** *** Sample inputs *)

Definition sampleTask (p : string) : Task :=
  {| model := "fal-ai/flux/dev"; prompt := p; parameters := VUndefined |}.

Definition sampleTasks : list Task :=
  [ sampleTask "a cat"; sampleTask "a dog"; sampleTask "a bird" ].

(** A response of the most common shape, with one image. *)
Definition sampleResponse (u : string) : value :=
  VObj [("images", VArr [VObj [("url", VStr u)]])].

(** A world in which the call of position 1 times out, position 0 is the
    slowest task and position 1 the next slowest. *)
Definition sampleWorld : World :=
  {| provider := fun pos task =>
       if Nat.eqb pos 1 then Rejected (Error "Request timed out")
       else Resolved (sampleResponse ("https://fal.media/files/" ++ prompt task));
     latency := fun pos =>
       match pos with 0%nat => 5%nat | 1%nat => 1%nat | _ => 0%nat end;
     ensureDir := fun _ => None;
     download := fun _ _ => Some 1024%nat |}.

Definition sampleOptions (size : Z) : Options :=
  {| outputDir := None; generationId := None; batchSize := size; onProgress := true |}.


(** A catalog with one priced model, and a task for a model outside it. *)
Definition sampleCatalog : list (ModelConfig float) :=
  [ {| cfg_id := "fal-ai/flux/dev"; cfg_name := "FLUX.1 [dev]";
       cfg_costPerImage := Some 0.025%float |} ].

Definition unknownModelTask : CostTask float :=
  {| ct_model := "acme/unlisted-model"; ct_imageCount := None |}.

(** A descriptor of a free model: every required field is there and
    [costPerImage] is 0. *)
Definition freeModelConfig : RawModelConfig :=
  {| raw_id := VStr "acme/free-model"; raw_name := VStr "Free model";
     raw_type := VStr "image"; raw_costPerImage := VNum 0%float;
     raw_parameters := None |}.

(** A descriptor with a price and a numeric parameter range. *)
Definition pricedModelConfig : RawModelConfig :=
  {| raw_id := VStr "fal-ai/flux/dev"; raw_name := VStr "FLUX.1 [dev]";
     raw_type := VStr "image"; raw_costPerImage := VNum 0.025%float;
     raw_parameters :=
       Some [ ("num_inference_steps",
               ParamObject
                 {| param_type := VStr "number";
                    param_min := Some 1%float; param_max := Some 50%float |});
              ("prompt",
               ParamObject
                 {| param_type := VStr "string";
                    param_min := None; param_max := None |}) ] |}.

(** ToNumber on strings and objects, as far as the samples need it. *)
Definition toNaN (v : value) : float := PrimFloat.nan.

(** Ten one-image tasks of one model priced 0.1. *)
Definition dimeCatalog : list (ModelConfig float) :=
  [ {| cfg_id := "fal-ai/fast-sdxl"; cfg_name := "Fast SDXL";
       cfg_costPerImage := Some 0.1%float |} ].

Definition tenDimeTasks : list (CostTask float) :=
  repeat {| ct_model := "fal-ai/fast-sdxl"; ct_imageCount := None |} 10.

(** A task with a negative image count. *)
Definition negativeCountTask : CostTask float :=
  {| ct_model := "fal-ai/flux/dev"; ct_imageCount := Some (-2)%float |}.

(** A catalog entry, and a task, whose model id is a property name of
    [Object.prototype]. *)
Definition constructorCatalog : list (ModelConfig float) :=
  [ {| cfg_id := "constructor"; cfg_name := "Constructor";
       cfg_costPerImage := Some 0.025%float |} ].

Definition constructorTask : CostTask float :=
  {| ct_model := "constructor"; ct_imageCount := None |}.

(** Prices in thousandths of a dollar, in exact arithmetic. *)
Definition milliCatalog : list (ModelConfig Z) :=
  [ {| cfg_id := "fal-ai/flux/dev"; cfg_name := "FLUX.1 [dev]";
       cfg_costPerImage := Some 25 |};
    {| cfg_id := "fal-ai/fast-sdxl"; cfg_name := "Fast SDXL";
       cfg_costPerImage := Some 4 |} ].

Definition milliTasks : list (CostTask Z) :=
  [ {| ct_model := "fal-ai/fast-sdxl"; ct_imageCount := None |};
    {| ct_model := "fal-ai/flux/dev"; ct_imageCount := Some 3 |};
    {| ct_model := "acme/unlisted-model"; ct_imageCount := Some 7 |};
    {| ct_model := "fal-ai/fast-sdxl"; ct_imageCount := Some 2 |} ].

(** A world in which the output directory cannot be created. *)
Definition readOnlyWorld : World :=
  {| provider := provider sampleWorld;
     latency := latency sampleWorld;
     ensureDir := fun _ => Some (Error "EACCES: permission denied, mkdir 'out'");
     download := download sampleWorld |}.

(** A world in which the download of one URL fails. *)
Definition flakyWorld : World :=
  {| provider := provider sampleWorld;
     latency := latency sampleWorld;
     ensureDir := fun _ => None;
     download := fun _ url =>
       if strictEqStr url "https://fal.media/files/b.png" then None else Some 1024%nat |}.

(** A response with two images. *)
Definition twoImagesResponse : value :=
  VObj [("images", VArr [ VObj [("url", VStr "https://fal.media/files/a.png")];
                          VObj [("url", VStr "https://fal.media/files/b.png")] ])].

(** A task whose [parameters] is [null]. *)
Definition nullParametersTask : Task :=
  {| model := "fal-ai/flux/dev"; prompt := "a cat"; parameters := VNull |}.

(** [download] gave a file. *)
Definition downloaded (w : World) (dir : string) (url : value) : bool :=
  match download w dir url with
  | Some _ => true
  | None => false
  end.

(** ** src/secure-storage.js *)

(** [[a-zA-Z0-9_:\-\.]] *)
Definition isKeyChar (c : ascii) : bool :=
  isAlnum c || Ascii.eqb c "_"%char || Ascii.eqb c ":"%char
    || Ascii.eqb c "-"%char || Ascii.eqb c "."%char.

(** [[:\-]] *)
Definition isSeparator (c : ascii) : bool :=
  Ascii.eqb c ":"%char || Ascii.eqb c "-"%char.

(** Every character of [s] is in the class: [/^[...]*$/.test(s)]. *)
Fixpoint allChars (p : ascii -> bool) (s : string) : bool :=
  match s with
  | EmptyString => true
  | String c rest => p c && allChars p rest
  end.

(** Some character of [s] is in the class: [/[...]/.test(s)]. *)
Fixpoint someChar (p : ascii -> bool) (s : string) : bool :=
  match s with
  | EmptyString => false
  | String c rest => p c || someChar p rest
  end.

(** [validateApiKey(apiKey)] *)
Definition validateApiKey (apiKey : value) : bool :=
  match apiKey with
  | VStr s =>
      if String.eqb s "" then false
      else
        let trimmedKey := trim s in
        if (String.length trimmedKey <? 10)%nat then false
        else
          let basicPattern :=
            negb (String.eqb trimmedKey "") && allChars isKeyChar trimmedKey in
          let hasValidSeparator := someChar isSeparator trimmedKey in
          let hasReasonableLength :=
            ((10 <=? String.length trimmedKey) && (String.length trimmedKey <=? 200))%nat in
          basicPattern && hasValidSeparator && hasReasonableLength
  | _ => false
  end.

(** ** The protocol server: the [generate_image] handler *)

(** The arguments of the tool call, as the handler destructures them;
    [arg_model], [arg_save_to_disk], [arg_output_directory] and
    [arg_confirm_spending] are of the types the schema gives them. *)
Record GenerateImageArgs : Type := {
  arg_prompt : value;
  arg_model : option string;
  arg_parameters : value;
  arg_save_to_disk : bool;
  arg_output_directory : option string;
  arg_confirm_spending : bool
}.

(** The object the handler returns (the display text and the clock fields
    are left out). *)
Record GenerateImageResponse : Type := {
  resp_success : bool;
  resp_model : string;
  resp_prompt : string;
  resp_images : list value;
  resp_parameters : value;
  resp_generationId : option string;
  resp_prompt_length : nat;
  resp_model_type : string
}.

(** How the handler ends: with an exception, with the confirmation error, or
    with its response. *)
Inductive ImageHandlerOutcome : Type :=
| Thrown (e : exn)
| NeedsConfirmation (c : SpendingConfirmation)
| Responded (r : GenerateImageResponse).

(** The handler threw. *)
Definition thrown (o : ImageHandlerOutcome) : bool :=
  match o with
  | Thrown _ => true
  | _ => false
  end.

(** [!prompt || prompt.trim().length < 3], then [prompt.length > 2000]:
    the prompt as a string when both tests pass. *)
Definition checkPrompt (p : value) : Throws string :=
  if negb (truthy p) then Throw (Error "Prompt must be at least 3 characters long")
  else
    match p with
    | VStr s =>
        if (String.length (trim s) <? 3)%nat
        then Throw (Error "Prompt must be at least 3 characters long")
        else if (2000 <? String.length s)%nat
        then Throw (Error "Prompt must be less than 2000 characters")
        else Return s
    | _ => Throw (TypeError "prompt.trim is not a function")
    end.

(** The fields of the response read from the result of the generation:
    [result.images || []] and [result.parameters || {}]. *)
Definition imagesOfResult (r : GenerationResult) : list value :=
  match r with
  | Success ok => images ok
  | Failure _ => []
  end.

Definition parametersOfResult (r : GenerationResult) : value :=
  match r with
  | Success ok => orElse (ok_parameters ok) (VObj [])
  | Failure _ => VObj []
  end.

Definition modelOfResult (r : GenerationResult) : string :=
  match r with
  | Success ok => ok_model ok
  | Failure ko => ko_model ko
  end.

Definition promptOfResult (r : GenerationResult) : string :=
  match r with
  | Success ok => ok_prompt ok
  | Failure ko => ko_prompt ko
  end.

Definition generationIdOfResult (r : GenerationResult) : option string :=
  match r with
  | Success ok => ok_generationId ok
  | Failure ko => ko_generationId ko
  end.

(** The [generate_image] case of the tool handler.  [cwd] is the working
    directory, [today] the date of the default directory and [genId] the
    generation id made from the clock and a random suffix.  The confirmation
    error carries the payload of [checkSpending] (and the model, the number
    of images and a message, which are left out). *)
Definition generate_image (w : World) (numeric : value -> float)
  (loaded : Throws (list (ModelConfig float))) (src : KeySources)
  (args : GenerateImageArgs) (cwd today genId : string) : ImageHandlerOutcome :=
  match getApiKey src with
  | Throw e => Thrown e
  | Return apiKey =>
      let modelId :=
        match arg_model args with
        | Some m => m
        | None => "fal-ai/flux-pro/kontext/text-to-image"
        end in
      let params := defaultParameters (arg_parameters args) in
      match checkPrompt (arg_prompt args) with
      | Throw e => Thrown e
      | Return promptText =>
          match getProp params "num_images" with
          | Throw e => Thrown e
          | Return num_images =>
              let numImages := orElse num_images (VNum 1%float) in
              let estimatedCost :=
                calculateGenerationCost loaded modelId (toNumber numeric numImages) in
              match checkSpending estimatedCost (arg_confirm_spending args) with
              | Some c => NeedsConfirmation c
              | None =>
                  let outputDir :=
                    if arg_save_to_disk args then
                      match truthyStr (arg_output_directory args) with
                      | Some dir => Some dir
                      | None =>
                          Some (path_join
                                  (path_join (path_join cwd "generated-images") today)
                                  (sanitize modelId))
                      end
                    else None in
                  let task :=
                    {| model := modelId; prompt := promptText; parameters := params |} in
                  let result :=
                    generateSingleImage w task outputDir (Some genId)
                      (provider w 0%nat task) in
                  Responded {|
                    resp_success := success result;
                    resp_model := modelOfResult result;
                    resp_prompt := promptOfResult result;
                    resp_images := imagesOfResult result;
                    resp_parameters := parametersOfResult result;
                    resp_generationId := generationIdOfResult result;
                    resp_prompt_length := String.length promptText;
                    resp_model_type :=
                      if includes modelId "ultra" then "ultra_quality" else "standard"
                  |}
              end
          end
      end
  end.

(** *** Sample keys and arguments *)

Definition sampleKey : string :=
  "01234567-89ab-cdef-0123-456789abcdef:0123456789abcdef0123456789abcdef".

(** A key of the older, dash-separated kind. *)
Definition dashedKey : string := "fal-key-0123456789abcdef".

Definition envKey (key : string) : KeySources :=
  {| FAL_KEY := Some key; hasStoredApiKey := false; retrieveApiKey := Return None |}.

Definition storedKey (key : string) : KeySources :=
  {| FAL_KEY := None; hasStoredApiKey := true; retrieveApiKey := Return (Some key) |}.

Definition sampleArgs (p : string) : GenerateImageArgs :=
  {| arg_prompt := VStr p; arg_model := None; arg_parameters := VUndefined;
     arg_save_to_disk := false; arg_output_directory := None;
     arg_confirm_spending := false |}.

(** ** The model loader of the command line: [getSharedParameters]

    A model as the loader's [getSharedParameters(models)] reads it: the
    lists [supportedAspectRatios] and [supportedFormats], arrays of strings
    when they are present. *)
Record LoadedModel : Type := {
  supportedAspectRatios : option (list string);
  supportedFormats : option (list string)
}.

(** [list.includes(x)] on an array of strings. *)
Definition includesStr (l : list string) (x : string) : bool :=
  existsb (String.eqb x) l.

(** The [reduce] that intersects one list field over the models, starting
    from [models[0]?.field || []]: a model without the field leaves the
    common list as it is. *)
Definition sharedOptions (field : LoadedModel -> option (list string))
  (models : list LoadedModel) : list string :=
  fold_left
    (fun common m =>
       match field m with
       | None => common
       | Some supported => filter (includesStr supported) common
       end)
    models
    match models with
    | first :: _ =>
        match field first with
        | Some supported => supported
        | None => []
        end
    | [] => []
    end.

(** A parameter of type [string] with its [options] and its [default],
    [options[0]]. *)
Record ChoiceParam : Type := {
  choice_options : list string;
  choice_default : string
}.

(** The parameter [num_images]: [{ type: 'integer', min, max, default }]. *)
Record IntegerParam : Type := {
  int_min : Z;
  int_max : Z;
  int_default : Z
}.

(** The object [getSharedParameters] returns: a property is [None] when the
    object does not have it. *)
Record SharedParams : Type := {
  aspect_ratio : option ChoiceParam;
  output_format : option ChoiceParam;
  num_images : option IntegerParam
}.

(** [if (shared.length > 0) sharedParams.x = { type: 'string', options:
    shared, default: shared[0] }] *)
Definition choiceOf (shared : list string) : option ChoiceParam :=
  match shared with
  | [] => None
  | first :: _ => Some {| choice_options := shared; choice_default := first |}
  end.

(** [getSharedParameters(models)] *)
Definition getSharedParameters (models : list LoadedModel) : SharedParams :=
  match models with
  | [] => {| aspect_ratio := None; output_format := None; num_images := None |}
  | _ :: _ =>
      {| aspect_ratio := choiceOf (sharedOptions supportedAspectRatios models);
         output_format := choiceOf (sharedOptions supportedFormats models);
         num_images := Some {| int_min := 1; int_max := 4; int_default := 1 |} |}
  end.

(** Two models that share one aspect ratio, and a model that lists none. *)
Definition squareAndWide : LoadedModel :=
  {| supportedAspectRatios := Some ["1:1"; "16:9"; "4:3"];
     supportedFormats := Some ["jpeg"; "png"] |}.

Definition squareOnly : LoadedModel :=
  {| supportedAspectRatios := Some ["1:1"]; supportedFormats := None |}.

Definition noLists : LoadedModel :=
  {| supportedAspectRatios := None; supportedFormats := None |}.

(** ** src/core/prompt-optimizer.js *)

(** [[.!?]] *)
Definition isSentenceEnd (c : ascii) : bool :=
  Ascii.eqb c "."%char || Ascii.eqb c "!"%char || Ascii.eqb c "?"%char.

Definition adjectives : list string :=
  ["detailed"; "beautiful"; "stunning"; "dramatic"; "elegant"; "vibrant"].

Definition technical : list string :=
  ["cinematic"; "professional"; "HDR"; "bokeh"; "macro"].

(** [terms.forEach(t => { if (prompt.toLowerCase().includes(t)) score +=
    points; })] *)
Definition bonus (prompt : string) (terms : list string) (points score : Z) : Z :=
  fold_left
    (fun sc term => if includes (toLowerCase prompt) term then sc + points else sc)
    terms score.

(** [estimateComplexity(prompt)]; the score is a sum of small whole
    numbers, which binary64 holds exactly. *)
Definition estimateComplexity (prompt : string) : Z :=
  let words := splitRuns isSpace prompt in
  let sentences :=
    filter (fun s => negb (String.eqb (trim s) ""))
      (splitRuns isSentenceEnd prompt) in
  let score := 0 in
  let score := score + Z.min (Z.of_nat (List.length words) * 2) 40 in
  let score := bonus prompt adjectives 5 score in
  let score := bonus prompt technical 8 score in
  let score := if (1 <? Z.of_nat (List.length sentences)) then score + 10 else score in
  Z.min score 100.

(** The class of the quote pattern: the quotation mark (character 34) and
    the apostrophe. *)
Definition isQuote (c : ascii) : bool :=
  Ascii.eqb c "034"%char || Ascii.eqb c "'"%char.

(** Drop the last character when it is in the class: [/[...]$/]. *)
Fixpoint dropLastIf (p : ascii -> bool) (s : string) : string :=
  match s with
  | EmptyString => EmptyString
  | String c rest =>
      match rest with
      | EmptyString => if p c then EmptyString else s
      | String _ _ => String c (dropLastIf p rest)
      end
  end.

(** The first [replace] of the cleaning, with the pattern (a quote at the
    start, or a quote at the end) under the flag [g]: a quote at the start
    goes, and so does a quote at the end of what is left. *)
Definition stripQuotes (s : string) : string :=
  dropLastIf isQuote
    match s with
    | EmptyString => EmptyString
    | String c rest => if isQuote c then rest else s
    end.

(** [s.substring(n)] *)
Fixpoint dropChars (n : nat) (s : string) : string :=
  match n, s with
  | O, _ => s
  | S n', String _ rest => dropChars n' rest
  | S _, EmptyString => EmptyString
  end.

(** [s.replace(/^\s*label\s*/i, '')] for a [label] that does not start with
    white space: under the flag [i] a character matches one of the label
    when both have the same lower case. *)
Definition stripLabel (label s : string) : string :=
  let body := trimStart s in
  if String.prefix (toLowerCase label) (toLowerCase body)
  then trimStart (dropChars (String.length label) body)
  else s.

(** [v[0]] on a truthy value. *)
Definition first (v : value) : value :=
  match v with
  | VArr (x :: _) => x
  | VStr (String c _) => VStr (String c EmptyString)
  | VObj props => lookup "0" props
  | _ => VUndefined
  end.

(** The cleaning of the text and the fallback of [extractOptimizedPrompt]. *)
Definition cleanUp (text : string) : string :=
  let cleaned :=
    trim (stripLabel "Here's the optimized prompt:"
            (stripLabel "Optimized Prompt:" (stripQuotes text))) in
  if String.eqb cleaned "" then "Failed to optimize prompt" else cleaned.

(** [extractOptimizedPrompt(result)]: the text is looked for in
    [result.output.text], [result.text], [result.choices[0].text] and
    [result] itself, in this order; [replace] is a method of strings only. *)
Definition extractOptimizedPrompt (result : value) : Throws string :=
  output <- getProp result "output" ;;
  output_text <- andProp output "text" ;;
  optimizedPrompt <-
    (if truthy output_text then Return output_text
     else
       text <- getProp result "text" ;;
       if truthy text then Return text
       else
         choices <- getProp result "choices" ;;
         choice <- (if truthy choices then Return (first choices) else Return choices) ;;
         choice_text <- andProp choice "text" ;;
         if truthy choice_text then Return choice_text
         else if isString result then Return result
         else Return (VStr "")) ;;
  match optimizedPrompt with
  | VStr text => Return (cleanUp text)
  | _ => Throw (TypeError "optimizedPrompt.replace is not a function")
  end.

(** [terms.forEach(term => { if (!original.toLowerCase().includes(
    term.toLowerCase()) && optimized.toLowerCase().includes(
    term.toLowerCase())) list.push(term); })] *)
Definition addedTerms (original optimized : string) (terms : list string)
  : list string :=
  filter
    (fun term =>
       negb (includes (toLowerCase original) (toLowerCase term))
       && includes (toLowerCase optimized) (toLowerCase term))
    terms.

Definition technicalTermList : list string :=
  [ "bokeh"; "depth of field"; "cinematic"; "professional"; "high-resolution";
    "HDR"; "macro"; "wide-angle"; "telephoto"; "golden hour"; "dramatic lighting";
    "soft lighting"; "ambient"; "volumetric"; "photorealistic"; "ultra-detailed" ].

Definition styleKeywords : list string :=
  [ "detailed"; "vibrant"; "sharp"; "crisp"; "elegant"; "sophisticated";
    "dynamic"; "atmospheric"; "moody"; "dramatic"; "subtle"; "refined" ].

(** The object [analyzeImprovements] returns. *)
Record Improvements : Type := {
  lengthChange : Z;
  addedDetails : list string;
  technicalTerms : list string;
  styleEnhancements : list string;
  complexity_original : Z;
  complexity_optimized : Z
}.

(** [analyzeImprovements(original, optimized)] *)
Definition analyzeImprovements (original optimized : string) : Improvements :=
  {| lengthChange :=
       Z.of_nat (String.length optimized) - Z.of_nat (String.length original);
     addedDetails := [];
     technicalTerms := addedTerms original optimized technicalTermList;
     styleEnhancements := addedTerms original optimized styleKeywords;
     complexity_original := estimateComplexity original;
     complexity_optimized := estimateComplexity optimized |}.

(** The object [optimizePrompt] returns (without its [style] and
    [timestamp]): [opt_error] is there on failure, [opt_improvements] on
    success. *)
Record Optimization : Type := {
  opt_success : bool;
  opt_original : string;
  opt_optimized : string;
  opt_model : string;
  opt_error : option string;
  opt_improvements : option Improvements
}.

(** [optimizePrompt(prompt, model, apiKey, options)], after the call of
    the text model has settled as [outcome]; the options only shape the
    request sent. *)
Definition optimizePrompt (promptText modelId : string) (outcome : ProviderOutcome)
  : Optimization :=
  match (result <- await outcome ;; extractOptimizedPrompt result) with
  | Return optimizedPrompt =>
      {| opt_success := true;
         opt_original := promptText;
         opt_optimized := optimizedPrompt;
         opt_model := modelId;
         opt_error := None;
         opt_improvements := Some (analyzeImprovements promptText optimizedPrompt) |}
  | Throw e =>
      {| opt_success := false;
         opt_original := promptText;
         opt_optimized := promptText;
         opt_model := modelId;
         opt_error := Some (message e);
         opt_improvements := None |}
  end.

(** ** src/core/model-manager.js: the queries on the loaded models *)

(** A loaded model configuration as the queries read it: [id] is a string;
    [type], [costPerImage] (a number) and [capabilities] (an array of
    strings) may be absent. *)
Record ManagedModel : Type := {
  mm_id : string;
  mm_type : option string;
  mm_costPerImage : option float;
  mm_capabilities : option (list string)
}.

(** [filters.capabilities]: one capability, or an array of them. *)
Inductive Capabilities : Type :=
| OneCapability (cap : string)
| CapabilityList (caps : list string).

(** The [filters] of [getFilteredModels]; a criterion is [None] when the
    object does not have it. *)
Record Filters : Type := {
  flt_type : option string;
  flt_provider : option string;
  flt_maxCost : option float;
  flt_minCost : option float;
  flt_capabilities : option Capabilities
}.

(** [if (x)] on a number that may be absent. *)
Definition truthyNum (x : option float) : option float :=
  match x with
  | Some n => if truthy_num n then Some n else None
  | None => None
  end.

(** [model.type !== filters.type] *)
Definition typeDiffers (m : ManagedModel) (t : string) : bool :=
  match mm_type m with
  | Some t' => negb (String.eqb t' t)
  | None => true
  end.

(** [model.costPerImage > bound] and [model.costPerImage < bound]: false
    when the model has no [costPerImage]. *)
Definition costAbove (m : ManagedModel) (bound : float) : bool :=
  match mm_costPerImage m with
  | Some c => (bound <? c)%float
  | None => false
  end.

Definition costBelow (m : ManagedModel) (bound : float) : bool :=
  match mm_costPerImage m with
  | Some c => (c <? bound)%float
  | None => false
  end.

(** [requiredCaps.every(cap => modelCaps.some(modelCap =>
    modelCap.toLowerCase().includes(cap.toLowerCase())))] *)
Definition hasAllCaps (m : ManagedModel) (requiredCaps : list string) : bool :=
  let modelCaps :=
    match mm_capabilities m with
    | Some caps => caps
    | None => []
    end in
  forallb
    (fun cap =>
       existsb (fun modelCap => includes (toLowerCase modelCap) (toLowerCase cap))
         modelCaps)
    requiredCaps.

(** The callback of [models.filter] in [getFilteredModels]. *)
Definition keeps (filters : Filters) (m : ManagedModel) : bool :=
  if match truthyStr (flt_type filters) with
     | Some t => typeDiffers m t
     | None => false
     end
  then false
  else if match truthyStr (flt_provider filters) with
          | Some p => negb (includes (mm_id m) p)
          | None => false
          end
  then false
  else if match truthyNum (flt_maxCost filters) with
          | Some maxCost => costAbove m maxCost
          | None => false
          end
  then false
  else if match truthyNum (flt_minCost filters) with
          | Some minCost => costBelow m minCost
          | None => false
          end
  then false
  else
    match flt_capabilities filters with
    | Some (CapabilityList caps) => hasAllCaps m caps
    | Some (OneCapability cap) =>
        if String.eqb cap "" then true else hasAllCaps m [cap]
    | None => true
    end.

(** [getFilteredModels(filters)] on the models loaded. *)
Definition getFilteredModels (loaded : list ManagedModel) (filters : Filters)
  : list ManagedModel :=
  filter (keeps filters) loaded.

(** No criterion. *)
Definition noFilters : Filters :=
  {| flt_type := None; flt_provider := None; flt_maxCost := None;
     flt_minCost := None; flt_capabilities := None |}.

(** [Math.min(a, b)] and [Math.max(a, b)]: NaN when either is, and the
    negative zero below the positive one. *)
Definition jsMin (a b : float) : float :=
  if PrimFloat.is_nan a || PrimFloat.is_nan b then PrimFloat.nan
  else if (a <? b)%float then a
  else if (b <? a)%float then b
  else if PrimFloat.get_sign a then a else b.

Definition jsMax (a b : float) : float :=
  if PrimFloat.is_nan a || PrimFloat.is_nan b then PrimFloat.nan
  else if (a <? b)%float then b
  else if (b <? a)%float then a
  else if PrimFloat.get_sign a then b else a.

(** A cell of a counting object such as [byType]: a count or, for a key
    that names a member inherited from [Object.prototype], the text that
    [member + 1] is. *)
Inductive Cell : Type :=
| Count (n : Z)
| Text.

(** The own property [key] of a counting object. *)
Fixpoint cellOf (key : string) (counts : list (string * Cell)) : option Cell :=
  match counts with
  | [] => None
  | (k, c) :: rest => if String.eqb k key then Some c else cellOf key rest
  end.

(** Assign the own property [key], in place when it is there. *)
Fixpoint setCell (key : string) (c : Cell) (counts : list (string * Cell))
  : list (string * Cell) :=
  match counts with
  | [] => [(key, c)]
  | (k, old) :: rest =>
      if String.eqb k key then (k, c) :: rest else (k, old) :: setCell key c rest
  end.

(** [counts[key] = (counts[key] || 0) + 1].  For an inherited key the
    right-hand side is a text; assigning a text to [__proto__] creates no
    property. *)
Definition countUp (key : string) (counts : list (string * Cell))
  : list (string * Cell) :=
  match cellOf key counts with
  | Some (Count n) => setCell key (Count (n + 1)) counts
  | Some Text => setCell key Text counts
  | None =>
      if inherited key then
        if String.eqb key "__proto__" then counts else setCell key Text counts
      else setCell key (Count 1) counts
  end.

(** [String(model.type)] as a property key. *)
Definition typeKey (m : ManagedModel) : string :=
  match mm_type m with
  | Some t => t
  | None => "undefined"
  end.

(** [model.id.split('/')[0]] *)
Definition providerOf (m : ManagedModel) : string :=
  match splitOn "/"%char (mm_id m) with
  | provider :: _ => provider
  | [] => EmptyString
  end.

(** [set.add(x)] on a [Set] of strings, in insertion order. *)
Definition addToSet (set : list string) (x : string) : list string :=
  if includesStr set x then set else set ++ [x].

(** [costRange]: [{ min, max, average }]. *)
Record CostRange : Type := {
  range_min : float;
  range_max : float;
  range_average : float
}.

(** The object [getModelStats] returns (without [lastUpdated]). *)
Record ModelStats : Type := {
  stats_total : nat;
  byType : list (string * Cell);
  byProvider : list (string * Cell);
  costRange : CostRange;
  stats_capabilities : list string
}.

(** What the [forEach] of [getModelStats] keeps: the statistics and
    [totalCost]. *)
Definition statsStep (acc : ModelStats * float) (m : ManagedModel)
  : ModelStats * float :=
  let (stats, totalCost) := acc in
  let priced :=
    match truthyNum (mm_costPerImage m) with
    | Some c =>
        ({| range_min := jsMin (range_min (costRange stats)) c;
            range_max := jsMax (range_max (costRange stats)) c;
            range_average := range_average (costRange stats) |},
         (totalCost + c)%float)
    | None => (costRange stats, totalCost)
    end in
  ({| stats_total := stats_total stats;
      byType := countUp (typeKey m) (byType stats);
      byProvider := countUp (providerOf m) (byProvider stats);
      costRange := fst priced;
      stats_capabilities :=
        match mm_capabilities m with
        | Some caps => fold_left addToSet caps (stats_capabilities stats)
        | None => stats_capabilities stats
        end |},
   snd priced).

(** [models.length] as a number. *)
Definition lengthNumber {A : Type} (l : list A) : float :=
  PrimFloat.of_uint63 (Uint63Axioms.of_Z (Z.of_nat (List.length l))).

(** [getModelStats()] on the models loaded. *)
Definition getModelStats (loaded : list ManagedModel) : ModelStats :=
  let (stats, totalCost) :=
    fold_left statsStep loaded
      ({| stats_total := List.length loaded;
          byType := [];
          byProvider := [];
          costRange := {| range_min := PrimFloat.infinity;
                          range_max := PrimFloat.neg_infinity;
                          range_average := 0%float |};
          stats_capabilities := [] |},
       0%float) in
  let average :=
    if (0 <? List.length loaded)%nat
    then (totalCost / lengthNumber loaded)%float
    else range_average (costRange stats) in
  let range :=
    if (range_min (costRange stats) =? PrimFloat.infinity)%float
    then {| range_min := 0%float; range_max := 0%float; range_average := average |}
    else {| range_min := range_min (costRange stats);
            range_max := range_max (costRange stats);
            range_average := average |} in
  {| stats_total := stats_total stats;
     byType := byType stats;
     byProvider := byProvider stats;
     costRange := range;
     stats_capabilities := stats_capabilities stats |}.

(** A small catalog of loaded models. *)
Definition sampleModels : list ManagedModel :=
  [ {| mm_id := "fal-ai/flux/dev"; mm_type := Some "image";
       mm_costPerImage := Some 0.025%float;
       mm_capabilities := Some ["Text-to-Image"; "High Quality"] |};
    {| mm_id := "fal-ai/fast-sdxl"; mm_type := Some "image";
       mm_costPerImage := Some 0.004%float;
       mm_capabilities := Some ["text-to-image"] |};
    {| mm_id := "acme/flux-clone"; mm_type := Some "image";
       mm_costPerImage := None; mm_capabilities := None |} ].

(** ** The protocol server: the suggestion added to an error *)

(** [getSuggestionForError(error, toolName)] *)
Definition getSuggestionForError (e : exn) : string :=
  let message := toLowerCase (message e) in
  if includes message "api key" || includes message "unauthorized" then
    "Check your FAL_KEY environment variable or run the CLI setup command"
  else if includes message "model" && includes message "not found" then
    "Use list_models tool to see available models"
  else if includes message "prompt" && includes message "empty" then
    "Provide a non-empty prompt for image generation"
  else if includes message "parameter" || includes message "validation" then
    "Check the model configuration for valid parameter ranges"
  else
    "Check the tool documentation or try again with different parameters".

(** A configuration file whose key cannot be decrypted. *)
Definition corruptStore : KeySources :=
  {| FAL_KEY := None; hasStoredApiKey := true;
     retrieveApiKey :=
       Throw (Error "Failed to retrieve API key: Failed to decrypt API key - data may be corrupted") |}.

(** ** The model loader of the command line: [getModelsByCategory]

    The models loaded are the entries of an object, file name to
    configuration, in the order in which [Object.entries] lists them; a
    configuration is read for its [category] only, a string when it is
    there. *)
Record CategorizedModel : Type := {
  cat_key : string;
  category : option string
}.

(** [String(model.category)] as a property key. *)
Definition categoryKey (m : CategorizedModel) : string :=
  match category m with
  | Some c => c
  | None => "undefined"
  end.

(** The own property [key] of [categories]. *)
Fixpoint groupOf (key : string) (categories : list (string * list CategorizedModel))
  : option (list CategorizedModel) :=
  match categories with
  | [] => None
  | (k, members) :: rest => if String.eqb k key then Some members else groupOf key rest
  end.

(** [categories[key].push(m)] on an own property. *)
Fixpoint pushTo (key : string) (m : CategorizedModel)
  (categories : list (string * list CategorizedModel))
  : list (string * list CategorizedModel) :=
  match categories with
  | [] => []
  | (k, members) :: rest =>
      if String.eqb k key then (k, members ++ [m]) :: rest
      else (k, members) :: pushTo key m rest
  end.

(** The callback of the [forEach]: for a category that names a member
    inherited from [Object.prototype] no array is created, and the member
    has no [push]. *)
Definition categorize (categories : list (string * list CategorizedModel))
  (m : CategorizedModel) : Throws (list (string * list CategorizedModel)) :=
  let key := categoryKey m in
  match groupOf key categories with
  | Some _ => Return (pushTo key m categories)
  | None =>
      if inherited key
      then Throw (TypeError "categories[model.category].push is not a function")
      else Return (pushTo key m (categories ++ [(key, [])]))
  end.

(** [getModelsByCategory()] on the entries loaded. *)
Fixpoint categorizeAll (models : list CategorizedModel)
  (categories : list (string * list CategorizedModel))
  : Throws (list (string * list CategorizedModel)) :=
  match models with
  | [] => Return categories
  | m :: rest =>
      categories' <- categorize categories m ;;
      categorizeAll rest categories'
  end.

Definition getModelsByCategory (models : list CategorizedModel)
  : Throws (list (string * list CategorizedModel)) :=
  categorizeAll models [].

Definition sampleCategorized : list CategorizedModel :=
  [ {| cat_key := "flux-dev"; category := Some "image" |};
    {| cat_key := "veo"; category := Some "video" |};
    {| cat_key := "fast-sdxl"; category := Some "image" |};
    {| cat_key := "draft"; category := None |} ].

(* ------------------------------------------------------------------ *)
(** * Properties *)

(** ** Response normalisation and the single generation *)

Lemma bind_Return_inv {A B : Type} (m : Throws A) (k : A -> Throws B) (b : B) :
  bind m k = Return b -> exists a, m = Return a /\ k a = Return b.
Proof.
  destruct m as [a | e]; simpl; intros H; [eauto | discriminate].
Qed.

(** The [catch] block yields a failure carrying the message of whatever the
    [try] block threw. *)
Lemma generateSingleImage_catch w task od gid outcome e :
  generateSingleImage_try w task od gid outcome = Throw e ->
  generateSingleImage w task od gid outcome =
    Failure {| ko_model := model task; ko_prompt := prompt task;
               error := message e; ko_generationId := gid |}.
Proof.
  unfold generateSingleImage. intros ->. reflexivity.
Qed.

(** A rejected provider call is a failure with the rejection's message. *)
Lemma generateSingleImage_rejected w task od gid e :
  generateSingleImage w task od gid (Rejected e) =
    Failure {| ko_model := model task; ko_prompt := prompt task;
               error := message e; ko_generationId := gid |}.
Proof. reflexivity. Qed.

(** A success carries exactly the URLs extracted, and at least one. *)
Lemma generateSingleImage_success_images w task od gid outcome r :
  generateSingleImage w task od gid outcome = Success r ->
  exists result,
    outcome = Resolved result /\
    extractImageUrls result = Return (images r) /\
    images r <> [].
Proof.
  unfold generateSingleImage.
  destruct (generateSingleImage_try w task od gid outcome) as [resp | e] eqn:T;
    [intros -> | discriminate].
  unfold generateSingleImage_try in T.
  destruct outcome as [result | e]; simpl in T; [| discriminate].
  exists result. split; [reflexivity |].
  destruct (extractImageUrls result) as [imgs | e]; simpl in T; [| discriminate].
  destruct imgs as [| u imgs]; simpl in T; [discriminate |].
  repeat match type of T with
         | bind ?m _ = Return _ =>
             apply bind_Return_inv in T; destruct T as (? & _ & T)
         end.
  inversion T; subst; simpl. split; [reflexivity | discriminate].
Qed.


(** ** The batch loop *)

Lemma nth_error_combine_seq {A : Type} (l : list A) : forall s k x,
  nth_error l k = Some x ->
  nth_error (combine (seq s (List.length l)) l) k = Some ((s + k)%nat, x).
Proof.
  induction l as [| a l IH]; intros s k x H.
  - destruct k; discriminate.
  - destruct k as [| k]; simpl in *.
    + inversion H; subst. now rewrite Nat.add_0_r.
    + rewrite (IH (S s) k x H). do 2 f_equal. lia.
Qed.

Section BatchLoop.

Variables (w : World) (tasks : list Task) (opts : Options).


(** The loop, iteration by iteration, is the list of its windows. *)
Lemma generateBatch_loop_windows fuel : forall i results trace,
  generateBatch_loop w tasks opts fuel i results trace =
    let ws := windowsOf w tasks opts fuel i in
    let tr := trace ++ flat_map (eventsOfWindow w tasks opts) ws in
    if returns tasks opts fuel i
    then Done (results ++ flat_map (fun win => map job_result (snd win)) ws) tr
    else Pending tr.
Proof.
  induction fuel as [| fuel IH]; intros i results trace; simpl.
  - destruct (i <? Z.of_nat (List.length tasks)); simpl; now rewrite !app_nil_r.
  - destruct (i <? Z.of_nat (List.length tasks)); simpl.
    + rewrite IH. cbv zeta. unfold eventsOfWindow at 3. simpl.
      rewrite <- !app_assoc. reflexivity.
    + now rewrite !app_nil_r.
Qed.

Lemma length_indexed : List.length (indexed tasks) = List.length tasks.
Proof.
  unfold indexed. rewrite length_combine, length_seq. apply Nat.min_id.
Qed.

Lemma nth_error_indexed k t :
  nth_error tasks k = Some t -> nth_error (indexed tasks) k = Some (k, t).
Proof.
  intros H. unfold indexed. now rewrite (nth_error_combine_seq tasks 0 k t H).
Qed.

End BatchLoop.

(** [slice] on a window that starts inside the array. *)
Lemma slice_window {A : Type} (l : list A) (i size : Z) :
  0 <= i < Z.of_nat (List.length l) -> 1 <= size ->
  slice l i (i + size) = firstn (Z.to_nat size) (skipn (Z.to_nat i) l).
Proof.
  intros Hi Hs. unfold slice, relIndex.
  destruct (Z.ltb_spec i 0) as [? | _]; [lia |].
  destruct (Z.ltb_spec (i + size) 0) as [? | _]; [lia |].
  rewrite (Z.min_l i) by lia.
  destruct (Z.le_ge_cases (i + size) (Z.of_nat (List.length l))) as [Hle | Hge].
  - rewrite Z.min_l by lia. do 2 f_equal. lia.
  - rewrite Z.min_r by lia.
    rewrite !firstn_all2; [reflexivity | |]; rewrite length_skipn; lia.
Qed.

Lemma jobsFrom_tasks w opts batch : forall k,
  map (fun j => (job_pos j, job_task j)) (jobsFrom w opts k batch) = batch.
Proof.
  induction batch as [| [pos t] batch IH]; intros k; simpl; [reflexivity |].
  now rewrite IH.
Qed.

Lemma jobsFrom_results w opts batch : forall k,
  map job_result (jobsFrom w opts k batch) =
    map (fun pt => taskResult w opts (fst pt) (snd pt)) batch.
Proof.
  induction batch as [| [pos t] batch IH]; intros k; simpl; [reflexivity |].
  now rewrite IH.
Qed.

Lemma jobsFrom_length w opts batch : forall k,
  List.length (jobsFrom w opts k batch) = List.length batch.
Proof.
  intros k. rewrite <- (jobsFrom_tasks w opts batch k) at 2. now rewrite length_map.
Qed.

(** A job knows its index in the window and the result of its own task. *)
Lemma jobsFrom_nth w opts batch : forall k m j,
  nth_error (jobsFrom w opts k batch) m = Some j ->
  job_batchIndex j = (k + m)%nat /\
  nth_error batch m = Some (job_pos j, job_task j) /\
  job_result j = taskResult w opts (job_pos j) (job_task j).
Proof.
  induction batch as [| [pos t] batch IH]; intros k m j H; simpl in H.
  - destruct m; discriminate.
  - destruct m as [| m]; simpl in H.
    + inversion H; subst; simpl. repeat split. lia.
    + destruct (IH _ _ _ H) as (Hb & Hn & Hr). repeat split; simpl; try assumption. lia.
Qed.

Section Windows.

Variables (w : World) (tasks : list Task) (opts : Options).
Hypothesis batchSize_pos : 1 <= batchSize opts.

Local Abbreviation n := (Z.of_nat (List.length tasks)).

Lemma returns_enough fuel : forall i,
  0 <= i -> n - i <= Z.of_nat fuel -> returns tasks opts fuel i = true.
Proof.
  induction fuel as [| fuel IH]; intros i Hi Hf; simpl;
    destruct (Z.ltb_spec i (Z.of_nat (List.length tasks))) as [Hlt | Hge].
  - lia.
  - reflexivity.
  - apply IH; lia.
  - reflexivity.
Qed.

Lemma skipn_indexed_beyond i :
  Z.of_nat (List.length tasks) <= i -> skipn (Z.to_nat i) (indexed tasks) = [].
Proof.
  intros H. apply skipn_all2. rewrite length_indexed. lia.
Qed.

(** The windows are consecutive pieces of the input: together they are what
    is left of it from index [i] on. *)
Lemma windowsOf_cover fuel : forall i,
  0 <= i -> n - i <= Z.of_nat fuel ->
  flat_map windowTasks (windowsOf w tasks opts fuel i) =
    skipn (Z.to_nat i) (indexed tasks).
Proof.
  induction fuel as [| fuel IH]; intros i Hi Hf; simpl;
    destruct (Z.ltb_spec i (Z.of_nat (List.length tasks))) as [Hlt | Hge].
  - lia.
  - simpl. now rewrite skipn_indexed_beyond.
  - simpl. unfold windowTasks at 1. simpl. rewrite jobsFrom_tasks.
    rewrite IH by lia.
    rewrite slice_window by (rewrite ?length_indexed; lia).
    replace (Z.to_nat (i + batchSize opts))
      with (Z.to_nat (batchSize opts) + Z.to_nat i)%nat by lia.
    rewrite <- skipn_skipn. apply firstn_skipn.
  - simpl. now rewrite skipn_indexed_beyond.
Qed.

(** No window is empty and none has more than [batchSize] tasks. *)
Lemma windowsOf_size fuel : forall i,
  0 <= i ->
  Forall (fun win => 1 <= Z.of_nat (List.length (snd win)) <= batchSize opts)
    (windowsOf w tasks opts fuel i).
Proof.
  induction fuel as [| fuel IH]; intros i Hi; simpl;
    destruct (Z.ltb_spec i (Z.of_nat (List.length tasks))) as [Hlt | Hge].
  - constructor.
  - constructor.
  - constructor; [| apply IH; lia].
    simpl. rewrite jobsFrom_length.
    rewrite slice_window by (rewrite ?length_indexed; lia).
    rewrite length_firstn, length_skipn, length_indexed. lia.
  - constructor.
Qed.

(** Every window of a run with [batchSize >= 1] holds jobs of the input. *)
Lemma windowsOf_jobs fuel : forall i,
  0 <= i -> Forall (jobsOfInput w tasks opts) (windowsOf w tasks opts fuel i).
Proof.
  induction fuel as [| fuel IH]; intros i Hi; simpl;
    destruct (Z.ltb_spec i (Z.of_nat (List.length tasks))) as [Hlt | Hge].
  - constructor.
  - constructor.
  - constructor; [| apply IH; lia].
    split; simpl; [assumption |]. intros m j Hj.
    apply jobsFrom_nth in Hj. destruct Hj as (Hb & Hn & Hr).
    rewrite slice_window in Hn by (rewrite ?length_indexed; lia).
    assert (Hin : nth_error (indexed tasks) (Z.to_nat i + m)
                  = Some (job_pos j, job_task j)).
    { rewrite <- nth_error_skipn. rewrite nth_error_firstn in Hn.
      destruct (m <? Z.to_nat (batchSize opts))%nat; [exact Hn | discriminate]. }
    unfold indexed in Hin.
    destruct (nth_error tasks (Z.to_nat i + m)) as [t |] eqn:Ht.
    + rewrite (nth_error_combine_seq tasks 0 _ t Ht) in Hin.
      injection Hin as Hp Hk. simpl in Hp.
      split; [lia |]. split; [lia |]. split; [| exact Hr].
      rewrite <- Hp, <- Hk. exact Ht.
    + apply nth_error_None in Ht.
      rewrite (proj2 (nth_error_None _ _)) in Hin; [discriminate |].
      rewrite length_combine, length_seq. lia.
  - constructor.
Qed.

End Windows.

(** ** Traces *)

Lemma running_app tr1 tr2 : running (tr1 ++ tr2) = running tr1 + running tr2.
Proof.
  induction tr1 as [| [pos t | pos r | c tot t r] tr1 IH]; simpl; lia.
Qed.

Lemma dispatched_app tr1 tr2 : dispatched (tr1 ++ tr2) = dispatched tr1 ++ dispatched tr2.
Proof.
  induction tr1 as [| [pos t | pos r | c tot t r] tr1 IH]; simpl;
    rewrite ?IH; reflexivity.
Qed.

Lemma progressValues_app tr1 tr2 :
  progressValues (tr1 ++ tr2) = progressValues tr1 ++ progressValues tr2.
Proof.
  induction tr1 as [| [pos t | pos r | c tot t r] tr1 IH]; simpl;
    rewrite ?IH; reflexivity.
Qed.

(** Calls in flight never exceed calls issued. *)
Lemma running_le_dispatched tr : running tr <= Z.of_nat (List.length (dispatched tr)).
Proof.
  induction tr as [| [pos t | pos r | c tot t r] tr IH]; simpl; lia.
Qed.

(** The settle order is a rearrangement of the window. *)
Lemma insertByLatency_perm w j l : Permutation (insertByLatency w j l) (j :: l).
Proof.
  induction l as [| j' l IH]; simpl; [apply Permutation_refl |].
  destruct (latency w (job_pos j) <=? latency w (job_pos j'))%nat.
  - apply Permutation_refl.
  - eapply perm_trans; [apply perm_skip, IH | apply perm_swap].
Qed.

Lemma settleOrder_perm w jobs : Permutation (settleOrder w jobs) jobs.
Proof.
  induction jobs as [| j jobs IH]; simpl; [constructor |].
  eapply perm_trans; [apply insertByLatency_perm | now apply perm_skip].
Qed.

Lemma settleOrder_length w jobs : List.length (settleOrder w jobs) = List.length jobs.
Proof. apply Permutation_length, settleOrder_perm. Qed.

Lemma settleOrder_singleton w j : settleOrder w [j] = [j].
Proof. reflexivity. Qed.

(** Settling: one promise resolved per job, no call issued. *)
Lemma running_settled opts i total js :
  running (flat_map (settleEvents opts i total) js) = - Z.of_nat (List.length js).
Proof.
  induction js as [| j js IH]; [reflexivity |].
  cbn [flat_map List.length]. rewrite running_app, IH, Nat2Z.inj_succ.
  unfold settleEvents. destruct (onProgress opts); cbn [running]; lia.
Qed.

Lemma dispatched_settled opts i total js :
  dispatched (flat_map (settleEvents opts i total) js) = [].
Proof.
  induction js as [| j js IH]; [reflexivity |].
  cbn [flat_map]. rewrite dispatched_app, IH.
  unfold settleEvents. destruct (onProgress opts); reflexivity.
Qed.

Lemma dispatched_dispatch jobs :
  dispatched (map (fun j => EvDispatch (job_pos j) (job_task j)) jobs) = map job_pos jobs.
Proof.
  induction jobs as [| j jobs IH]; simpl; [reflexivity | now rewrite IH].
Qed.

Lemma running_dispatch jobs :
  running (map (fun j => EvDispatch (job_pos j) (job_task j)) jobs)
  = Z.of_nat (List.length jobs).
Proof.
  induction jobs as [| j jobs IH]; simpl; [reflexivity | lia].
Qed.

(** A window leaves nothing in flight, and issues one call per job. *)
Lemma running_window w opts i total jobs : running (windowEvents w opts i total jobs) = 0.
Proof.
  unfold windowEvents.
  rewrite running_app, running_dispatch, running_settled, settleOrder_length. lia.
Qed.

Lemma dispatched_window w opts i total jobs :
  dispatched (windowEvents w opts i total jobs) = map job_pos jobs.
Proof.
  unfold windowEvents.
  now rewrite dispatched_app, dispatched_dispatch, dispatched_settled, app_nil_r.
Qed.

(** At any moment of a window, at most its jobs are in flight. *)
Lemma running_window_prefix w opts i total jobs pre post :
  windowEvents w opts i total jobs = pre ++ post ->
  running pre <= Z.of_nat (List.length jobs).
Proof.
  intros H.
  pose proof (running_le_dispatched pre) as Hle.
  pose proof (f_equal dispatched H) as Hd.
  rewrite dispatched_window, dispatched_app in Hd.
  apply (f_equal (@List.length nat)) in Hd.
  rewrite length_map, length_app in Hd. lia.
Qed.

(** Windows in sequence: the bound of each window is the bound of the run. *)
Lemma running_windows_prefix w tasks opts (bound : Z) ws :
  0 <= bound ->
  Forall (fun win => Z.of_nat (List.length (snd win)) <= bound) ws ->
  forall pre post,
    flat_map (eventsOfWindow w tasks opts) ws = pre ++ post ->
    running pre <= bound.
Proof.
  intros Hb. induction ws as [| win ws IH]; intros Hall pre post H.
  - simpl in H. symmetry in H. apply app_eq_nil in H. destruct H as [-> _].
    simpl. lia.
  - inversion Hall as [| ? ? Hwin Hws]; subst.
    cbn [flat_map] in H. apply app_eq_app in H.
    destruct H as [l [[Hw Hpost] | [Hpre Hrest]]].
    + unfold eventsOfWindow in Hw.
      pose proof (running_window_prefix _ _ _ _ _ _ _ Hw). lia.
    + subst pre. rewrite running_app. unfold eventsOfWindow at 1.
      rewrite running_window. simpl.
      apply (IH Hws l post). exact Hrest.
Qed.

Lemma settled_app tr1 tr2 : settled (tr1 ++ tr2) = settled tr1 ++ settled tr2.
Proof.
  induction tr1 as [| [pos t | pos r | c tot t r] tr1 IH]; simpl;
    rewrite ?IH; reflexivity.
Qed.

Lemma settled_settleEvents opts i total js :
  settled (flat_map (settleEvents opts i total) js) = map job_pos js.
Proof.
  induction js as [| j js IH]; [reflexivity |].
  cbn [flat_map map]. rewrite settled_app, IH.
  unfold settleEvents. destruct (onProgress opts); reflexivity.
Qed.

(** ** Runs with a valid batch size *)

Section ValidBatchSize.

Variables (w : World) (tasks : list Task) (opts : Options) (fuel : nat).
Hypothesis batchSize_pos : 1 <= batchSize opts.
Hypothesis enough_fuel : (List.length tasks <= fuel)%nat.

Lemma windowsOf_results f : forall i,
  flat_map (fun win => map job_result (snd win)) (windowsOf w tasks opts f i) =
    map (fun pt => taskResult w opts (fst pt) (snd pt))
      (flat_map windowTasks (windowsOf w tasks opts f i)).
Proof.
  induction f as [| f IH]; intros i; simpl;
    destruct (i <? Z.of_nat (List.length tasks)); try reflexivity.
  cbn [flat_map]. rewrite map_app, IH. f_equal.
  unfold windowTasks. simpl. now rewrite jobsFrom_tasks, jobsFrom_results.
Qed.

(** With [batchSize >= 1] the loop returns, with the results in input order
    and the trace of its windows. *)
Lemma generateBatch_returns :
  generateBatch w tasks opts fuel =
    Done (resultsInOrder w tasks opts)
      (flat_map (eventsOfWindow w tasks opts) (windowsOf w tasks opts fuel 0)).
Proof.
  unfold generateBatch. rewrite generateBatch_loop_windows. cbv zeta.
  rewrite returns_enough by (assumption || lia).
  rewrite windowsOf_results, windowsOf_cover by (assumption || lia).
  reflexivity.
Qed.

Lemma resultsInOrder_length :
  List.length (resultsInOrder w tasks opts) = List.length tasks.
Proof. unfold resultsInOrder. now rewrite length_map, length_indexed. Qed.

Lemma resultsInOrder_nth i t :
  nth_error tasks i = Some t ->
  nth_error (resultsInOrder w tasks opts) i = Some (taskResult w opts i t).
Proof.
  intros H. unfold resultsInOrder.
  now rewrite nth_error_map, (nth_error_indexed tasks i t H).
Qed.

(** Every task of the input has its provider call issued. *)
Lemma every_task_dispatched i t :
  nth_error tasks i = Some t ->
  In (EvDispatch i t)
    (flat_map (eventsOfWindow w tasks opts) (windowsOf w tasks opts fuel 0)).
Proof.
  intros H.
  assert (Hin : In (i, t) (flat_map windowTasks (windowsOf w tasks opts fuel 0))).
  { rewrite windowsOf_cover by (assumption || lia).
    simpl. eapply nth_error_In, nth_error_indexed, H. }
  apply in_flat_map in Hin. destruct Hin as (win & Hwin & Hit).
  apply in_flat_map. exists win. split; [exact Hwin |].
  unfold eventsOfWindow, windowEvents. apply in_or_app. left.
  unfold windowTasks in Hit. apply in_map_iff in Hit.
  destruct Hit as (j & Hj & Hin). apply in_map_iff. exists j.
  injection Hj as -> ->. now split.
Qed.

End ValidBatchSize.

Lemma taskResult_withOutcome w opts k o j t :
  j <> k -> taskResult (withOutcome w k o) opts j t = taskResult w opts j t.
Proof.
  intros Hjk. unfold taskResult.
  replace (provider (withOutcome w k o) j t) with (provider w j t).
  - reflexivity.
  - cbn [provider withOutcome]. now rewrite (proj2 (Nat.eqb_neq j k) Hjk).
Qed.

Lemma taskResult_withLatency w lat opts j t :
  taskResult (withLatency w lat) opts j t = taskResult w opts j t.
Proof. reflexivity. Qed.

Lemma resultsInOrder_withLatency w lat tasks opts :
  resultsInOrder (withLatency w lat) tasks opts = resultsInOrder w tasks opts.
Proof. reflexivity. Qed.

(** C1 - failure isolation.  With a batch size of at least 1, when the
    provider call of task [k] fails (it rejects, or it resolves and the
    [try] block throws on the response), [generateBatch] still returns one
    result per task; the result of task [k] is the failure object carrying
    the error's message; the provider call of every task is issued and every
    result is the one of its own task; and the results of the other tasks do
    not depend on how the call of task [k] settles. *)
Theorem generateBatch_failure_isolation
  (w : World) (tasks : list Task) (opts : Options) (fuel k : nat) (tk : Task) (e : exn) :
  1 <= batchSize opts ->
  (List.length tasks <= fuel)%nat ->
  nth_error tasks k = Some tk ->
  (provider w k tk = Rejected e \/
   exists response,
     provider w k tk = Resolved response /\
     generateSingleImage_try w tk (taskOutputDir opts tk) (generationId opts)
       (Resolved response) = Throw e) ->
  exists results trace,
    generateBatch w tasks opts fuel = Done results trace /\
    List.length results = List.length tasks /\
    nth_error results k =
      Some (Failure {| ko_model := model tk; ko_prompt := prompt tk;
                       error := message e; ko_generationId := generationId opts |}) /\
    (forall j tj, nth_error tasks j = Some tj ->
       In (EvDispatch j tj) trace /\
       nth_error results j =
         Some (generateSingleImage w tj (taskOutputDir opts tj) (generationId opts)
                 (provider w j tj))) /\
    (forall o, exists results' trace',
       generateBatch (withOutcome w k o) tasks opts fuel = Done results' trace' /\
       forall j, j <> k -> nth_error results' j = nth_error results j).
Proof.
  intros Hb Hf Hk Hfail.
  exists (resultsInOrder w tasks opts),
    (flat_map (eventsOfWindow w tasks opts) (windowsOf w tasks opts fuel 0)).
  split; [now apply generateBatch_returns |].
  split; [apply resultsInOrder_length |].
  split.
  - rewrite (resultsInOrder_nth w tasks opts k tk Hk). f_equal.
    unfold taskResult. apply generateSingleImage_catch.
    destruct Hfail as [Hrej | (response & Hres & Hthrow)].
    + now rewrite Hrej.
    + now rewrite Hres.
  - split.
    + intros j tj Hj. split.
      * now apply every_task_dispatched.
      * exact (resultsInOrder_nth w tasks opts j tj Hj).
    + intros o. exists (resultsInOrder (withOutcome w k o) tasks opts).
      eexists. split; [now apply generateBatch_returns |].
      intros j Hjk.
      destruct (nth_error tasks j) as [tj |] eqn:Hj.
      * rewrite (resultsInOrder_nth _ tasks opts j tj Hj).
        rewrite (resultsInOrder_nth w tasks opts j tj Hj).
        now rewrite taskResult_withOutcome.
      * apply nth_error_None in Hj.
        rewrite !(proj2 (nth_error_None _ _)); [reflexivity | |];
          rewrite resultsInOrder_length; assumption.
Qed.

Lemma generateBatch_failure_isolation_witness :
  exists results trace,
    generateBatch sampleWorld sampleTasks (sampleOptions 2) 3 = Done results trace /\
    List.length results = 3%nat /\
    nth_error results 1 =
      Some (Failure {| ko_model := "fal-ai/flux/dev"; ko_prompt := "a dog";
                       error := "Request timed out"; ko_generationId := None |}).
Proof.
  destruct (generateBatch_failure_isolation sampleWorld sampleTasks (sampleOptions 2)
              3 1 (sampleTask "a dog") (Error "Request timed out"))
    as (results & trace & Hrun & Hlen & Hk & _).
  - simpl. lia.
  - simpl. lia.
  - reflexivity.
  - left. reflexivity.
  - exists results, trace. repeat split; assumption.
Defined.

(** C2 - order preservation.  With a batch size of at least 1,
    [generateBatch] returns a list as long as the input whose element [i] is
    the result object of task [i], and it returns this same list whatever
    the latencies, that is whatever the order in which the promises of a
    window settle. *)
Theorem generateBatch_order_preserved
  (w : World) (tasks : list Task) (opts : Options) (fuel : nat) :
  1 <= batchSize opts ->
  (List.length tasks <= fuel)%nat ->
  exists results,
    List.length results = List.length tasks /\
    (forall i t, nth_error tasks i = Some t ->
       nth_error results i =
         Some (generateSingleImage w t (taskOutputDir opts t) (generationId opts)
                 (provider w i t))) /\
    (exists trace, generateBatch w tasks opts fuel = Done results trace) /\
    (forall lat, exists trace,
       generateBatch (withLatency w lat) tasks opts fuel = Done results trace).
Proof.
  intros Hb Hf. exists (resultsInOrder w tasks opts).
  split; [apply resultsInOrder_length |].
  split; [intros i t Hi; exact (resultsInOrder_nth w tasks opts i t Hi) |].
  split.
  - eexists. now apply generateBatch_returns.
  - intros lat. eexists.
    rewrite <- (resultsInOrder_withLatency w lat tasks opts).
    now apply generateBatch_returns.
Qed.

Lemma generateBatch_order_preserved_witness :
  exists results,
    List.length results = 3%nat /\
    (exists trace,
       generateBatch sampleWorld sampleTasks (sampleOptions 2) 3 = Done results trace) /\
    (exists trace,
       generateBatch (withLatency sampleWorld (fun _ => 0%nat)) sampleTasks
         (sampleOptions 2) 3 = Done results trace).
Proof.
  destruct (generateBatch_order_preserved sampleWorld sampleTasks (sampleOptions 2) 3)
    as (results & Hlen & _ & Hrun & Hlat).
  - simpl. lia.
  - simpl. lia.
  - exists results. split; [exact Hlen |]. split; [exact Hrun | apply Hlat].
Defined.

(** Every window of a run: all its calls are issued first, and only then do
    its promises settle, each job once. *)
Lemma eventsOfWindow_shape w tasks opts win :
  exists settles,
    eventsOfWindow w tasks opts win =
      map (fun j => EvDispatch (job_pos j) (job_task j)) (snd win) ++ settles /\
    dispatched settles = [] /\
    Permutation (settled settles) (map job_pos (snd win)).
Proof.
  eexists. split; [reflexivity |]. split.
  - apply dispatched_settled.
  - rewrite settled_settleEvents. apply Permutation_map, settleOrder_perm.
Qed.

(** Bounded concurrency by sequential windows, when the batch size is an
    integer.  With an integer batch size of at least 1, the run of
    [generateBatch] is a sequence of windows that are
    consecutive pieces of the input, none empty and none longer than
    [batchSize]; in each window every call is issued before any promise of
    it settles, and all its promises settle before the next window begins;
    so at every moment of the run at most [batchSize] calls are in flight. *)
Theorem generateBatch_sequential_windows
  (w : World) (tasks : list Task) (opts : Options) (fuel : nat) :
  1 <= batchSize opts ->
  (List.length tasks <= fuel)%nat ->
  exists results trace windows,
    generateBatch w tasks opts fuel = Done results trace /\
    flat_map windowTasks windows = indexed tasks /\
    Forall (fun win => 1 <= Z.of_nat (List.length (snd win)) <= batchSize opts)
      windows /\
    trace = flat_map (eventsOfWindow w tasks opts) windows /\
    Forall (fun win =>
              exists settles,
                eventsOfWindow w tasks opts win =
                  map (fun j => EvDispatch (job_pos j) (job_task j)) (snd win)
                    ++ settles /\
                dispatched settles = [] /\
                Permutation (settled settles) (map job_pos (snd win)))
      windows /\
    (forall pre post, trace = pre ++ post -> running pre <= batchSize opts).
Proof.
  intros Hb Hf.
  exists (resultsInOrder w tasks opts),
    (flat_map (eventsOfWindow w tasks opts) (windowsOf w tasks opts fuel 0)),
    (windowsOf w tasks opts fuel 0).
  split; [now apply generateBatch_returns |].
  split; [rewrite windowsOf_cover by (assumption || lia); reflexivity |].
  split; [apply windowsOf_size; [assumption | lia] |].
  split; [reflexivity |].
  split.
  - apply Forall_forall. intros win _. apply eventsOfWindow_shape.
  - intros pre post H.
    refine (running_windows_prefix w tasks opts (batchSize opts)
              (windowsOf w tasks opts fuel 0) _ _ pre post H); [lia |].
    eapply Forall_impl; [| apply windowsOf_size; [assumption | lia]].
    intros win Hwin; simpl in Hwin. lia.
Qed.

Lemma generateBatch_sequential_windows_witness :
  exists results trace,
    generateBatch sampleWorld sampleTasks (sampleOptions 2) 3 = Done results trace /\
    (forall pre post, trace = pre ++ post -> running pre <= 2).
Proof.
  destruct (generateBatch_sequential_windows sampleWorld sampleTasks (sampleOptions 2) 3)
    as (results & trace & windows & Hrun & _ & _ & _ & _ & Hbound).
  - simpl. lia.
  - simpl. lia.
  - exists results, trace. split; [exact Hrun | exact Hbound].
Defined.

(** ** Progress reports *)

Lemma progressValues_dispatch jobs :
  progressValues (map (fun j => EvDispatch (job_pos j) (job_task j)) jobs) = [].
Proof.
  induction jobs as [| j jobs IH]; simpl; [reflexivity | exact IH].
Qed.

Lemma progressValues_settle opts i total js :
  progressValues (flat_map (settleEvents opts i total) js) =
    if onProgress opts
    then map (fun j => i + Z.of_nat (job_batchIndex j) + 1) js
    else [].
Proof.
  induction js as [| j js IH]; cbn [flat_map map].
  - now destruct (onProgress opts).
  - rewrite progressValues_app, IH. unfold settleEvents.
    destruct (onProgress opts); reflexivity.
Qed.

(** In a window of jobs of the input, the value reported for a job is its
    position in the input plus one. *)
Lemma progressValues_window w tasks opts win :
  jobsOfInput w tasks opts win ->
  onProgress opts = true ->
  progressValues (eventsOfWindow w tasks opts win) =
    map (fun j => Z.of_nat (job_pos j) + 1) (settleOrder w (snd win)).
Proof.
  intros [Hi Hjobs] Hon. unfold eventsOfWindow, windowEvents.
  rewrite progressValues_app, progressValues_dispatch, progressValues_settle, Hon.
  simpl. apply map_ext_in. intros j Hj.
  apply (Permutation_in _ (settleOrder_perm w (snd win))) in Hj.
  apply In_nth_error in Hj. destruct Hj as [m Hm].
  destruct (Hjobs m j Hm) as (Hb & Hp & _). lia.
Qed.

Lemma progressValues_windows w tasks opts ws :
  Forall (jobsOfInput w tasks opts) ws ->
  onProgress opts = true ->
  Permutation
    (progressValues (flat_map (eventsOfWindow w tasks opts) ws))
    (map (fun pt => Z.of_nat (fst pt) + 1) (flat_map windowTasks ws)).
Proof.
  intros Hall Hon. induction Hall as [| win ws Hwin Hws IH]; [constructor |].
  cbn [flat_map]. rewrite progressValues_app, map_app.
  apply Permutation_app; [| exact IH].
  rewrite (progressValues_window w tasks opts win Hwin Hon).
  unfold windowTasks. rewrite map_map. simpl.
  apply Permutation_map, settleOrder_perm.
Qed.

Lemma map_fst_indexed tasks : map fst (indexed tasks) = seq 0 (List.length tasks).
Proof.
  unfold indexed. generalize 0%nat.
  induction tasks as [| t ts IH]; intros s; simpl; [reflexivity | now rewrite IH].
Qed.

(** Windows of one task settle in the only possible order. *)
Lemma progressValues_single_windows w tasks opts ws :
  Forall (jobsOfInput w tasks opts) ws ->
  Forall (fun win => Z.of_nat (List.length (snd win)) <= 1) ws ->
  onProgress opts = true ->
  progressValues (flat_map (eventsOfWindow w tasks opts) ws) =
    map (fun pt => Z.of_nat (fst pt) + 1) (flat_map windowTasks ws).
Proof.
  intros Hall Hone Hon. induction Hall as [| win ws Hwin Hws IH]; [reflexivity |].
  inversion Hone as [| ? ? Hlen Hone']; subst.
  cbn [flat_map]. rewrite progressValues_app, map_app, (IH Hone'). f_equal.
  rewrite (progressValues_window w tasks opts win Hwin Hon).
  unfold windowTasks. rewrite map_map. simpl.
  destruct (snd win) as [| j [| j' js]]; simpl in *; try reflexivity. lia.
Qed.

(** With the default batch size of 1 and a callback, the values given to
    [onProgress] are 1, 2, ..., N in this order. *)
Theorem generateBatch_progress_sequential
  (w : World) (tasks : list Task) (opts : Options) (fuel : nat) :
  batchSize opts = 1 ->
  (List.length tasks <= fuel)%nat ->
  onProgress opts = true ->
  exists results trace,
    generateBatch w tasks opts fuel = Done results trace /\
    progressValues trace = map (fun k => Z.of_nat k + 1) (seq 0 (List.length tasks)).
Proof.
  intros Hb Hf Hon. do 2 eexists.
  split; [apply generateBatch_returns; [lia | assumption] |].
  rewrite progressValues_single_windows.
  - rewrite windowsOf_cover by lia. simpl.
    now rewrite <- map_fst_indexed, map_map.
  - apply windowsOf_jobs; lia.
  - eapply Forall_impl; [| apply (windowsOf_size w tasks opts); lia].
    intros win Hwin; simpl in Hwin. lia.
  - exact Hon.
Qed.

Lemma generateBatch_progress_sequential_witness :
  exists results trace,
    generateBatch sampleWorld sampleTasks (sampleOptions 1) 3 = Done results trace /\
    progressValues trace = [1; 2; 3].
Proof.
  apply (generateBatch_progress_sequential sampleWorld sampleTasks (sampleOptions 1) 3).
  - reflexivity.
  - simpl. lia.
  - reflexivity.
Defined.

(** C4 - progress completeness, at an input on which it fails: three tasks
    in windows of two, the second task settling before the first.
    [onProgress] is called three times, with [completed] equal to 2, then 1,
    then 3: the values are the positions of the tasks, not a count of the
    tasks completed, and they do not increase. *)
Theorem generateBatch_progress_not_increasing :
  exists results trace,
    generateBatch sampleWorld sampleTasks (sampleOptions 2) 3 = Done results trace /\
    progressValues trace = [2; 1; 3].
Proof.
  set (run := generateBatch sampleWorld sampleTasks (sampleOptions 2) 3).
  vm_compute in run. subst run. do 2 eexists. split; reflexivity.
Qed.

(** ** An invalid batch size *)

Lemma returns_never tasks opts fuel : forall i,
  batchSize opts < 1 -> i <= 0 -> tasks <> [] ->
  returns tasks opts fuel i = false.
Proof.
  induction fuel as [| fuel IH]; intros i Hb Hi Hne; simpl;
    destruct (Z.ltb_spec i (Z.of_nat (List.length tasks))) as [Hlt | Hge].
  - reflexivity.
  - destruct tasks; [congruence | simpl in Hge; lia].
  - apply IH; [assumption | lia | assumption].
  - destruct tasks; [congruence | simpl in Hge; lia].
Qed.

(** C5 - the guard on the concurrency bound, which the code does not have.
    With a batch size below 1 and at least one task, [generateBatch] raises
    nothing and never returns: however many iterations are observed, the
    loop is still running. *)
Theorem generateBatch_invalid_batchSize_never_returns
  (w : World) (tasks : list Task) (opts : Options) (fuel : nat) :
  batchSize opts < 1 ->
  tasks <> [] ->
  exists trace, generateBatch w tasks opts fuel = Pending trace.
Proof.
  intros Hb Hne. unfold generateBatch. rewrite generateBatch_loop_windows. cbv zeta.
  rewrite returns_never by (assumption || lia). eexists. reflexivity.
Qed.

Lemma generateBatch_invalid_batchSize_never_returns_witness :
  exists trace,
    generateBatch sampleWorld sampleTasks (sampleOptions 0) 1000 = Pending trace.
Proof.
  apply (generateBatch_invalid_batchSize_never_returns sampleWorld sampleTasks
           (sampleOptions 0) 1000).
  - simpl. lia.
  - discriminate.
Defined.

(** With a batch size of -1 and three tasks, the first iteration slices
    [tasks.slice(0, -1)]: the calls of the first two tasks are issued, and
    the loop then runs on without ever returning. *)
Lemma generateBatch_negative_batchSize_dispatches :
  exists trace,
    generateBatch sampleWorld sampleTasks (sampleOptions (-1)) 50 = Pending trace /\
    dispatched trace = [0%nat; 1%nat].
Proof.
  set (run := generateBatch sampleWorld sampleTasks (sampleOptions (-1)) 50).
  vm_compute in run. subst run. eexists. split; reflexivity.
Qed.

(** ** The spending gate *)

(** C6 - spending gate.  With [confirm_spending] true the check lets every
    estimated cost through; with [confirm_spending] false it raises the
    confirmation payload, of type [SPENDING_CONFIRMATION_REQUIRED], exactly
    when the estimated cost is strictly greater than [SPENDING_LIMIT], which
    is 5.0.  The [batch_generate] handler asks for the key first: an error of
    [getApiKey] ends it before the estimate, confirmed or not.  With a key, it
    ends with the confirmation payload exactly when its total estimate is
    above the limit and spending is not confirmed, and with spending
    confirmed it always goes on to [generateBatch]. *)
Theorem checkSpending_gate
  (estimatedCost : float) (w : World) (numeric : value -> float)
  (loaded : Throws (list (ModelConfig float))) (src : KeySources)
  (tasks : list Task) (batch_size : number) (dir now : string) (fuel : nat) :
  SPENDING_LIMIT = 5%float /\
  checkSpending estimatedCost true = None /\
  (checkSpending estimatedCost false =
     Some {| conf_type := "SPENDING_CONFIRMATION_REQUIRED";
             estimated_cost := estimatedCost;
             spending_limit := SPENDING_LIMIT;
             confirmation_needed := true |}
   <-> (SPENDING_LIMIT <? estimatedCost)%float = true) /\
  (checkSpending estimatedCost false = None
   <-> (SPENDING_LIMIT <? estimatedCost)%float = false) /\
  (forall confirmed e,
     getApiKey src = Throw e ->
     batch_generate w numeric loaded src tasks batch_size dir now confirmed fuel
     = KeyRefused e) /\
  (forall key,
     getApiKey src = Return key ->
     exists run,
       batch_generate w numeric loaded src tasks batch_size dir now true fuel
       = Generated run) /\
  ((exists c,
      batch_generate w numeric loaded src tasks batch_size dir now false fuel
      = ConfirmationRequired c)
   <-> (exists key, getApiKey src = Return key) /\
       (SPENDING_LIMIT <? totalEstimatedCost numeric loaded tasks)%float = true).
Proof.
  split; [reflexivity |].
  split.
  { unfold checkSpending. now rewrite andb_false_r. }
  split.
  { unfold checkSpending, requiresSpendingConfirmation.
    destruct (SPENDING_LIMIT <? estimatedCost)%float; simpl;
      split; intros H; (reflexivity || discriminate). }
  split.
  { unfold checkSpending, requiresSpendingConfirmation.
    destruct (SPENDING_LIMIT <? estimatedCost)%float; simpl;
      split; intros H; (reflexivity || discriminate). }
  split.
  { intros confirmed e He. unfold batch_generate. now rewrite He. }
  split.
  { intros key Hk. unfold batch_generate, checkSpending.
    rewrite Hk, andb_false_r. eexists. reflexivity. }
  unfold batch_generate, checkSpending, requiresSpendingConfirmation.
  destruct (getApiKey src) as [key | e].
  - destruct (SPENDING_LIMIT <? totalEstimatedCost numeric loaded tasks)%float;
      simpl; split.
    + intros _. split; [now exists key | reflexivity].
    + intros _. eexists. reflexivity.
    + intros [c H]. discriminate.
    + intros [_ H]. discriminate.
  - split.
    + intros [c H]. discriminate.
    + intros [[key H] _]. discriminate.
Qed.

(** The estimate of scenario C: 6.00 against the limit of 5.00. *)
Lemma checkSpending_six_dollars :
  checkSpending 6%float true = None /\
  checkSpending 6%float false =
    Some {| conf_type := "SPENDING_CONFIRMATION_REQUIRED"; estimated_cost := 6%float;
            spending_limit := 5%float; confirmation_needed := true |} /\
  checkSpending 5%float false = None.
Proof. repeat split. Qed.

(** ** The fallback of cost estimation *)

Lemma calculateCost_unpriced {num : Type} {A : Arith num}
  (models : list (ModelConfig num)) (tasks : list (CostTask num)) :
  Forall (fun t => pricedModel models (ct_model t) = None) tasks ->
  forall acc, fold_left (costStep models) tasks acc = acc.
Proof.
  induction 1 as [| t ts Ht Hts IH]; intros acc; simpl; [reflexivity |].
  unfold costStep at 2. rewrite Ht. apply IH.
Qed.

(** C7 - conservative cost fallback, where the two estimators part.  For
    tasks whose model has no priced entry in the catalog,
    [calculateGenerationCost] charges the conservative 0.05 per image, while
    [calculateCost] skips the task: its total stays 0 and its breakdown
    empty. *)
Theorem calculateCost_skips_unpriced_tasks
  (models : list (ModelConfig float)) (tasks : list (CostTask float)) :
  Forall (fun t => pricedModel models (ct_model t) = None) tasks ->
  calculateCost tasks models = {| est_totalCost := 0%float; breakdown := [] |} /\
  Forall (fun t => forall numImages,
            calculateGenerationCost (Return models) (ct_model t) numImages
            = (0.05 * numImages)%float) tasks.
Proof.
  intros H. split.
  - unfold calculateCost. now apply calculateCost_unpriced.
  - eapply Forall_impl; [| exact H]. intros t Ht numImages.
    unfold calculateGenerationCost. now rewrite Ht.
Qed.

Lemma calculateCost_skips_unpriced_tasks_witness :
  calculateCost [unknownModelTask] sampleCatalog
    = {| est_totalCost := 0%float; breakdown := [] |} /\
  calculateGenerationCost (Return sampleCatalog) "acme/unlisted-model" 1%float
    = 0.05%float.
Proof.
  destruct (calculateCost_skips_unpriced_tasks sampleCatalog [unknownModelTask])
    as [Hcost Hgen].
  - repeat constructor.
  - split; [exact Hcost |].
    inversion Hgen as [| t ts Ht _]; subst. exact (Ht 1%float).
Defined.

(** ** The priority chain of the response shapes *)


(** [a && a.k] never throws: only a truthy value is read. *)
Lemma andProp_total a k : exists v, andProp a k = Return v.
Proof.
  unfold andProp. destruct a; simpl; eauto.
  - destruct b; eauto.
  - destruct (truthy_num x); eauto.
  - destruct (negb (s =? "")%string); eauto.
Qed.




(** ** Comparisons of binary64 numbers *)

Lemma SFcompare_antisym x y :
  SFcompare y x = option_map CompOpp (SFcompare x y).
Proof.
  destruct x as [sx | sx | | sx mx ex], y as [sy | sy | | sy my ey]; simpl;
    try reflexivity;
    try (destruct sx; reflexivity);
    try (destruct sy; reflexivity);
    try (destruct sx, sy; reflexivity).
  destruct sx, sy; try reflexivity;
    rewrite (Z.compare_antisym ex ey); destruct (ex ?= ey)%Z; simpl;
    try reflexivity;
    change (Pos.compare_cont Eq my mx) with (Pos.compare my mx);
    change (Pos.compare_cont Eq mx my) with (Pos.compare mx my);
    rewrite (Pos.compare_antisym mx my); destruct (mx ?= my)%positive; reflexivity.
Qed.

Lemma SFcompare_refl x : x <> S754_nan -> SFcompare x x = Some Eq.
Proof.
  destruct x as [s | s | | s m e]; simpl; intros H;
    try reflexivity; try congruence; try (destruct s; reflexivity).
  change (Pos.compare_cont Eq m m) with (Pos.compare m m).
  destruct s; rewrite Z.compare_refl, Pos.compare_refl; reflexivity.
Qed.

(** [a < b] excludes [b <= a]. *)
Lemma float_ltb_not_leb (a b : float) :
  (a <? b)%float = true -> (b <=? a)%float = false.
Proof.
  rewrite ltb_spec, leb_spec. unfold SFltb, SFleb.
  rewrite (SFcompare_antisym (Prim2SF a) (Prim2SF b)).
  destruct (SFcompare (Prim2SF a) (Prim2SF b)) as [[| |] |]; simpl; congruence.
Qed.

(** [a < b] excludes [b < a]. *)
Lemma float_ltb_asym (a b : float) :
  (a <? b)%float = true -> (b <? a)%float = false.
Proof.
  rewrite !ltb_spec. unfold SFltb.
  rewrite (SFcompare_antisym (Prim2SF a) (Prim2SF b)).
  destruct (SFcompare (Prim2SF a) (Prim2SF b)) as [[| |] |]; simpl; congruence.
Qed.

(** A number above zero is truthy. *)
Lemma float_pos_truthy (c : float) : (0 <? c)%float = true -> truthy_num c = true.
Proof.
  intros H. unfold truthy_num, PrimFloat.is_zero, PrimFloat.is_nan.
  rewrite ltb_spec in H. rewrite !eqb_spec.
  change (Prim2SF 0) with (S754_zero false) in H.
  change (Prim2SF PrimFloat.zero) with (S754_zero false).
  unfold SFltb in H. unfold SFeqb.
  assert (Hn : Prim2SF c <> S754_nan).
  { intros E. rewrite E in H. discriminate. }
  rewrite (SFcompare_refl _ Hn).
  rewrite (SFcompare_antisym (S754_zero false) (Prim2SF c)).
  destruct (SFcompare (S754_zero false) (Prim2SF c)) as [[| |] |]; try discriminate.
  reflexivity.
Qed.

(** ** Descriptor validation *)

Lemma paramErrors_ordered name p :
  (param_type p = VStr "number" ->
   forall lo hi, param_min p = Some lo -> param_max p = Some hi ->
     (lo <? hi)%float = true) ->
  paramErrors name p = [].
Proof.
  intros H. unfold paramErrors.
  destruct (strictEqStr (param_type p) "number") eqn:Ty; [| reflexivity].
  destruct (param_min p) as [lo |] eqn:Lo, (param_max p) as [hi |] eqn:Hi;
    try reflexivity.
  rewrite (float_ltb_not_leb lo hi); [reflexivity |].
  apply H; [| reflexivity | reflexivity].
  destruct (param_type p); try discriminate.
  simpl in Ty. apply String.eqb_eq in Ty. now subst.
Qed.

Lemma checkParameters_none (params : list (string * ParamDef)) :
  (forall name def, In (name, def) params ->
     exists p, def = ParamObject p /\
       (param_type p = VStr "number" ->
        forall lo hi, param_min p = Some lo -> param_max p = Some hi ->
          (lo <? hi)%float = true)) ->
  exists warns, checkParameters params = Return ([], warns).
Proof.
  induction params as [| [name def] params IH]; intros H.
  - now exists [].
  - destruct (H name def) as (p & -> & Hp); [now left |].
    destruct IH as [warns Hw]; [intros n d Hin; apply (H n d); now right |].
    cbn [checkParameters checkParameter bind fst snd]. rewrite Hw. cbn [bind fst snd].
    rewrite (paramErrors_ordered name p Hp). eexists. reflexivity.
Qed.

(** Descriptor validation, as far as the code agrees with it.  A
    configuration whose [id] is a non-empty string, whose [name] and [type]
    are truthy, whose [costPerImage] is a number above zero, and whose
    parameters are objects in which a numeric one with both bounds has
    [min < max], is valid, with no error (warnings may remain). *)
Lemma validateModelConfig_accepts
  (numeric : value -> float) (cfg : RawModelConfig) (id : string) (cost : float) :
  raw_id cfg = VStr id -> id <> "" ->
  truthy (raw_name cfg) = true ->
  truthy (raw_type cfg) = true ->
  raw_costPerImage cfg = VNum cost -> (0 <? cost)%float = true ->
  (forall params name def,
     raw_parameters cfg = Some params -> In (name, def) params ->
     exists p, def = ParamObject p /\
       (param_type p = VStr "number" ->
        forall lo hi, param_min p = Some lo -> param_max p = Some hi ->
          (lo <? hi)%float = true)) ->
  exists v,
    validateModelConfig numeric cfg = Return v /\ valid v = true /\ errors v = [].
Proof.
  intros Hid Hne Hname Htype Hcost Hpos Hparams.
  assert (Tid : truthy (raw_id cfg) = true).
  { rewrite Hid. simpl. destruct (String.eqb_spec id ""); [contradiction | reflexivity]. }
  assert (Hreq : requiredErrors cfg = []).
  { unfold requiredErrors. cbn [flat_map fst snd].
    now rewrite Tid, Hname, Htype, Hcost, (float_pos_truthy cost Hpos : truthy (VNum cost) = true). }
  assert (Hce : costErrors numeric (raw_costPerImage cfg) = []).
  { unfold costErrors. rewrite Hcost. cbn [isNumber toNumber negb].
    now rewrite andb_false_r, (float_ltb_asym _ _ Hpos), andb_false_r. }
  assert (Hpe : exists warns,
            checkParameters
              match raw_parameters cfg with Some ps => ps | None => [] end
            = Return ([], warns)).
  { destruct (raw_parameters cfg) as [ps |] eqn:Hps; [| now exists []].
    apply checkParameters_none. intros name def. now apply Hparams. }
  destruct Hpe as [warns Hpe].
  unfold validateModelConfig. rewrite Tid, Hid. cbn [includesSlash bind].
  rewrite Hpe. cbn [bind fst snd]. rewrite Hreq, Hce.
  eexists. split; [reflexivity |]. split; reflexivity.
Qed.

Lemma validateModelConfig_accepts_priced :
  exists v,
    validateModelConfig toNaN pricedModelConfig = Return v /\
    valid v = true /\ errors v = [].
Proof.
  apply (validateModelConfig_accepts toNaN pricedModelConfig "fal-ai/flux/dev"
           0.025%float).
  - reflexivity.
  - discriminate.
  - reflexivity.
  - reflexivity.
  - reflexivity.
  - reflexivity.
  - intros params name def [= <-] [[= <- <-] | [[= <- <-] | []]];
      (eexists; split; [reflexivity |]); simpl;
      intros Ht lo hi [= <-] [= <-]; try discriminate. reflexivity.
Defined.

(** The same descriptor with a price of 0: every required field is present
    and the cost is a number that is not negative, yet it is rejected,
    [costPerImage] being reported missing. *)
Lemma validateModelConfig_rejects_free_model :
  validateModelConfig toNaN freeModelConfig =
    Return {| valid := false;
              errors := ["Missing required field: costPerImage"];
              warnings := [] |} /\
  isNumber (raw_costPerImage freeModelConfig) = true /\
  (toNumber toNaN (raw_costPerImage freeModelConfig) <? 0)%float = false.
Proof. repeat split. Qed.

Lemma checkParameters_objects (params : list (string * ParamDef)) :
  (forall name def, In (name, def) params -> exists p, def = ParamObject p) ->
  exists checked, checkParameters params = Return checked.
Proof.
  induction params as [| [name def] params IH]; intros H.
  - now eexists.
  - destruct (H name def) as (p & ->); [now left |].
    destruct IH as [checked Hc]; [intros n d Hin; apply (H n d); now right |].
    cbn [checkParameters checkParameter bind]. rewrite Hc. cbn [bind].
    now eexists.
Qed.

(** C9 - descriptor validation.  The required-field test is a truthiness
    test, [!modelConfig[field]], so a [costPerImage] that is present and
    equal to 0 counts as missing, although it is a number and the test of
    its sign, [costPerImage < 0], draws the line at zero, as the invariant
    of the specification does.  Whatever the other fields are,
    [validateModelConfig] never returns [valid: true] for such a
    configuration: what it returns is not valid and holds the error
    [Missing required field: costPerImage]; and it does return when [id] is
    a string and the parameter definitions are objects. *)
Theorem validateModelConfig_zero_cost_reported_missing
  (numeric : value -> float) (cfg : RawModelConfig) :
  raw_costPerImage cfg = VNum 0%float ->
  isNumber (raw_costPerImage cfg) = true /\
  (toNumber numeric (raw_costPerImage cfg) <? 0)%float = false /\
  (forall v, validateModelConfig numeric cfg = Return v ->
     valid v = false /\ In "Missing required field: costPerImage" (errors v)) /\
  (forall id,
     raw_id cfg = VStr id ->
     (forall params name def,
        raw_parameters cfg = Some params -> In (name, def) params ->
        exists p, def = ParamObject p) ->
     exists v, validateModelConfig numeric cfg = Return v).
Proof.
  intros Hc. split; [now rewrite Hc |]. split; [now rewrite Hc |]. split.
  - intros v H. unfold validateModelConfig in H.
    apply bind_Return_inv in H. destruct H as (idWarning & _ & H).
    apply bind_Return_inv in H. destruct H as (checked & _ & H).
    injection H as <-. cbn [valid errors].
    assert (Hin : In "Missing required field: costPerImage"
                    (requiredErrors cfg ++ costErrors numeric (raw_costPerImage cfg)
                       ++ fst checked)).
    { apply in_or_app. left. unfold requiredErrors. cbn [flat_map fst snd].
      rewrite Hc. change (truthy (VNum 0%float)) with false.
      do 3 (apply in_or_app; right). now left. }
    split; [| exact Hin].
    destruct (requiredErrors cfg ++ costErrors numeric (raw_costPerImage cfg)
                ++ fst checked); [destruct Hin | reflexivity].
  - intros id Hid Hparams.
    assert (Hpe : exists checked,
              checkParameters
                match raw_parameters cfg with Some ps => ps | None => [] end
              = Return checked).
    { destruct (raw_parameters cfg) as [ps |] eqn:Hps; [| now eexists].
      apply checkParameters_objects. intros name def. now apply Hparams. }
    destruct Hpe as [checked Hpe].
    unfold validateModelConfig. rewrite Hid. cbn [includesSlash].
    destruct (truthy (VStr id)); cbn [bind]; rewrite Hpe; cbn [bind]; now eexists.
Qed.

Lemma validateModelConfig_zero_cost_reported_missing_witness :
  exists v,
    validateModelConfig toNaN freeModelConfig = Return v /\
    valid v = false /\
    In "Missing required field: costPerImage" (errors v).
Proof.
  destruct (validateModelConfig_zero_cost_reported_missing toNaN freeModelConfig)
    as (_ & _ & Hv & Hret); [reflexivity |].
  destruct (Hret "acme/free-model") as [v Hr]; [reflexivity | |].
  - intros params name def [=].
  - exists v. split; [exact Hr |]. now apply Hv.
Defined.

(** ** The cost breakdown *)

Section Breakdown.

Context {num : Type} {A : Arith num}.

Lemma sumOf_snoc (l : list num) (x : num) : sumOf (l ++ [x]) = n_add (sumOf l) x.
Proof. unfold sumOf. now rewrite fold_left_app. Qed.

Lemma entryOf_app_absent key k e (b : list (string * BreakdownEntry num)) :
  entryOf key (b ++ [(k, e)]) =
    match entryOf key b with
    | Some x => Some x
    | None => if String.eqb k key then Some e else None
    end.
Proof.
  induction b as [| [k' e'] b IH]; simpl; [reflexivity |].
  destruct (String.eqb k' key); [reflexivity | exact IH].
Qed.

Lemma entryOf_In key e (b : list (string * BreakdownEntry num)) :
  NoDup (map fst b) -> In (key, e) b -> entryOf key b = Some e.
Proof.
  induction b as [| [k' e'] b IH]; simpl; intros Hnd Hin; [contradiction |].
  inversion Hnd as [| ? ? Hnotin Hnd']; subst.
  destruct Hin as [[= -> ->] | Hin].
  - now rewrite String.eqb_refl.
  - destruct (String.eqb_spec k' key) as [-> | _]; [| now apply IH].
    exfalso. apply Hnotin. apply in_map_iff. now exists (key, e).
Qed.

Lemma entryOf_keys key (b : list (string * BreakdownEntry num)) :
  entryOf key b = None -> ~ In key (map fst b).
Proof.
  induction b as [| [k' e'] b IH]; simpl; intros H; [tauto |].
  destruct (String.eqb_spec k' key) as [-> | Hne]; [discriminate |].
  intros [-> | Hin]; [congruence | now apply IH].
Qed.

Lemma updateEntry_keys key f (b : list (string * BreakdownEntry num)) :
  map fst (updateEntry key f b) = map fst b.
Proof.
  induction b as [| [k' e'] b IH]; simpl; [reflexivity |].
  destruct (String.eqb k' key); simpl; [reflexivity | now rewrite IH].
Qed.

Lemma updateEntry_twice key f g (b : list (string * BreakdownEntry num)) :
  updateEntry key g (updateEntry key f b) = updateEntry key (fun e => g (f e)) b.
Proof.
  induction b as [| [k' e'] b IH]; simpl; [reflexivity |].
  destruct (String.eqb k' key) eqn:E; simpl; rewrite E; [reflexivity | now rewrite IH].
Qed.

Lemma updateEntry_app_absent key f e (b : list (string * BreakdownEntry num)) :
  entryOf key b = None ->
  updateEntry key f (b ++ [(key, e)]) = b ++ [(key, f e)].
Proof.
  induction b as [| [k' e'] b IH]; simpl; intros H.
  - now rewrite String.eqb_refl.
  - destruct (String.eqb k' key); [discriminate | now rewrite IH].
Qed.

Lemma entryOf_updateEntry_same key f (b : list (string * BreakdownEntry num)) :
  entryOf key (updateEntry key f b) = option_map f (entryOf key b).
Proof.
  induction b as [| [k' e'] b IH]; simpl; [reflexivity |].
  destruct (String.eqb k' key) eqn:E; simpl; rewrite E; [reflexivity | exact IH].
Qed.

Lemma entryOf_updateEntry_other key k f (b : list (string * BreakdownEntry num)) :
  k <> key -> entryOf k (updateEntry key f b) = entryOf k b.
Proof.
  intros Hne. induction b as [| [k' e'] b IH]; simpl; [reflexivity |].
  destruct (String.eqb_spec k' key) as [-> | Hk]; simpl.
  - destruct (String.eqb_spec key k); [congruence | reflexivity].
  - destruct (String.eqb k' k); [reflexivity | exact IH].
Qed.

(** One step of [calculateCost] on a priced task whose model id is an
    ordinary key: the total grows by the cost, and the entry of the model is
    created if need be and bumped. *)
Lemma costStep_priced models (acc : CostEstimate num) (task : CostTask num) m price :
  pricedModel models (ct_model task) = Some (m, price) ->
  inherited (ct_model task) = false ->
  let count := imagesOf task in
  let cost := n_mul price count in
  costStep models acc task =
    {| est_totalCost := n_add (est_totalCost acc) cost;
       breakdown :=
         match entryOf (ct_model task) (breakdown acc) with
         | Some _ => updateEntry (ct_model task) (bump count cost) (breakdown acc)
         | None =>
             breakdown acc ++
               [(ct_model task,
                 {| modelName := cfg_name m; imageCount := n_add n_zero count;
                    costPerImage := price; totalCost := n_add n_zero cost |})]
         end |}.
Proof.
  intros Hp Hi. cbv zeta. unfold costStep. rewrite Hp, Hi. f_equal.
  rewrite updateEntry_twice.
  destruct (entryOf (ct_model task) (breakdown acc)) eqn:E.
  - reflexivity.
  - now rewrite updateEntry_app_absent.
Qed.

End Breakdown.

Section Ledger.

Context {num : Type} {A : Arith num}.

Lemma tasksOf_snoc key (ts : list (CostTask num)) t :
  tasksOf key (ts ++ [t]) =
    tasksOf key ts ++ (if String.eqb (ct_model t) key then [t] else []).
Proof. unfold tasksOf. now rewrite filter_app. Qed.

Lemma tasksOf_none key (ts : list (CostTask num)) :
  (forall t, In t ts -> ct_model t <> key) -> tasksOf key ts = [].
Proof.
  induction ts as [| t ts IH]; intros H; simpl; [reflexivity |].
  destruct (String.eqb_spec (ct_model t) key) as [E | _].
  - exfalso. apply (H t); [now left | exact E].
  - apply IH. intros t' Hin. apply H. now right.
Qed.

Lemma pricedTasks_snoc models (ts : list (CostTask num)) t :
  pricedTasks models (ts ++ [t]) =
    pricedTasks models ts ++
      match pricedModel models (ct_model t) with
      | Some _ => [t]
      | None => []
      end.
Proof.
  unfold pricedTasks. rewrite filter_app. simpl.
  now destruct (pricedModel models (ct_model t)).
Qed.

(** The ledger is kept by a task whose model has no priced entry. *)
Lemma costLedger_unpriced models (ts : list (CostTask num)) acc t :
  costLedger models ts acc ->
  pricedModel models (ct_model t) = None ->
  costLedger models (ts ++ [t]) (costStep models acc t).
Proof.
  intros (J1 & J2 & J3 & J4) Hp.
  unfold costStep. rewrite Hp.
  split; [| split; [exact J2 | split]].
  - now rewrite pricedTasks_snoc, Hp, app_nil_r.
  - intros key e He. destruct (J3 key e He) as ((m & Hm) & Htc & Hic).
    split; [now exists m |].
    rewrite tasksOf_snoc.
    destruct (String.eqb_spec (ct_model t) key) as [E | _].
    + rewrite E in Hp. congruence.
    + rewrite app_nil_r. now split.
  - intros t' Hin Hpr. apply in_app_or in Hin. destruct Hin as [Hin | [<- | []]].
    + now apply J4.
    + congruence.
Qed.

(** The ledger is kept by a priced task whose model id is an ordinary key. *)
Lemma costLedger_priced models (ts : list (CostTask num)) acc t m price :
  costLedger models ts acc ->
  pricedModel models (ct_model t) = Some (m, price) ->
  inherited (ct_model t) = false ->
  costLedger models (ts ++ [t]) (costStep models acc t).
Proof.
  intros (J1 & J2 & J3 & J4) Hp Hinh.
  rewrite (costStep_priced models acc t m price Hp Hinh). cbv zeta.
  assert (Hcost : taskCost models t = n_mul price (imagesOf t)).
  { unfold taskCost. now rewrite Hp. }
  set (key := ct_model t) in *.
  set (count := imagesOf t) in *. set (cost := n_mul price count) in *.
  assert (Htotal : n_add (est_totalCost acc) cost
                   = sumOf (map (taskCost models) (pricedTasks models (ts ++ [t])))).
  { rewrite pricedTasks_snoc. fold key. rewrite Hp, map_app. cbn [map].
    now rewrite sumOf_snoc, Hcost, J1. }
  destruct (entryOf key (breakdown acc)) as [e0 |] eqn:E0.
  - (* the model already has an entry *)
    destruct (J3 key e0 E0) as (Hm0 & Htc0 & Hic0).
    split; [| split; [| split]]; cbn [est_totalCost breakdown].
    + exact Htotal.
    + now rewrite updateEntry_keys.
    + intros k e He. destruct (String.eqb_spec k key) as [-> | Hne].
      * rewrite entryOf_updateEntry_same, E0 in He. injection He as <-.
        cbn [bump costPerImage totalCost imageCount].
        split; [exact Hm0 |].
        rewrite tasksOf_snoc. fold key. rewrite String.eqb_refl, !map_app.
        cbn [map]. rewrite !sumOf_snoc, Hcost, <- Htc0, <- Hic0. now split.
      * rewrite entryOf_updateEntry_other in He by assumption.
        destruct (J3 k e He) as (Hm & Htc & Hic).
        split; [exact Hm |].
        rewrite tasksOf_snoc. fold key.
        destruct (String.eqb_spec key k); [congruence |].
        rewrite app_nil_r. now split.
    + intros t' Hin Hpr.
      destruct (String.eqb_spec (ct_model t') key) as [-> | Hne].
      * rewrite entryOf_updateEntry_same, E0. discriminate.
      * rewrite entryOf_updateEntry_other by assumption.
        apply in_app_or in Hin. destruct Hin as [Hin | [<- | []]].
        -- now apply J4.
        -- now contradiction Hne.
  - (* the first task of this model *)
    assert (Hnone : tasksOf key ts = []).
    { apply tasksOf_none. intros t' Hin E.
      apply (J4 t' Hin); rewrite E; [congruence | exact E0]. }
    split; [| split; [| split]]; cbn [est_totalCost breakdown].
    + exact Htotal.
    + rewrite map_app. simpl. apply NoDup_app.
      * exact J2.
      * constructor; [intros [] | constructor].
      * intros a Hin [<- | []]. now apply (entryOf_keys key (breakdown acc) E0).
    + intros k e He. rewrite entryOf_app_absent in He.
      destruct (entryOf k (breakdown acc)) as [e1 |] eqn:E1.
      * injection He as ->.
        destruct (J3 k e E1) as (Hm & Htc & Hic).
        split; [exact Hm |].
        rewrite tasksOf_snoc. fold key.
        destruct (String.eqb_spec key k) as [<- | _]; [congruence |].
        rewrite app_nil_r. now split.
      * destruct (String.eqb_spec key k) as [<- | _]; [| discriminate].
        injection He as <-. cbn [costPerImage totalCost imageCount].
        split; [now exists m |].
        rewrite tasksOf_snoc. fold key. rewrite String.eqb_refl, Hnone.
        cbn [app map]. rewrite Hcost. now split.
    + intros t' Hin Hpr. rewrite entryOf_app_absent.
      destruct (entryOf (ct_model t') (breakdown acc)) eqn:E1; [discriminate |].
      apply in_app_or in Hin. destruct Hin as [Hin | [<- | []]].
      * exfalso. now apply (J4 t' Hin Hpr).
      * fold key. rewrite String.eqb_refl. discriminate.
Qed.

(** The ledger holds of [calculateCost] on every task list whose model ids
    are ordinary keys. *)
Lemma calculateCost_ledger models (tasks : list (CostTask num)) :
  Forall (fun t => inherited (ct_model t) = false) tasks ->
  costLedger models tasks (calculateCost tasks models).
Proof.
  unfold calculateCost. induction tasks as [| t ts IH] using rev_ind; intros H.
  - simpl. repeat split; simpl; try constructor; try discriminate; try contradiction.
  - apply Forall_app in H. destruct H as [Hts Ht].
    inversion Ht as [| ? ? Hinh _]; subst.
    rewrite fold_left_app. simpl.
    destruct (pricedModel models (ct_model t)) as [[m price] |] eqn:Hp.
    + eapply costLedger_priced; eauto.
    + apply costLedger_unpriced; auto.
Qed.

End Ledger.

Section ExactBreakdown.

Context {num : Type} {A : Arith num} {L : ExactArith A}.

Lemma fold_add_shift (l : list num) : forall a x,
  fold_left n_add l (n_add a x) = n_add (fold_left n_add l a) x.
Proof.
  induction l as [| y l IH]; intros a x; simpl; [reflexivity |].
  rewrite <- IH. f_equal.
  rewrite <- !add_assoc. f_equal. apply add_comm.
Qed.

Lemma sumOf_cons (x : num) (l : list num) : sumOf (x :: l) = n_add (sumOf l) x.
Proof. unfold sumOf. simpl. apply fold_add_shift. Qed.

(** Bumping the entry of [key] adds the cost to the sum of the entries. *)
Lemma sumOf_bump key count cost (b : list (string * BreakdownEntry num)) e0 :
  entryOf key b = Some e0 ->
  sumOf (entryTotals (updateEntry key (bump count cost) b))
  = n_add (sumOf (entryTotals b)) cost.
Proof.
  induction b as [| [k e] b IH]; simpl; intros H; [discriminate |].
  destruct (String.eqb k key).
  - unfold entryTotals. simpl. fold (entryTotals b).
    rewrite !sumOf_cons. apply add_assoc.
  - unfold entryTotals. simpl.
    fold (entryTotals (updateEntry key (bump count cost) b)). fold (entryTotals b).
    rewrite !sumOf_cons, (IH H).
    rewrite <- !add_assoc. f_equal. apply add_comm.
Qed.

(** Without rounding, a step keeps the total equal to the sum of the
    entries and every entry's cost equal to its price times its count. *)
Lemma costBalance_step models (ts : list (CostTask num)) acc t :
  costLedger models ts acc ->
  inherited (ct_model t) = false ->
  costBalance acc -> costBalance (costStep models acc t).
Proof.
  intros (_ & _ & J3 & _) Hinh [B1 B2].
  destruct (pricedModel models (ct_model t)) as [[m price] |] eqn:Hp.
  2:{ unfold costStep. rewrite Hp. now split. }
  rewrite (costStep_priced models acc t m price Hp Hinh). cbv zeta.
  set (key := ct_model t) in *.
  set (count := imagesOf t). set (cost := n_mul price count).
  destruct (entryOf key (breakdown acc)) as [e0 |] eqn:E0.
  - destruct (J3 key e0 E0) as ((m0 & Hm0) & _ & _).
    assert (Hprice : costPerImage e0 = price) by congruence.
    split; cbn [est_totalCost breakdown].
    + now rewrite (sumOf_bump key count cost _ e0 E0), B1.
    + intros k e He. destruct (String.eqb_spec k key) as [-> | Hne].
      * rewrite entryOf_updateEntry_same, E0 in He. injection He as <-.
        cbn [bump costPerImage totalCost imageCount].
        rewrite (B2 key e0 E0), mul_add_distr_l. subst cost. now rewrite Hprice.
      * rewrite entryOf_updateEntry_other in He by assumption. now apply (B2 k).
  - split; cbn [est_totalCost breakdown].
    + unfold entryTotals. rewrite map_app. simpl. fold (entryTotals (breakdown acc)).
      now rewrite sumOf_snoc, add_zero_l, B1.
    + intros k e He. rewrite entryOf_app_absent in He.
      destruct (entryOf k (breakdown acc)) as [e1 |] eqn:E1.
      * injection He as ->. now apply (B2 k).
      * destruct (String.eqb key k); [| discriminate].
        injection He as <-. cbn [costPerImage totalCost imageCount].
        now rewrite !add_zero_l.
Qed.

Lemma calculateCost_balance models (tasks : list (CostTask num)) :
  Forall (fun t => inherited (ct_model t) = false) tasks ->
  costBalance (calculateCost tasks models).
Proof.
  induction tasks as [| t ts IH] using rev_ind; intros H.
  - split; simpl; [reflexivity | discriminate].
  - apply Forall_app in H. destruct H as [Hts Ht].
    inversion Ht as [| ? ? Hinh _]; subst.
    unfold calculateCost. rewrite fold_left_app. simpl.
    apply (costBalance_step models ts); [| exact Hinh | now apply IH].
    now apply calculateCost_ledger.
Qed.

End ExactBreakdown.

#[export] Instance Z_exact : ExactArith Z_arith.
Proof. split; simpl; intros; lia. Qed.

#[export] Instance Z_sign : SignArith Z_arith.
Proof.
  split; unfold nonneg; simpl; intros;
    repeat match goal with
           | H : (_ <? _) = false |- _ => apply Z.ltb_ge in H
           | |- (_ <? _) = false => apply Z.ltb_ge
           end; try lia; try nia.
Qed.

(** Binary64 respects signs: rounding keeps the sign of what it rounds. *)
Lemma SFnonneg_ltb x : SFltb x (S754_zero false) = negb (SFnonneg x).
Proof. destruct x as [s | s | | s m e]; try destruct s; reflexivity. Qed.

Lemma binary_round_aux_nonneg mx ex lx :
  SFnonneg (binary_round_aux prec emax false mx ex lx) = true.
Proof.
  unfold binary_round_aux.
  destruct (shr_fexp prec emax mx ex lx) as [mrs' e'].
  destruct (shr_fexp prec emax _ e' loc_Exact) as [mrs'' e''].
  destruct (shr_m mrs''); [reflexivity | | reflexivity].
  destruct (e'' <=? emax - prec)%Z; reflexivity.
Qed.

Lemma binary_round_nonneg m e : SFnonneg (binary_round prec emax false m e) = true.
Proof.
  unfold binary_round. destruct (shl_align m e _) as [mz ez].
  apply binary_round_aux_nonneg.
Qed.

Lemma SFadd_nonneg x y :
  SFnonneg x = true -> SFnonneg y = true -> SFnonneg (SFadd prec emax x y) = true.
Proof.
  destruct x as [sx | sx | | sx mx ex], y as [sy | sy | | sy my ey]; simpl;
    try (destruct sx; try discriminate); try (destruct sy; try discriminate);
    try reflexivity; intros _ _.
  unfold binary_normalize. simpl.
  apply binary_round_nonneg.
Qed.

Lemma SFmul_nonneg x y :
  SFnonneg x = true -> SFnonneg y = true -> SFnonneg (SFmul prec emax x y) = true.
Proof.
  destruct x as [sx | sx | | sx mx ex], y as [sy | sy | | sy my ey]; simpl;
    try (destruct sx; try discriminate); try (destruct sy; try discriminate);
    try reflexivity; intros _ _.
  apply binary_round_aux_nonneg.
Qed.

Lemma float_nonneg (x : float) :
  @nonneg float float_arith x <-> SFnonneg (Prim2SF x) = true.
Proof.
  unfold nonneg. cbn [n_ltb n_zero float_arith]. rewrite ltb_spec.
  change (Prim2SF 0) with (S754_zero false). rewrite SFnonneg_ltb.
  destruct (SFnonneg (Prim2SF x)); simpl; split; congruence.
Qed.

#[export] Instance float_sign : SignArith float_arith.
Proof.
  split.
  - reflexivity.
  - reflexivity.
  - intros a b Ha Hb. apply float_nonneg in Ha, Hb. apply float_nonneg.
    cbn [n_add float_arith]. rewrite add_spec. now apply SFadd_nonneg.
  - intros a b Ha Hb. apply float_nonneg in Ha, Hb. apply float_nonneg.
    cbn [n_mul float_arith]. rewrite mul_spec. now apply SFmul_nonneg.
Qed.

Section Nonnegative.

Context {num : Type} {A : Arith num} {S : SignArith A}.
Variable models : list (ModelConfig num).
Hypothesis prices : pricesNonneg models.

Lemma pricedModel_nonneg key m price :
  pricedModel models key = Some (m, price) -> nonneg price.
Proof.
  unfold pricedModel.
  destruct (find (fun m => String.eqb (cfg_id m) key) models) as [m' |] eqn:F;
    [| discriminate].
  destruct (cfg_costPerImage m') as [c |] eqn:C; [| discriminate].
  destruct (n_truthy c); [| discriminate]. intros [= <- <-].
  apply find_some in F. destruct F as [Hin _].
  unfold pricesNonneg in prices. rewrite Forall_forall in prices.
  exact (prices m' Hin c C).
Qed.

Lemma imagesOf_nonneg (t : CostTask num) :
  (forall c, ct_imageCount t = Some c -> nonneg c) -> nonneg (imagesOf t).
Proof.
  intros H. unfold imagesOf, orOne.
  destruct (ct_imageCount t) as [c |]; [| apply nonneg_one].
  destruct (n_truthy c); [now apply H | apply nonneg_one].
Qed.

Lemma costStep_nonneg acc t :
  (forall c, ct_imageCount t = Some c -> nonneg c) ->
  estimateNonneg acc -> estimateNonneg (costStep models acc t).
Proof.
  intros Ht [Htot Hent].
  destruct (pricedModel models (ct_model t)) as [[m price] |] eqn:Hp.
  2:{ unfold costStep. rewrite Hp. now split. }
  pose proof (pricedModel_nonneg _ _ _ Hp) as Hprice.
  pose proof (imagesOf_nonneg t Ht) as Hcount.
  assert (Hcost : nonneg (n_mul price (imagesOf t))) by now apply nonneg_mul.
  destruct (inherited (ct_model t)) eqn:Hinh.
  - unfold costStep. rewrite Hp, Hinh. split; simpl.
    + now apply nonneg_add.
    + exact Hent.
  - rewrite (costStep_priced models acc t m price Hp Hinh). cbv zeta.
    split; cbn [est_totalCost breakdown]; [now apply nonneg_add |].
    intros key e He.
    destruct (entryOf (ct_model t) (breakdown acc)) as [e0 |] eqn:E0.
    + destruct (String.eqb_spec key (ct_model t)) as [-> | Hne].
      * rewrite entryOf_updateEntry_same, E0 in He. injection He as <-.
        destruct (Hent _ _ E0) as (Hi & Hc & Hto).
        cbn [bump imageCount costPerImage totalCost].
        repeat split; try assumption; now apply nonneg_add.
      * rewrite entryOf_updateEntry_other in He by assumption. now apply (Hent key).
    + rewrite entryOf_app_absent in He.
      destruct (entryOf key (breakdown acc)) as [e1 |] eqn:E1.
      * injection He as ->. now apply (Hent key).
      * destruct (String.eqb (ct_model t) key); [| discriminate].
        injection He as <-. cbn [imageCount costPerImage totalCost].
        repeat split; try assumption; apply nonneg_add;
          assumption || apply nonneg_zero.
Qed.

Lemma calculateCost_nonneg (tasks : list (CostTask num)) :
  countsNonneg tasks -> estimateNonneg (calculateCost tasks models).
Proof.
  unfold calculateCost.
  assert (H0 : estimateNonneg {| est_totalCost := n_zero; breakdown := [] |}).
  { split; simpl; [apply nonneg_zero | discriminate]. }
  revert H0. generalize {| est_totalCost := n_zero; breakdown := @nil (string * BreakdownEntry num) |}.
  induction tasks as [| t ts IH]; intros acc Hacc Hc; simpl; [exact Hacc |].
  inversion Hc as [| ? ? Ht Hts]; subst.
  apply IH; [now apply costStep_nonneg | exact Hts].
Qed.

End Nonnegative.

Lemma entryOf_own {num : Type} key e (b : list (string * BreakdownEntry num)) :
  entryOf key b = Some e -> In (key, e) b.
Proof.
  induction b as [| [k e0] b IH]; simpl; [discriminate |].
  destruct (String.eqb_spec k key) as [-> | _].
  - intros [= ->]. now left.
  - intros H. right. now apply IH.
Qed.

Lemma costStep_keys {num : Type} {A : Arith num}
  models (acc : CostEstimate num) (t : CostTask num) key :
  In key (map fst (breakdown (costStep models acc t))) ->
  In key (map fst (breakdown acc)) \/ ct_model t = key.
Proof.
  unfold costStep.
  destruct (pricedModel models (ct_model t)) as [[m price] |]; [| now left].
  destruct (inherited (ct_model t)); [now left |].
  cbv zeta. cbn [breakdown]. rewrite !updateEntry_keys.
  destruct (entryOf (ct_model t) (breakdown acc)); [now left |].
  rewrite map_app. intros H. apply in_app_or in H.
  destruct H as [H | [<- | []]]; [now left | now right].
Qed.

(** Every entry of the breakdown is the entry of a model some task names. *)
Lemma calculateCost_entries_named {num : Type} {A : Arith num}
  models (tasks : list (CostTask num)) key :
  In key (map fst (breakdown (calculateCost tasks models))) ->
  exists t, In t tasks /\ ct_model t = key.
Proof.
  unfold calculateCost. induction tasks as [| t ts IH] using rev_ind.
  - intros [].
  - rewrite fold_left_app. cbn [fold_left]. intros H.
    apply costStep_keys in H. destruct H as [H | H].
    + destruct (IH H) as (t' & Hin & E). exists t'.
      split; [apply in_or_app; now left | exact E].
    + exists t. split; [apply in_or_app; right; now left | exact H].
Qed.

(** C10, as the code has it - consistency of the cost breakdown.  For task
    lists whose model ids are ordinary keys.  In any arithmetic, so in
    binary64: no model has two entries, and every priced model that a task
    names has one; the [costPerImage] of an entry is the catalog price of
    its model; its [imageCount] adds up [imageCount || 1], and its
    [totalCost] adds up price times [imageCount || 1], over the tasks of
    that model in their order; and the total adds up the costs of all priced
    tasks in their order.  Where sums and products of numbers that are not
    negative are not negative, which binary64 is ([float_sign]) and the
    integers are: the total and every entry are not negative when no catalog
    price and no task count is.  And in arithmetic without rounding only,
    which binary64 is not: the total is the sum of the entries' [totalCost],
    and the [totalCost] of an entry is its [costPerImage] times its
    [imageCount]. *)
Theorem calculateCost_consistent
  {num : Type} {A : Arith num}
  (tasks : list (CostTask num)) (models : list (ModelConfig num)) :
  Forall (fun t => inherited (ct_model t) = false) tasks ->
  let est := calculateCost tasks models in
  (NoDup (map fst (breakdown est)) /\
   (forall t m price, In t tasks ->
      pricedModel models (ct_model t) = Some (m, price) ->
      exists e, In (ct_model t, e) (breakdown est) /\ costPerImage e = price) /\
   est_totalCost est = sumOf (map (taskCost models) (pricedTasks models tasks)) /\
   forall key e, In (key, e) (breakdown est) ->
     (exists m, pricedModel models key = Some (m, costPerImage e)) /\
     (exists t, In t tasks /\ ct_model t = key) /\
     imageCount e = sumOf (map imagesOf (tasksOf key tasks)) /\
     totalCost e = sumOf (map (taskCost models) (tasksOf key tasks))) /\
  (SignArith A -> pricesNonneg models -> countsNonneg tasks ->
   nonneg (est_totalCost est) /\
   forall key e, In (key, e) (breakdown est) ->
     nonneg (imageCount e) /\ nonneg (costPerImage e) /\ nonneg (totalCost e)) /\
  (ExactArith A ->
   est_totalCost est = sumOf (entryTotals (breakdown est)) /\
   forall key e, In (key, e) (breakdown est) ->
     totalCost e = n_mul (costPerImage e) (imageCount e)).
Proof.
  intros Hkeys est.
  destruct (calculateCost_ledger models tasks Hkeys) as (J1 & J2 & J3 & J4).
  pose proof (calculateCost_entries_named models tasks) as J5.
  fold est in J1, J2, J3, J4, J5.
  split; [| split].
  - split; [exact J2 |]. split; [| split; [exact J1 |]].
    + intros t m price Hin Hp.
      destruct (entryOf (ct_model t) (breakdown est)) as [e |] eqn:E.
      * exists e. split; [now apply entryOf_own |].
        destruct (J3 _ e E) as ((m' & Hm') & _). congruence.
      * exfalso. apply (J4 t Hin); [congruence | exact E].
    + intros key e Hin.
      destruct (J3 key e (entryOf_In key e _ J2 Hin)) as (Hm & Htc & Hic).
      split; [exact Hm |]. split; [| now split].
      apply J5. apply in_map_iff. now exists (key, e).
  - intros S Hp Hc.
    destruct (calculateCost_nonneg models Hp tasks Hc) as [Htot Hent].
    fold est in Htot, Hent. split; [exact Htot |].
    intros key e Hin. exact (Hent key e (entryOf_In key e _ J2 Hin)).
  - intros L. destruct (calculateCost_balance models tasks Hkeys) as [B1 B2].
    fold est in B1, B2. split; [exact B1 |].
    intros key e Hin. exact (B2 key e (entryOf_In key e _ J2 Hin)).
Qed.

Lemma calculateCost_consistent_witness :
  (calculateCost milliTasks milliCatalog =
     {| est_totalCost := 87;
        breakdown :=
          [ ("fal-ai/fast-sdxl",
             {| modelName := "Fast SDXL"; imageCount := 3;
                costPerImage := 4; totalCost := 12 |});
            ("fal-ai/flux/dev",
             {| modelName := "FLUX.1 [dev]"; imageCount := 3;
                costPerImage := 25; totalCost := 75 |}) ] |} /\
   est_totalCost (calculateCost milliTasks milliCatalog)
   = sumOf (entryTotals (breakdown (calculateCost milliTasks milliCatalog))) /\
   nonneg (est_totalCost (calculateCost milliTasks milliCatalog))) /\
  (est_totalCost (calculateCost tenDimeTasks dimeCatalog)
   = sumOf (map (taskCost dimeCatalog) (pricedTasks dimeCatalog tenDimeTasks)) /\
   nonneg (est_totalCost (calculateCost tenDimeTasks dimeCatalog)) /\
   exists e, In ("fal-ai/fast-sdxl", e) (breakdown (calculateCost tenDimeTasks dimeCatalog))).
Proof.
  split.
  - split; [reflexivity |].
    destruct (calculateCost_consistent milliTasks milliCatalog)
      as (_ & Hsign & Hexact).
    + repeat constructor.
    + split; [apply (Hexact Z_exact) |]. apply (Hsign Z_sign).
      * repeat constructor; intros c [= <-]; reflexivity.
      * repeat constructor; intros c; try discriminate; intros [= <-]; reflexivity.
  - destruct (calculateCost_consistent tenDimeTasks dimeCatalog)
      as ((_ & Hentry & Htotal & _) & Hsign & _).
    + repeat constructor.
    + split; [exact Htotal |]. split.
      * apply (Hsign float_sign).
        -- repeat constructor; intros c [= <-]; reflexivity.
        -- repeat constructor; intros c; try discriminate; intros [= <-]; reflexivity.
      * destruct (Hentry (hd negativeCountTask tenDimeTasks) (hd (Build_ModelConfig _ "" "" None) dimeCatalog) 0.1%float)
          as (e & He & _); [now left | reflexivity |].
        exists e. exact He.
Defined.

(** C10, as the claim states it, fails in three ways.  In binary64, ten
    tasks at 0.1 add up to 0.9999999999999999 in the entry, while
    [costPerImage * imageCount] is 1.  A task with [imageCount] -2 makes the
    total negative although no catalog price is.  And for a model called
    [constructor] the total is charged while the breakdown stays empty, its
    updates landing on the inherited member. *)
Lemma calculateCost_inconsistent :
  (map (fun kv => (imageCount (snd kv), totalCost (snd kv),
                   (costPerImage (snd kv) * imageCount (snd kv))%float))
     (breakdown (calculateCost tenDimeTasks dimeCatalog))
   = [(10%float, 0.99999999999999989%float, 1%float)] /\
   (0.99999999999999989 =? 1)%float = false) /\
  (calculateCost [negativeCountTask] sampleCatalog
   = {| est_totalCost := (-0.05)%float;
        breakdown :=
          [("fal-ai/flux/dev",
            {| modelName := "FLUX.1 [dev]"; imageCount := (-2)%float;
               costPerImage := 0.025%float; totalCost := (-0.05)%float |})] |} /\
   (-0.05 <? 0)%float = true /\
   pricesNonneg sampleCatalog) /\
  (calculateCost [constructorTask] constructorCatalog
   = {| est_totalCost := 0.025%float; breakdown := [] |} /\
   sumOf (entryTotals (@nil (string * BreakdownEntry float))) = 0%float /\
   (0.025 =? 0)%float = false).
Proof.
  repeat split.
  repeat constructor; intros c [= <-]; reflexivity.
Qed.

(** ** The rounds of the batch loop *)

Lemma windowsOf_count w tasks opts fuel : forall i,
  1 <= batchSize opts -> 0 <= i ->
  Z.of_nat (List.length tasks) - i <= Z.of_nat fuel ->
  Z.of_nat (List.length (windowsOf w tasks opts fuel i)) =
    (Z.max 0 (Z.of_nat (List.length tasks) - i) + batchSize opts - 1) / batchSize opts.
Proof.
  induction fuel as [| fuel IH]; intros i Hb Hi Hf; simpl;
    destruct (Z.ltb_spec i (Z.of_nat (List.length tasks))) as [Hlt | Hge].
  - lia.
  - simpl. rewrite Z.max_l by lia. symmetry. apply Z.div_small. lia.
  - cbn [List.length]. rewrite Nat2Z.inj_succ, IH by lia.
    rewrite (Z.max_r 0 (Z.of_nat (List.length tasks) - i)) by lia.
    destruct (Z.le_gt_cases (i + batchSize opts) (Z.of_nat (List.length tasks)))
      as [Hfull | Hlast].
    + rewrite Z.max_r by lia.
      replace (Z.of_nat (List.length tasks) - i + batchSize opts - 1)
        with (Z.of_nat (List.length tasks) - (i + batchSize opts) + batchSize opts - 1
              + 1 * batchSize opts) by lia.
      rewrite Z.div_add by lia. lia.
    + rewrite Z.max_l by lia.
      replace (Z.of_nat (List.length tasks) - i + batchSize opts - 1)
        with (Z.of_nat (List.length tasks) - i - 1 + 1 * batchSize opts) by lia.
      rewrite Z.div_add by lia.
      rewrite !Z.div_small by lia. reflexivity.
  - simpl. rewrite Z.max_l by lia. symmetry. apply Z.div_small. lia.
Qed.

Lemma windowsOf_nth w tasks opts fuel : forall i k win,
  1 <= batchSize opts -> 0 <= i ->
  nth_error (windowsOf w tasks opts fuel i) k = Some win ->
  fst win = i + Z.of_nat k * batchSize opts /\
  Z.of_nat (List.length (snd win)) =
    Z.min (batchSize opts) (Z.of_nat (List.length tasks) - fst win).
Proof.
  induction fuel as [| fuel IH]; intros i k win Hb Hi; simpl;
    destruct (Z.ltb_spec i (Z.of_nat (List.length tasks))) as [Hlt | Hge];
    try (destruct k; discriminate).
  destruct k as [| k]; cbn [nth_error].
  - intros [= <-]. cbn [fst snd]. split; [lia |].
    rewrite jobsFrom_length.
    rewrite slice_window by (rewrite ?length_indexed; lia).
    rewrite length_firstn, length_skipn, length_indexed. lia.
  - intros H. apply IH in H; [| lia | lia]. destruct H as [H1 H2].
    split; [rewrite Nat2Z.inj_succ; lia | exact H2].
Qed.

(** The rounds of the loop for an integer bound [b >= 1] and [N] tasks:
    [ceil(N / b)] windows, window [k] sliced at position [k * b] with
    [min(b, N - k * b)] tasks. *)
Lemma generateBatch_rounds_integer (w : World) (tasks : list Task) (opts : Options)
  (fuel : nat) :
  1 <= batchSize opts ->
  Z.of_nat (List.length tasks) <= Z.of_nat fuel ->
  exists windows,
    generateBatch w tasks opts fuel =
      Done (resultsInOrder w tasks opts)
        (flat_map (eventsOfWindow w tasks opts) windows) /\
    Z.of_nat (List.length windows) =
      (Z.of_nat (List.length tasks) + batchSize opts - 1) / batchSize opts /\
    forall k win, nth_error windows k = Some win ->
      fst win = Z.of_nat k * batchSize opts /\
      Z.of_nat (List.length (snd win)) =
        Z.min (batchSize opts)
          (Z.of_nat (List.length tasks) - Z.of_nat k * batchSize opts).
Proof.
  intros Hb Hf. exists (windowsOf w tasks opts fuel 0). split; [| split].
  - apply generateBatch_returns; (assumption || lia).
  - rewrite windowsOf_count by lia. rewrite Z.sub_0_r, Z.max_r by lia. reflexivity.
  - intros k win H. apply windowsOf_nth in H; [| assumption | lia].
    destruct H as [H1 H2]. rewrite H2, H1. split; [lia | f_equal; lia].
Qed.

(** ** Saving the images *)

Lemma saveLoop_spec fetch dir urls : forall i,
  map saved_url (saveLoop fetch dir i urls) =
    filter (fun u => match fetch dir u with Some _ => true | None => false end) urls /\
  forall f, In f (saveLoop fetch dir i urls) ->
    (i + 1 <= saved_index f <= i + List.length urls)%nat /\
    nth_error urls (saved_index f - (i + 1)) = Some (saved_url f) /\
    fetch dir (saved_url f) = Some (saved_size f).
Proof.
  induction urls as [| u urls IH]; intros i; simpl.
  - split; [reflexivity | intros f []].
  - destruct (IH (S i)) as [IHm IHf].
    destruct (fetch dir u) as [size |] eqn:E; simpl.
    + split; [now rewrite IHm |].
      intros f [<- | Hin]; simpl.
      * split; [lia |]. rewrite Nat.sub_diag. simpl. split; [reflexivity | exact E].
      * destruct (IHf f Hin) as (Hr & Hn & Hd). split; [lia |]. split; [| exact Hd].
        replace (saved_index f - (i + 1))%nat with (S (saved_index f - (S i + 1)))
          by lia.
        exact Hn.
    + split; [exact IHm |].
      intros f Hin. destruct (IHf f Hin) as (Hr & Hn & Hd).
      split; [lia |]. split; [| exact Hd].
      replace (saved_index f - (i + 1))%nat with (S (saved_index f - (S i + 1)))
        by lia.
      exact Hn.
Qed.

(** X5 - [saveImagesToDisk] skips the downloads that fail.  Once the
    directory is there the call returns, however many downloads fail: the
    files saved are, in order, those of the URLs whose download succeeded,
    each with the 1-based position of its URL and the size fetched. *)
Theorem saveImagesToDisk_skips_failed_downloads (w : World) (imageUrls : list value)
  (dir : string) :
  ensureDir w dir = None ->
  exists files,
    saveImagesToDisk w imageUrls dir = Return files /\
    map saved_url files = filter (downloaded w dir) imageUrls /\
    forall f, In f files ->
      (1 <= saved_index f <= List.length imageUrls)%nat /\
      nth_error imageUrls (saved_index f - 1) = Some (saved_url f) /\
      download w dir (saved_url f) = Some (saved_size f).
Proof.
  intros E. unfold saveImagesToDisk. rewrite E. eexists. split; [reflexivity |].
  destruct (saveLoop_spec (download w) dir imageUrls 0) as [Hm Hf].
  split; [exact Hm |]. intros f Hin. exact (Hf f Hin).
Qed.

Lemma saveImagesToDisk_skips_failed_downloads_witness :
  exists files,
    saveImagesToDisk flakyWorld
      [VStr "https://fal.media/files/a.png"; VStr "https://fal.media/files/b.png";
       VStr "https://fal.media/files/c.png"] "out" = Return files /\
    map saved_url files =
      [VStr "https://fal.media/files/a.png"; VStr "https://fal.media/files/c.png"] /\
    forall f, In f files ->
      (1 <= saved_index f <= 3)%nat /\
      nth_error [VStr "https://fal.media/files/a.png"; VStr "https://fal.media/files/b.png";
                 VStr "https://fal.media/files/c.png"] (saved_index f - 1)
        = Some (saved_url f) /\
      download flakyWorld "out" (saved_url f) = Some (saved_size f).
Proof.
  apply (saveImagesToDisk_skips_failed_downloads flakyWorld
           [VStr "https://fal.media/files/a.png"; VStr "https://fal.media/files/b.png";
            VStr "https://fal.media/files/c.png"] "out").
  reflexivity.
Defined.

(** ** What the single generation does once the provider has answered *)

Lemma extractImageUrls_getProp result imgs :
  extractImageUrls result = Return imgs ->
  forall k, exists v, getProp result k = Return v.
Proof.
  intros E k. destruct result; try discriminate E; eexists; reflexivity.
Qed.

Lemma defaultParameters_getProp p :
  p <> VNull -> forall k, exists v, getProp (defaultParameters p) k = Return v.
Proof.
  intros Hp k. destruct p; try congruence; eexists; reflexivity.
Qed.

(** With at least one URL extracted and [parameters] not [null], the
    metadata of the response is built without an exception: what is left of
    the [try] block is the saving of the images. *)
Lemma generateSingleImage_try_saving w task od gid result imgs :
  extractImageUrls result = Return imgs ->
  imgs <> [] ->
  parameters task <> VNull ->
  exists rid sd,
    generateSingleImage_try w task od gid (Resolved result) =
      (saved <-
         match truthyDir od with
         | Some dir => files <- saveImagesToDisk w imgs dir ;; Return (Some files)
         | None => Return None
         end ;;
       Return (Success {|
         ok_model := model task; ok_prompt := prompt task; images := imgs;
         ok_parameters := defaultParameters (parameters task);
         ok_generationId := gid; request_id := rid; seed := sd;
         savedFiles := saved |})).
Proof.
  intros E Hne Hp. unfold generateSingleImage_try. cbn [await bind]. rewrite E.
  cbn [bind]. destruct imgs as [| u imgs]; [congruence |]. cbn [List.length Nat.eqb].
  destruct (extractImageUrls_getProp result _ E "requestId") as [rid ->].
  destruct (extractImageUrls_getProp result _ E "seed") as [rs ->].
  destruct (defaultParameters_getProp (parameters task) Hp "seed") as [ps ->].
  cbn [bind]. destruct (truthy rs); cbn [bind]; eexists; eexists; reflexivity.
Qed.

Lemma truthyDir_Some dir : dir <> "" -> truthyDir (Some dir) = Some dir.
Proof.
  intros H. unfold truthyDir. destruct (String.eqb_spec dir ""); [contradiction | reflexivity].
Qed.

(** A directory that cannot be created fails the generation.  When
    the provider has answered with at least one image and [fs.ensureDir]
    throws, [generateSingleImage] returns the failure object with the
    message of that exception: the URLs of the images generated are not
    returned. *)
Theorem generateSingleImage_directory_failure (w : World) (task : Task)
  (dir : string) (gid : option string) (result : value) (imgs : list value)
  (e : exn) :
  extractImageUrls result = Return imgs ->
  imgs <> [] ->
  parameters task <> VNull ->
  dir <> "" ->
  ensureDir w dir = Some e ->
  generateSingleImage w task (Some dir) gid (Resolved result) =
    Failure {| ko_model := model task; ko_prompt := prompt task;
               error := message e; ko_generationId := gid |}.
Proof.
  intros E Hne Hp Hd He. apply generateSingleImage_catch.
  destruct (generateSingleImage_try_saving w task (Some dir) gid result imgs E Hne Hp)
    as (rid & sd & ->).
  rewrite truthyDir_Some by assumption. unfold saveImagesToDisk. rewrite He.
  reflexivity.
Qed.

Lemma generateSingleImage_directory_failure_witness :
  generateSingleImage readOnlyWorld (sampleTask "a cat") (Some "out") None
    (Resolved twoImagesResponse) =
    Failure {| ko_model := "fal-ai/flux/dev"; ko_prompt := "a cat";
               error := "EACCES: permission denied, mkdir 'out'";
               ko_generationId := None |}.
Proof.
  apply (generateSingleImage_directory_failure readOnlyWorld (sampleTask "a cat") "out"
           None twoImagesResponse
           [VStr "https://fal.media/files/a.png"; VStr "https://fal.media/files/b.png"]
           (Error "EACCES: permission denied, mkdir 'out'"));
    (reflexivity || discriminate).
Defined.

(** A download that fails does not fail the generation.  When the
    provider has answered with at least one image and the directory is
    there, [generateSingleImage] returns a success with every URL extracted,
    whatever the downloads do; [savedFiles] lists, in order, the URLs whose
    download succeeded. *)
Theorem generateSingleImage_tolerates_download_failures (w : World) (task : Task)
  (dir : string) (gid : option string) (result : value) (imgs : list value) :
  extractImageUrls result = Return imgs ->
  imgs <> [] ->
  parameters task <> VNull ->
  dir <> "" ->
  ensureDir w dir = None ->
  exists r files,
    generateSingleImage w task (Some dir) gid (Resolved result) = Success r /\
    images r = imgs /\
    savedFiles r = Some files /\
    map saved_url files = filter (downloaded w dir) imgs.
Proof.
  intros E Hne Hp Hd He. unfold generateSingleImage.
  destruct (generateSingleImage_try_saving w task (Some dir) gid result imgs E Hne Hp)
    as (rid & sd & ->).
  rewrite truthyDir_Some by assumption. unfold saveImagesToDisk. rewrite He.
  cbn [bind]. eexists. eexists. split; [reflexivity |]. cbn [images savedFiles].
  split; [reflexivity |]. split; [reflexivity |].
  apply (saveLoop_spec (download w) dir imgs 0).
Qed.

Lemma generateSingleImage_tolerates_download_failures_witness :
  exists r files,
    generateSingleImage flakyWorld (sampleTask "a cat") (Some "out") None
      (Resolved twoImagesResponse) = Success r /\
    images r = [VStr "https://fal.media/files/a.png"; VStr "https://fal.media/files/b.png"] /\
    savedFiles r = Some files /\
    map saved_url files = [VStr "https://fal.media/files/a.png"].
Proof.
  apply (generateSingleImage_tolerates_download_failures flakyWorld (sampleTask "a cat")
           "out" None twoImagesResponse
           [VStr "https://fal.media/files/a.png"; VStr "https://fal.media/files/b.png"]);
    (reflexivity || discriminate).
Defined.

(** X8 - [parameters: null].  The destructuring default [parameters = {}]
    does not apply to [null]: when the provider has answered with images and
    no truthy [seed], the read [parameters.seed] throws, and the generation
    is a failure with the engine's message. *)
Theorem generateSingleImage_null_parameters (w : World) (task : Task)
  (od gid : option string) (result : value) (imgs : list value) (s : value) :
  parameters task = VNull ->
  extractImageUrls result = Return imgs ->
  imgs <> [] ->
  getProp result "seed" = Return s ->
  truthy s = false ->
  generateSingleImage w task od gid (Resolved result) =
    Failure {| ko_model := model task; ko_prompt := prompt task;
               error := "Cannot read properties of null (reading 'seed')";
               ko_generationId := gid |}.
Proof.
  intros Hp E Hne Hs Ht.
  apply (generateSingleImage_catch _ _ _ _ _
           (TypeError "Cannot read properties of null (reading 'seed')")).
  unfold generateSingleImage_try. cbn [await bind]. rewrite E.
  cbn [bind]. destruct imgs as [| u imgs]; [congruence |]. cbn [List.length Nat.eqb].
  destruct (extractImageUrls_getProp result _ E "requestId") as [rid ->].
  rewrite Hs. cbn [bind]. rewrite Ht, Hp. reflexivity.
Qed.

Lemma generateSingleImage_null_parameters_witness :
  generateSingleImage sampleWorld nullParametersTask None None
    (Resolved twoImagesResponse) =
    Failure {| ko_model := "fal-ai/flux/dev"; ko_prompt := "a cat";
               error := "Cannot read properties of null (reading 'seed')";
               ko_generationId := None |}.
Proof.
  apply (generateSingleImage_null_parameters sampleWorld nullParametersTask None None
           twoImagesResponse
           [VStr "https://fal.media/files/a.png"; VStr "https://fal.media/files/b.png"]
           VUndefined);
    (reflexivity || discriminate).
Defined.

(** ** Strings *)

Lemma splitOn_nonempty sep s : splitOn sep s <> [].
Proof.
  destruct s as [| c rest]; simpl; [discriminate |].
  destruct (Ascii.eqb c sep); [discriminate |].
  destruct (splitOn sep rest); discriminate.
Qed.

Lemma splitOn_one sep s : forall a,
  splitOn sep s = [a] -> s = a /\ someChar (Ascii.eqb sep) a = false.
Proof.
  induction s as [| c rest IH]; intros a; simpl.
  - intros [= <-]. split; reflexivity.
  - destruct (Ascii.eqb c sep) eqn:Ec.
    + intros [= <- H]. now apply splitOn_nonempty in H.
    + destruct (splitOn sep rest) as [| p ps] eqn:Es.
      * now apply splitOn_nonempty in Es.
      * intros [= <- ->]. destruct (IH p eq_refl) as [-> Hn].
        split; [reflexivity |]. simpl. rewrite Ascii.eqb_sym, Ec. exact Hn.
Qed.

Lemma splitOn_two sep s : forall a b,
  splitOn sep s = [a; b] ->
  s = (a ++ String sep b)%string /\
  someChar (Ascii.eqb sep) a = false /\ someChar (Ascii.eqb sep) b = false.
Proof.
  induction s as [| c rest IH]; intros a b; simpl.
  - discriminate.
  - destruct (Ascii.eqb c sep) eqn:Ec.
    + intros [= <- H]. apply splitOn_one in H. destruct H as [-> Hn].
      apply Ascii.eqb_eq in Ec. subst c.
      split; [reflexivity | split; [reflexivity | exact Hn]].
    + destruct (splitOn sep rest) as [| p ps] eqn:Es.
      * discriminate.
      * intros [= <- ->]. destruct (IH p b eq_refl) as (-> & Hp & Hb).
        split; [reflexivity | split; [| exact Hb]].
        simpl. rewrite Ascii.eqb_sym, Ec. exact Hp.
Qed.

Lemma splitOn_none sep s :
  someChar (Ascii.eqb sep) s = false -> splitOn sep s = [s].
Proof.
  induction s as [| c rest IH]; simpl; [reflexivity |].
  rewrite (Ascii.eqb_sym sep c). destruct (Ascii.eqb c sep); simpl; [discriminate |].
  intros H. now rewrite (IH H).
Qed.

Lemma splitOn_app sep a b :
  someChar (Ascii.eqb sep) a = false ->
  splitOn sep (a ++ String sep b)%string = a :: splitOn sep b.
Proof.
  induction a as [| c rest IH]; simpl.
  - intros _. now rewrite Ascii.eqb_refl.
  - rewrite (Ascii.eqb_sym sep c). destruct (Ascii.eqb c sep); simpl; [discriminate |].
    intros H. now rewrite (IH H).
Qed.

Lemma allChars_app p a b : allChars p (a ++ b)%string = allChars p a && allChars p b.
Proof.
  induction a as [| c rest IH]; simpl; [reflexivity |].
  now rewrite IH, andb_assoc.
Qed.

Lemma someChar_app p a b : someChar p (a ++ b)%string = someChar p a || someChar p b.
Proof.
  induction a as [| c rest IH]; simpl; [reflexivity |].
  now rewrite IH, orb_assoc.
Qed.

Lemma length_app_string a b :
  String.length (a ++ b)%string = (String.length a + String.length b)%nat.
Proof.
  induction a as [| c rest IH]; simpl; [reflexivity | now rewrite IH].
Qed.

Lemma allChars_impl (p q : ascii -> bool) s :
  (forall c, p c = true -> q c = true) -> allChars p s = true -> allChars q s = true.
Proof.
  intros H. induction s as [| c rest IH]; simpl; [reflexivity |].
  intros Hc. apply andb_true_iff in Hc. destruct Hc as [Hc Hr].
  now rewrite (H c Hc), (IH Hr).
Qed.

Lemma allChars_someChar (p q : ascii -> bool) s :
  (forall c, p c = true -> q c = false) -> allChars p s = true -> someChar q s = false.
Proof.
  intros H. induction s as [| c rest IH]; simpl; [reflexivity |].
  intros Hc. apply andb_true_iff in Hc. destruct Hc as [Hc Hr].
  now rewrite (H c Hc), (IH Hr).
Qed.

(** ** The format of an API key *)

(** A hexadecimal digit or a dash. *)
Lemma hexRun_spec n : forall s r,
  hexRun n s = Some r ->
  exists p, s = (p ++ r)%string /\ String.length p = n /\ allChars isHex p = true.
Proof.
  induction n as [| n IH]; intros s r; simpl.
  - intros [= <-]. exists "". repeat split.
  - destruct s as [| c rest]; [discriminate |].
    destruct (isHex c) eqn:Hc; [| discriminate].
    intros H. destruct (IH rest r H) as (p & -> & Hl & Ha).
    exists (String c p). simpl. rewrite Hc, Hl, Ha. repeat split.
Qed.

Lemma dash_spec s r : dash s = Some r -> s = String "-" r.
Proof.
  destruct s as [| c rest]; simpl; [discriminate |].
  destruct (Ascii.eqb_spec c "-"%char); [| discriminate].
  intros [= <-]. now subst.
Qed.

Lemma andThen_Some {A B : Type} (o : option A) (f : A -> option B) b :
  andThen o f = Some b -> exists a, o = Some a /\ f a = Some b.
Proof. destruct o; simpl; [eauto | discriminate]. Qed.

Lemma uuidRegex_test_shape u :
  uuidRegex_test u = true ->
  String.length u = 36%nat /\
  allChars (fun c => isHex c || Ascii.eqb c "-"%char) u = true.
Proof.
  unfold uuidRegex_test.
  destruct (andThen (hexRun 8 u) _) as [[| ? ?] |] eqn:E; try discriminate.
  intros _.
  repeat match type of E with
         | andThen _ _ = Some _ =>
             apply andThen_Some in E;
             let x := fresh "x" in let H := fresh "H" in
             destruct E as (x & H & E)
         end.
  repeat match goal with
         | H : hexRun _ _ = Some _ |- _ =>
             apply hexRun_spec in H;
             let p := fresh "p" in let Hl := fresh "Hl" in let Ha := fresh "Ha" in
             destruct H as (p & -> & Hl & Ha)
         | H : dash _ = Some _ |- _ => apply dash_spec in H; subst
         end.
  assert (Hhex : forall p, allChars isHex p = true ->
                   allChars (fun c => isHex c || Ascii.eqb c "-"%char) p = true).
  { intros q. apply allChars_impl. intros c ->. reflexivity. }
  split.
  - repeat (rewrite length_app_string || cbn [String.length]). lia.
  - repeat (rewrite allChars_app || cbn [allChars]).
    rewrite !Hhex by assumption. reflexivity.
Qed.

Lemma uuidRegex_test_no_colon u :
  uuidRegex_test u = true -> someChar (Ascii.eqb ":"%char) u = false.
Proof.
  intros H. apply uuidRegex_test_shape in H. destruct H as [_ H].
  revert H. apply allChars_someChar. intros c Hc.
  destruct (Ascii.eqb_spec ":"%char c) as [<- |]; [discriminate Hc | reflexivity].
Qed.

(** The keys [validateApiKeyFormat] accepts are the strings [uuid:token]
    in which [uuid] is 36 characters long and matches the pattern 8-4-4-4-12
    of hexadecimal digits (of either case), and [token] has at least 32
    characters, none of them a colon. *)
Theorem validateApiKeyFormat_accepts (apiKey : value) :
  validateApiKeyFormat apiKey = true <->
  exists uuid token,
    apiKey = VStr (uuid ++ ":" ++ token)%string /\
    uuidRegex_test uuid = true /\
    String.length uuid = 36%nat /\
    someChar (Ascii.eqb ":"%char) token = false /\
    (32 <= String.length token)%nat.
Proof.
  split.
  - destruct apiKey as [| | | | s | |]; try discriminate. simpl.
    destruct (String.eqb s ""); [discriminate |].
    destruct (splitOn ":"%char s) as [| uuid [| token [| ? ?]]] eqn:Es; try discriminate.
    destruct (uuidRegex_test uuid) eqn:Eu; [| discriminate]. simpl.
    destruct (Nat.ltb_spec (String.length token) 32) as [| Hl]; [discriminate |].
    intros _. apply splitOn_two in Es. destruct Es as (-> & _ & Ht).
    exists uuid, token. repeat split; auto.
    now apply uuidRegex_test_shape.
  - intros (uuid & token & -> & Hu & _ & Ht & Hl). simpl.
    destruct (String.eqb_spec (uuid ++ String ":" token)%string "") as [E |].
    { destruct uuid; discriminate E. }
    change (uuid ++ ":" ++ token)%string with (uuid ++ String ":" token)%string.
    rewrite splitOn_app by now apply uuidRegex_test_no_colon.
    rewrite (splitOn_none _ _ Ht), Hu. simpl.
    destruct (Nat.ltb_spec (String.length token) 32); [lia | reflexivity].
Qed.

(** ** The two validators of a key *)

Lemma trimEnd_id s :
  allChars (fun c => negb (isSpace c)) s = true -> trimEnd s = s.
Proof.
  induction s as [| c rest IH]; simpl; [reflexivity |].
  intros H. apply andb_true_iff in H. destruct H as [Hc Hr].
  rewrite (IH Hr). destruct rest; [| reflexivity].
  apply negb_true_iff in Hc. now rewrite Hc.
Qed.

Lemma trimStart_id s :
  allChars (fun c => negb (isSpace c)) s = true -> trimStart s = s.
Proof.
  destruct s as [| c rest]; simpl; [reflexivity |].
  intros H. apply andb_true_iff in H. destruct H as [Hc _].
  apply negb_true_iff in Hc. now rewrite Hc.
Qed.

Lemma trim_id s : allChars (fun c => negb (isSpace c)) s = true -> trim s = s.
Proof.
  intros H. unfold trim. now rewrite (trimStart_id s H), (trimEnd_id s H).
Qed.

Lemma isKeyChar_not_space c : isKeyChar c = true -> negb (isSpace c) = true.
Proof.
  destruct c as [[] [] [] [] [] [] [] []]; vm_compute; congruence.
Qed.

Lemma validateApiKey_nonempty key : validateApiKey (VStr key) = true -> key <> "".
Proof. intros H ->. discriminate H. Qed.

(** A key the command line accepts and stores can be one the server
    refuses: every key without a colon that [validateApiKey] accepts (a
    dash-separated one, say) makes [getApiKey] throw the format error when
    it is the stored key and [FAL_KEY] is not set. *)
Theorem getApiKey_refuses_stored_key_without_colon (key : string) :
  validateApiKey (VStr key) = true ->
  someChar (Ascii.eqb ":"%char) key = false ->
  getApiKey (storedKey key) = Throw (Error badKeyMessage).
Proof.
  intros Hv Hc. unfold getApiKey, storedKey. cbn [FAL_KEY truthyStr hasStoredApiKey
    retrieveApiKey bind].
  destruct (String.eqb_spec key "") as [-> | _]; [discriminate Hv |].
  unfold validateApiKeyFormat.
  destruct (String.eqb key ""); [reflexivity |].
  rewrite (splitOn_none _ _ Hc). reflexivity.
Qed.

Lemma getApiKey_refuses_stored_key_without_colon_witness :
  getApiKey (storedKey dashedKey) = Throw (Error badKeyMessage).
Proof.
  apply (getApiKey_refuses_stored_key_without_colon dashedKey); reflexivity.
Defined.

(** The other way round: a key of the server's format, made of the
    characters the command line allows and at most 200 of them, is accepted
    by [validateApiKey]. *)
Theorem validateApiKey_accepts_server_format (key : string) :
  validateApiKeyFormat (VStr key) = true ->
  allChars isKeyChar key = true ->
  (String.length key <= 200)%nat ->
  validateApiKey (VStr key) = true.
Proof.
  intros Hf Hc Hl.
  assert (Hshape : exists uuid token,
             key = (uuid ++ String ":" token)%string /\
             String.length uuid = 36%nat /\ (32 <= String.length token)%nat).
  { revert Hf. simpl. destruct (String.eqb key ""); [discriminate |].
    destruct (splitOn ":"%char key) as [| uuid [| token [| ? ?]]] eqn:Es;
      try discriminate.
    destruct (uuidRegex_test uuid) eqn:Eu; [| discriminate]. simpl.
    destruct (Nat.ltb_spec (String.length token) 32) as [| Ht]; [discriminate |].
    intros _. apply splitOn_two in Es. destruct Es as (-> & _ & _).
    exists uuid, token. repeat split; auto. now apply uuidRegex_test_shape. }
  destruct Hshape as (uuid & token & Hk & Hu & Ht).
  assert (Hlen : (69 <= String.length key)%nat).
  { rewrite Hk, length_app_string. simpl. lia. }
  assert (Hsep : someChar isSeparator key = true).
  { rewrite Hk, someChar_app. simpl. apply orb_true_r. }
  unfold validateApiKey.
  rewrite (trim_id key) by (revert Hc; apply allChars_impl, isKeyChar_not_space).
  destruct (String.eqb_spec key "") as [-> | _]; [simpl in Hlen; lia |].
  destruct (Nat.ltb_spec (String.length key) 10); [lia |].
  rewrite Hc, Hsep.
  rewrite (proj2 (Nat.leb_le 10 (String.length key))) by lia.
  rewrite (proj2 (Nat.leb_le (String.length key) 200)) by lia.
  reflexivity.
Qed.

Lemma validateApiKey_accepts_server_format_witness :
  validateApiKey (VStr sampleKey) = true.
Proof.
  apply (validateApiKey_accepts_server_format sampleKey);
    [reflexivity | reflexivity | vm_compute; lia].
Defined.

(** ** The [generate_image] handler *)

(** Whenever the handler goes on to the spending check, the prompt is a
    string of at most 2000 characters with at least 3 characters between
    its leading and trailing white space. *)
Lemma checkPrompt_bounds p s :
  checkPrompt p = Return s ->
  p = VStr s /\ (3 <= String.length (trim s))%nat /\ (String.length s <= 2000)%nat.
Proof.
  unfold checkPrompt. destruct (truthy p); simpl; [| discriminate].
  destruct p as [| | | | s' | |]; try discriminate.
  destruct (Nat.ltb_spec (String.length (trim s')) 3); [discriminate |].
  destruct (Nat.ltb_spec 2000 (String.length s')); [discriminate |].
  intros [= ->]. repeat split; assumption.
Qed.

(** The handler answers, or asks for confirmation, only for a prompt
    within bounds: a string of at most 2000 characters whose trimmed length
    is at least 3.  Every other prompt makes it throw. *)
Theorem generate_image_prompt_bounds (w : World) (numeric : value -> float)
  (loaded : Throws (list (ModelConfig float))) (src : KeySources)
  (args : GenerateImageArgs) (cwd today genId : string) :
  thrown (generate_image w numeric loaded src args cwd today genId) = false ->
  exists s,
    arg_prompt args = VStr s /\
    (3 <= String.length (trim s))%nat /\
    (String.length s <= 2000)%nat.
Proof.
  unfold generate_image.
  destruct (getApiKey src) as [key | e]; [| discriminate].
  destruct (checkPrompt (arg_prompt args)) as [s | e] eqn:Ep; [| discriminate].
  intros _. exists s. now apply checkPrompt_bounds.
Qed.

Lemma generate_image_prompt_bounds_witness :
  exists s,
    arg_prompt (sampleArgs "  a cat  ") = VStr s /\
    (3 <= String.length (trim s))%nat /\
    (String.length s <= 2000)%nat.
Proof.
  apply (generate_image_prompt_bounds sampleWorld toNaN (Return sampleCatalog)
           (envKey sampleKey) (sampleArgs "  a cat  ") "/home/user" "2025-01-01"
           "gen_1_abcde").
  vm_compute. reflexivity.
Defined.

(** A response of the handler has [success: true] exactly when it carries
    at least one image: a generation that failed is answered with
    [success: false], no image and empty parameters, not thrown. *)
Theorem generate_image_success_iff_images (w : World) (numeric : value -> float)
  (loaded : Throws (list (ModelConfig float))) (src : KeySources)
  (args : GenerateImageArgs) (cwd today genId : string)
  (r : GenerateImageResponse) :
  generate_image w numeric loaded src args cwd today genId = Responded r ->
  (resp_success r = true <-> resp_images r <> []) /\
  (resp_success r = false -> resp_images r = [] /\ resp_parameters r = VObj []).
Proof.
  unfold generate_image.
  destruct (getApiKey src) as [key | e]; [| discriminate].
  destruct (checkPrompt (arg_prompt args)) as [s | e]; [| discriminate].
  destruct (getProp _ "num_images") as [n | e]; [| discriminate].
  destruct (checkSpending _ _); [discriminate |].
  intros [= <-]. cbn [resp_success resp_images resp_parameters].
  destruct (generateSingleImage _ _ _ _ _) as [ok | ko] eqn:E; cbn.
  - apply generateSingleImage_success_images in E.
    destruct E as (result & _ & _ & Hne).
    split; [split; [intros _; exact Hne | reflexivity] | discriminate].
  - split; [split; [discriminate | intros H; now elim H] | intros _; split; reflexivity].
Qed.

Lemma generate_image_success_iff_images_witness :
  exists r,
    generate_image sampleWorld toNaN (Return sampleCatalog) (envKey sampleKey)
      (sampleArgs "a cat") "/home/user" "2025-01-01" "gen_1_abcde" = Responded r /\
    (resp_success r = true <-> resp_images r <> []) /\
    (resp_success r = false -> resp_images r = [] /\ resp_parameters r = VObj []).
Proof.
  eexists. split; [vm_compute; reflexivity |].
  apply (generate_image_success_iff_images sampleWorld toNaN (Return sampleCatalog)
           (envKey sampleKey) (sampleArgs "a cat") "/home/user" "2025-01-01"
           "gen_1_abcde").
  vm_compute. reflexivity.
Defined.

(** ** The parameters shared by the selected models *)

Lemma includesStr_In l x : includesStr l x = true <-> In x l.
Proof.
  unfold includesStr. rewrite existsb_exists. split.
  - intros (y & Hin & E). apply String.eqb_eq in E. now subst.
  - intros H. exists x. split; [exact H | apply String.eqb_refl].
Qed.

(** What the intersection keeps of a starting list: the entries every model
    with the field supports, in their order. *)
Lemma sharedOptions_fold (field : LoadedModel -> option (list string)) models :
  forall start r,
  In r (fold_left
          (fun common m =>
             match field m with
             | None => common
             | Some supported => filter (includesStr supported) common
             end) models start) <->
  In r start /\ forall m l, In m models -> field m = Some l -> In r l.
Proof.
  induction models as [| m ms IH]; intros start r; simpl.
  - split; [intros H; split; [exact H | intros ? ? []] | intros [H _]; exact H].
  - rewrite IH. destruct (field m) as [l |] eqn:E.
    + rewrite filter_In, includesStr_In. split.
      * intros [[Hs Hl] Hrest]. split; [exact Hs |].
        intros m' l' [<- | Hin] E'; [congruence | eauto].
      * intros [Hs Hall]. split; [split; [exact Hs | eauto] | eauto].
    + split.
      * intros [Hs Hrest]. split; [exact Hs |].
        intros m' l' [<- | Hin] E'; [congruence | eauto].
      * intros [Hs Hall]. split; [exact Hs | eauto].
Qed.

Lemma choiceOf_Some shared p :
  choiceOf shared = Some p ->
  choice_options p = shared /\ hd_error shared = Some (choice_default p).
Proof.
  destruct shared as [| x xs]; simpl; [discriminate |].
  intros [= <-]. split; reflexivity.
Qed.

(** Every option [getSharedParameters] offers for the aspect ratio and for
    the output format is one the first model lists and one that every model
    with such a list supports; the default offered is the first option. *)
Theorem getSharedParameters_options_supported (models : list LoadedModel) :
  (forall p, aspect_ratio (getSharedParameters models) = Some p ->
     hd_error (choice_options p) = Some (choice_default p) /\
     forall r, In r (choice_options p) <->
       (exists l, option_map supportedAspectRatios (hd_error models) = Some (Some l)
                  /\ In r l) /\
       forall m l, In m models -> supportedAspectRatios m = Some l -> In r l) /\
  (forall p, output_format (getSharedParameters models) = Some p ->
     hd_error (choice_options p) = Some (choice_default p) /\
     forall r, In r (choice_options p) <->
       (exists l, option_map supportedFormats (hd_error models) = Some (Some l)
                  /\ In r l) /\
       forall m l, In m models -> supportedFormats m = Some l -> In r l).
Proof.
  assert (H : forall field p,
            choiceOf (sharedOptions field models) = Some p ->
            hd_error (choice_options p) = Some (choice_default p) /\
            forall r, In r (choice_options p) <->
              (exists l, option_map field (hd_error models) = Some (Some l) /\ In r l) /\
              forall m l, In m models -> field m = Some l -> In r l).
  { intros field p Hp. apply choiceOf_Some in Hp. destruct Hp as [-> Hd].
    split; [exact Hd |]. intros r. unfold sharedOptions.
    rewrite sharedOptions_fold. apply and_iff_compat_r.
    destruct models as [| first rest]; simpl.
    - split; [intros [] | intros (l & E & _); discriminate E].
    - destruct (field first) as [l |].
      + split; [intros Hin; exists l; auto | intros (l' & [= <-] & Hin); exact Hin].
      + split; [intros [] | intros (l' & E & _); discriminate E]. }
  destruct models as [| first rest]; [split; intros p; discriminate |].
  split; intros p Hp; apply H; exact Hp.
Qed.

(** The intersection starts from the lists of the first model: when the
    first model lists no aspect ratios, none is offered, whatever the other
    models support; a model without the list later in the selection is
    passed over. *)
Theorem getSharedParameters_first_model_decides (first : LoadedModel)
  (rest : list LoadedModel) :
  (supportedAspectRatios first = None ->
   aspect_ratio (getSharedParameters (first :: rest)) = None) /\
  (forall m, supportedAspectRatios m = None ->
   aspect_ratio (getSharedParameters (first :: rest ++ [m])) =
   aspect_ratio (getSharedParameters (first :: rest))).
Proof.
  split.
  - intros E. simpl. unfold sharedOptions. simpl. rewrite E.
    assert (Hnil : forall ms : list LoadedModel,
              fold_left
                (fun common m =>
                   match supportedAspectRatios m with
                   | None => common
                   | Some supported => filter (includesStr supported) common
                   end) ms [] = []).
    { induction ms as [| m ms IH]; simpl; [reflexivity |].
      destruct (supportedAspectRatios m); exact IH. }
    rewrite Hnil. reflexivity.
  - intros m E. simpl. unfold sharedOptions. cbn [app].
    change (first :: rest ++ [m]) with ((first :: rest) ++ [m]).
    rewrite fold_left_app. simpl. rewrite E. reflexivity.
Qed.

(** ** The complexity estimate of a prompt *)

Lemma splitRunsFrom_nonempty isSep s : forall inRun,
  splitRunsFrom isSep inRun s <> [].
Proof.
  induction s as [| c rest IH]; intros inRun; simpl; [discriminate |].
  destruct (isSep c).
  - destruct inRun; [apply IH | discriminate].
  - destruct (splitRunsFrom isSep false rest); discriminate.
Qed.

Lemma bonus_bounds prompt terms points : forall score,
  0 <= points ->
  score <= bonus prompt terms points score
        <= score + points * Z.of_nat (List.length terms).
Proof.
  unfold bonus. induction terms as [| t ts IH]; intros score Hp.
  - simpl. lia.
  - cbn [fold_left List.length]. rewrite Nat2Z.inj_succ.
    destruct (includes (toLowerCase prompt) t).
    + specialize (IH (score + points) Hp). lia.
    + specialize (IH score Hp). lia.
Qed.

(** The score of every prompt lies between 2 and 100: even the empty
    prompt counts as one word. *)
Theorem estimateComplexity_bounds (prompt : string) :
  2 <= estimateComplexity prompt <= 100.
Proof.
  unfold estimateComplexity. cbv zeta.
  set (words := splitRuns isSpace prompt).
  assert (Hw : 1 <= Z.of_nat (List.length words)).
  { subst words. unfold splitRuns.
    pose proof (splitRunsFrom_nonempty isSpace prompt false) as H.
    destruct (splitRunsFrom isSpace false prompt); [congruence | simpl; lia]. }
  pose proof (bonus_bounds prompt adjectives 5
                (0 + Z.min (Z.of_nat (List.length words) * 2) 40)) as Ha.
  set (a := bonus prompt adjectives 5 _) in *.
  pose proof (bonus_bounds prompt technical 8 a) as Ht.
  set (t := bonus prompt technical 8 a) in *.
  destruct (1 <? _); lia.
Qed.

Lemma includes_first_char s c sub :
  includes s (String c sub) = true -> someChar (Ascii.eqb c) s = true.
Proof.
  induction s as [| d rest IH]; simpl; [discriminate |].
  destruct (Ascii.eqb_spec c d) as [-> | Hne].
  - intros _. reflexivity.
  - destruct (ascii_dec c d) as [-> | _]; [contradiction |].
    simpl. exact IH.
Qed.

Lemma lowerChar_not_H c : Ascii.eqb "H"%char (lowerChar c) = false.
Proof.
  destruct c as [[] [] [] [] [] [] [] []]; vm_compute; reflexivity.
Qed.

Lemma toLowerCase_no_H s : someChar (Ascii.eqb "H"%char) (toLowerCase s) = false.
Proof.
  induction s as [| c rest IH]; cbn [toLowerCase someChar]; [reflexivity |].
  now rewrite lowerChar_not_H, IH.
Qed.

(** The technical term [HDR] never earns its bonus: the prompt is put in
    lower case before the search and the term is not, so no prompt includes
    it, and the technical bonus is that of the four other terms. *)
Theorem estimateComplexity_HDR_never_counts (prompt : string) (score : Z) :
  includes (toLowerCase prompt) "HDR" = false /\
  bonus prompt technical 8 score =
    bonus prompt ["cinematic"; "professional"; "bokeh"; "macro"] 8 score.
Proof.
  assert (H : includes (toLowerCase prompt) "HDR" = false).
  { destruct (includes (toLowerCase prompt) "HDR") eqn:E; [| reflexivity].
    apply includes_first_char in E. now rewrite toLowerCase_no_H in E. }
  split; [exact H |].
  unfold bonus, technical. cbn [fold_left]. rewrite H. reflexivity.
Qed.

(** ** The text of an optimized prompt *)

Lemma trimStart_head s :
  trimStart s = "" \/
  exists c rest, trimStart s = String c rest /\ isSpace c = false.
Proof.
  induction s as [| c rest IH]; simpl; [now left |].
  destruct (isSpace c) eqn:E; [exact IH |]. right. now exists c, rest.
Qed.

Lemma trimStart_nonspace c rest :
  isSpace c = false -> trimStart (String c rest) = String c rest.
Proof. intros E. simpl. now rewrite E. Qed.

Lemma trimEnd_idem s : trimEnd (trimEnd s) = trimEnd s.
Proof.
  induction s as [| c rest IH]; simpl; [reflexivity |].
  destruct (trimEnd rest) as [| d kept] eqn:E.
  - destruct (isSpace c) eqn:Ec; simpl; [reflexivity | now rewrite Ec].
  - cbn [trimEnd] in *. fold trimEnd in *.
    change (trimEnd (String c (String d kept))) with
      (match trimEnd (String d kept) with
       | EmptyString => if isSpace c then EmptyString else String c EmptyString
       | String a k => String c (String a k)
       end).
    rewrite IH. reflexivity.
Qed.

Lemma trimEnd_head c rest :
  isSpace c = false -> exists kept, trimEnd (String c rest) = String c kept.
Proof.
  intros E. simpl. destruct (trimEnd rest); [rewrite E |]; eauto.
Qed.

(** [trim] leaves a string that [trim] does not change. *)
Lemma trim_idem s : trim (trim s) = trim s.
Proof.
  unfold trim. destruct (trimStart_head s) as [-> | (c & rest & -> & E)].
  - reflexivity.
  - destruct (trimEnd_head c rest E) as [kept Hk]. rewrite Hk.
    rewrite trimStart_nonspace by exact E. rewrite <- Hk. apply trimEnd_idem.
Qed.

Lemma cleanUp_clean text :
  cleanUp text <> "" /\ trim (cleanUp text) = cleanUp text.
Proof.
  unfold cleanUp.
  set (cleaned := trim _).
  assert (Hc : trim cleaned = cleaned) by apply trim_idem.
  destruct (String.eqb_spec cleaned "") as [E | Hne].
  - split; [discriminate | reflexivity].
  - split; assumption.
Qed.

(** Whatever [extractOptimizedPrompt] returns went through the cleaning. *)
Lemma extractOptimizedPrompt_cleanUp result text :
  extractOptimizedPrompt result = Return text -> exists raw, text = cleanUp raw.
Proof.
  unfold extractOptimizedPrompt. intros H.
  repeat match type of H with
         | bind ?m _ = Return _ =>
             apply bind_Return_inv in H; destruct H as (? & _ & H)
         end.
  match type of H with
  | match ?v with _ => _ end = _ => destruct v as [| | | | raw | |]; try discriminate H
  end.
  injection H as <-. now exists raw.
Qed.

(** The text [extractOptimizedPrompt] returns is never empty and has no
    white space at either end: a response without a text it can read gives
    the fallback text, not the empty string. *)
Theorem extractOptimizedPrompt_clean (result : value) (text : string) :
  extractOptimizedPrompt result = Return text ->
  text <> "" /\ trim text = text.
Proof.
  intros H. apply extractOptimizedPrompt_cleanUp in H. destruct H as [raw ->].
  apply cleanUp_clean.
Qed.

Lemma extractOptimizedPrompt_clean_witness :
  "a cat" <> "" /\ trim "a cat" = "a cat".
Proof.
  apply (extractOptimizedPrompt_clean
           (VObj [("output", VObj [("text", VStr "'Optimized Prompt: a cat'")])])
           "a cat").
  reflexivity.
Defined.

(** What [optimizePrompt] hands back as the optimized prompt: on failure
    (the call rejected, or a response that makes the extraction throw) the
    original prompt, unchanged; on success a text that is not empty and has
    no white space at either end. *)
Theorem optimizePrompt_optimized (promptText modelId : string)
  (outcome : ProviderOutcome) :
  let r := optimizePrompt promptText modelId outcome in
  opt_original r = promptText /\
  (opt_success r = false /\ opt_optimized r = promptText /\ opt_improvements r = None
   \/
   opt_success r = true /\ opt_optimized r <> "" /\
   trim (opt_optimized r) = opt_optimized r /\ opt_error r = None).
Proof.
  unfold optimizePrompt.
  destruct (bind (await outcome) _) as [text | e] eqn:E; cbn.
  - split; [reflexivity |]. right.
    destruct outcome as [result | e]; [| discriminate E]. simpl in E.
    apply extractOptimizedPrompt_cleanUp in E. destruct E as [raw ->].
    destruct (cleanUp_clean raw) as [Hne Ht].
    repeat split; assumption.
  - split; [reflexivity |]. left. repeat split.
Qed.

(** A response in which no text is found is still a success: when the
    provider answers with an object that has none of [output], [text] and
    [choices], [optimizePrompt] returns [success: true] with the fallback
    text as the optimized prompt. *)
Theorem optimizePrompt_unreadable_response (promptText modelId : string)
  (props : list (string * value)) :
  truthy (lookup "output" props) = false ->
  truthy (lookup "text" props) = false ->
  truthy (lookup "choices" props) = false ->
  let r := optimizePrompt promptText modelId (Resolved (VObj props)) in
  opt_success r = true /\ opt_optimized r = "Failed to optimize prompt".
Proof.
  intros Ho Ht Hc. unfold optimizePrompt, extractOptimizedPrompt.
  cbn [await bind getProp]. unfold andProp.
  repeat (first [rewrite Ho | rewrite Ht | rewrite Hc]; cbn [bind isString]).
  split; reflexivity.
Qed.

Lemma optimizePrompt_unreadable_response_witness :
  let r := optimizePrompt "a cat" "fal-ai/flux-pro"
             (Resolved (VObj [("result", VStr "a fluffy cat")])) in
  opt_success r = true /\ opt_optimized r = "Failed to optimize prompt".
Proof.
  apply (optimizePrompt_unreadable_response "a cat" "fal-ai/flux-pro"
           [("result", VStr "a fluffy cat")]); reflexivity.
Defined.

(** ** The two estimates of a batch *)

Section Totals.

Context {num : Type} {A : Arith num}.

(** One step of [calculateCost] adds the cost of a priced task to the
    total, whatever the name of its model. *)
Lemma est_totalCost_costStep models (acc : CostEstimate num) (task : CostTask num) :
  est_totalCost (costStep models acc task) =
    match pricedModel models (ct_model task) with
    | Some (_, price) => n_add (est_totalCost acc) (n_mul price (imagesOf task))
    | None => est_totalCost acc
    end.
Proof.
  unfold costStep, imagesOf.
  destruct (pricedModel models (ct_model task)) as [[m price] |]; [| reflexivity].
  destruct (inherited (ct_model task)); reflexivity.
Qed.

Lemma est_totalCost_fold models (tasks : list (CostTask num)) : forall acc,
  est_totalCost (fold_left (costStep models) tasks acc) =
    fold_left
      (fun total task =>
         match pricedModel models (ct_model task) with
         | Some (_, price) => n_add total (n_mul price (imagesOf task))
         | None => total
         end)
      tasks (est_totalCost acc).
Proof.
  induction tasks as [| t ts IH]; intros acc; simpl; [reflexivity |].
  now rewrite IH, est_totalCost_costStep.
Qed.

End Totals.

(** The total of [calculateCost] is the number the spending gate of
    [batch_generate] compares with the limit, bit for bit, whenever every
    task names a priced model and asks for the same number of images in
    both ([imageCount || 1] there, [parameters?.num_images || 1] here). *)
Theorem totalEstimatedCost_agrees_with_calculateCost (numeric : value -> float)
  (models : list (ModelConfig float)) (tasks : list Task)
  (costTasks : list (CostTask float)) :
  Forall2 (fun t ct => ct_model ct = model t /\
                       imagesOf ct = numImagesOf numeric (parameters t))
    tasks costTasks ->
  Forall (fun t => exists m price, pricedModel models (model t) = Some (m, price)) tasks ->
  totalEstimatedCost numeric (Return models) tasks =
    est_totalCost (calculateCost costTasks models).
Proof.
  intros H2 Hp. unfold calculateCost, totalEstimatedCost.
  rewrite est_totalCost_fold. cbn [est_totalCost].
  change (@n_zero float float_arith) with 0%float.
  generalize 0%float.
  revert Hp. induction H2 as [| t ct ts cts [Hm Hn] _ IH]; intros Hp a0.
  - reflexivity.
  - inversion Hp as [| ? ? (m & price & Ht) Hrest]; subst.
    cbn [fold_left]. rewrite Hm, Hn, Ht. unfold calculateGenerationCost at 2.
    rewrite Ht. apply IH. exact Hrest.
Qed.

Lemma totalEstimatedCost_agrees_with_calculateCost_witness :
  totalEstimatedCost toNaN (Return sampleCatalog) sampleTasks =
    est_totalCost
      (calculateCost (repeat {| ct_model := "fal-ai/flux/dev"; ct_imageCount := None |} 3)
         sampleCatalog).
Proof.
  apply (totalEstimatedCost_agrees_with_calculateCost toNaN sampleCatalog sampleTasks
           (repeat {| ct_model := "fal-ai/flux/dev"; ct_imageCount := None |} 3)).
  - repeat constructor.
  - repeat constructor; eexists; eexists; reflexivity.
Defined.

(** ** The order of binary64 numbers *)

Lemma SFleb_trans a b c :
  SFleb a b = true -> SFleb b c = true -> SFleb a c = true.
Proof.
  unfold SFleb.
  destruct a as [sa | sa | | sa ma ea], b as [sb | sb | | sb mb eb],
    c as [sc | sc | | sc mc ec]; simpl;
    try discriminate; try reflexivity;
    repeat match goal with s : bool |- _ => destruct s end;
    simpl; try discriminate; try reflexivity; try (intros; discriminate);
    change (PosDef.Pos.compare_cont Eq) with Pos.compare;
    destruct (Z.compare_spec ea eb); subst;
    destruct (Z.compare_spec eb ec); subst;
    try (intros; discriminate);
    try (rewrite Z.compare_refl);
    try (match goal with
         | H1 : (?x < ?y)%Z, H2 : (?y < ?z)%Z |- _ =>
             rewrite (proj2 (Z.compare_lt_iff x z)) by lia
         | H1 : (?y < ?x)%Z, H2 : (?z < ?y)%Z |- _ =>
             rewrite (proj2 (Z.compare_gt_iff x z)) by lia
         | H1 : (?x < ?y)%Z |- context [(?x ?= ?y)%Z] =>
             rewrite (proj2 (Z.compare_lt_iff x y)) by lia
         | H1 : (?y < ?x)%Z |- context [(?x ?= ?y)%Z] =>
             rewrite (proj2 (Z.compare_gt_iff x y)) by lia
         end);
    try reflexivity; try (intros; reflexivity);
    destruct (Pos.compare_spec ma mb); subst;
    destruct (Pos.compare_spec mb mc); subst;
    simpl; try (intros; discriminate);
    try rewrite Pos.compare_refl; simpl; try (intros; reflexivity);
    try (match goal with
         | H1 : (?x < ?y)%positive, H2 : (?y < ?z)%positive |- _ =>
             rewrite (proj2 (Pos.compare_lt_iff x z)) by lia
         | H1 : (?y < ?x)%positive, H2 : (?z < ?y)%positive |- _ =>
             rewrite (proj2 (Pos.compare_gt_iff x z)) by lia
         | H1 : (?x < ?y)%positive |- context [(?x ?= ?y)%positive] =>
             rewrite (proj2 (Pos.compare_lt_iff x y)) by lia
         | H1 : (?y < ?x)%positive |- context [(?x ?= ?y)%positive] =>
             rewrite (proj2 (Pos.compare_gt_iff x y)) by lia
         end);
    simpl; try (intros; reflexivity).
Qed.

Lemma float_leb_trans (a b c : float) :
  (a <=? b)%float = true -> (b <=? c)%float = true -> (a <=? c)%float = true.
Proof. rewrite !leb_spec. apply SFleb_trans. Qed.

Lemma is_nan_Prim2SF (a : float) :
  PrimFloat.is_nan a = false -> Prim2SF a <> S754_nan.
Proof.
  unfold PrimFloat.is_nan. rewrite eqb_spec. unfold SFeqb. intros H E.
  rewrite E in H. discriminate H.
Qed.

Lemma float_leb_refl (a : float) :
  PrimFloat.is_nan a = false -> (a <=? a)%float = true.
Proof.
  intros H. rewrite leb_spec. unfold SFleb.
  now rewrite (SFcompare_refl _ (is_nan_Prim2SF a H)).
Qed.

Lemma float_ltb_leb (a b : float) : (a <? b)%float = true -> (a <=? b)%float = true.
Proof.
  rewrite ltb_spec, leb_spec. unfold SFltb, SFleb.
  destruct (SFcompare (Prim2SF a) (Prim2SF b)) as [[| |] |]; congruence.
Qed.

Lemma float_leb_not_nan (a b : float) :
  (a <=? b)%float = true -> PrimFloat.is_nan a = false /\ PrimFloat.is_nan b = false.
Proof.
  unfold PrimFloat.is_nan. rewrite leb_spec, !eqb_spec. unfold SFleb, SFeqb.
  destruct (Prim2SF a) as [sa | sa | | sa ma ea] eqn:Ea,
           (Prim2SF b) as [sb | sb | | sb mb eb] eqn:Eb;
    try discriminate; intros _;
    rewrite !SFcompare_refl by discriminate; split; reflexivity.
Qed.

(** Neither below the other: each is at most the other. *)
Lemma float_not_ltb_leb (a b : float) :
  PrimFloat.is_nan a = false -> PrimFloat.is_nan b = false ->
  (a <? b)%float = false -> (b <? a)%float = false ->
  (a <=? b)%float = true /\ (b <=? a)%float = true.
Proof.
  intros Ha Hb. apply is_nan_Prim2SF in Ha, Hb.
  rewrite !ltb_spec, !leb_spec. unfold SFltb, SFleb.
  rewrite (SFcompare_antisym (Prim2SF a) (Prim2SF b)).
  destruct (Prim2SF a) as [sa | sa | | sa ma ea],
           (Prim2SF b) as [sb | sb | | sb mb eb]; try congruence;
    match goal with
    | |- context [SFcompare ?x ?y] => destruct (SFcompare x y) as [[| |] |] eqn:E
    end; simpl; try congruence; try (split; reflexivity);
    simpl in E; repeat match goal with s : bool |- _ => destruct s end;
    discriminate E.
Qed.

Lemma jsMin_le (a b : float) :
  PrimFloat.is_nan a = false -> PrimFloat.is_nan b = false ->
  (jsMin a b <=? a)%float = true /\ (jsMin a b <=? b)%float = true.
Proof.
  intros Ha Hb. unfold jsMin. rewrite Ha, Hb. cbn [orb].
  destruct (a <? b)%float eqn:Hab.
  - split; [now apply float_leb_refl | now apply float_ltb_leb].
  - destruct (b <? a)%float eqn:Hba.
    + split; [now apply float_ltb_leb | now apply float_leb_refl].
    + destruct (float_not_ltb_leb a b Ha Hb Hab Hba) as [H1 H2].
      destruct (PrimFloat.get_sign a);
        (split; [first [now apply float_leb_refl | assumption]
                | first [now apply float_leb_refl | assumption]]).
Qed.

Lemma jsMax_ge (a b : float) :
  PrimFloat.is_nan a = false -> PrimFloat.is_nan b = false ->
  (a <=? jsMax a b)%float = true /\ (b <=? jsMax a b)%float = true.
Proof.
  intros Ha Hb. unfold jsMax. rewrite Ha, Hb. cbn [orb].
  destruct (a <? b)%float eqn:Hab.
  - split; [now apply float_ltb_leb | now apply float_leb_refl].
  - destruct (b <? a)%float eqn:Hba.
    + split; [now apply float_leb_refl | now apply float_ltb_leb].
    + destruct (float_not_ltb_leb a b Ha Hb Hab Hba) as [H1 H2].
      destruct (PrimFloat.get_sign a);
        (split; [first [now apply float_leb_refl | assumption]
                | first [now apply float_leb_refl | assumption]]).
Qed.

Lemma truthy_num_not_nan (c : float) : truthy_num c = true -> PrimFloat.is_nan c = false.
Proof.
  unfold truthy_num. intros H. apply negb_true_iff, orb_false_iff in H. tauto.
Qed.

(** ** The statistics of the loaded models *)

Lemma statsStep_costRange stats total m :
  costRange (fst (statsStep (stats, total) m)) =
    match truthyNum (mm_costPerImage m) with
    | Some c =>
        {| range_min := jsMin (range_min (costRange stats)) c;
           range_max := jsMax (range_max (costRange stats)) c;
           range_average := range_average (costRange stats) |}
    | None => costRange stats
    end.
Proof.
  unfold statsStep. destruct (truthyNum (mm_costPerImage m)); reflexivity.
Qed.

Lemma truthyNum_not_nan x c : truthyNum x = Some c -> PrimFloat.is_nan c = false.
Proof.
  unfold truthyNum. destruct x as [c' |]; [| discriminate].
  destruct (truthy_num c') eqn:Et; [| discriminate].
  intros [= <-]. now apply truthy_num_not_nan.
Qed.

(** What the loop of [getModelStats] does to the cost range: the bounds
    only widen, and they enclose the cost of every priced model. *)
Lemma statsStep_range (ms : list ManagedModel) : forall acc,
  PrimFloat.is_nan (range_min (costRange (fst acc))) = false ->
  PrimFloat.is_nan (range_max (costRange (fst acc))) = false ->
  let range := costRange (fst (fold_left statsStep ms acc)) in
  PrimFloat.is_nan (range_min range) = false /\
  PrimFloat.is_nan (range_max range) = false /\
  (range_min range <=? range_min (costRange (fst acc)))%float = true /\
  (range_max (costRange (fst acc)) <=? range_max range)%float = true /\
  forall m c, In m ms -> truthyNum (mm_costPerImage m) = Some c ->
    (range_min range <=? c)%float = true /\ (c <=? range_max range)%float = true.
Proof.
  induction ms as [| m ms IH]; intros [stats total] Hlo Hhi; cbn [fold_left fst] in *.
  - cbv zeta. split; [assumption | split; [assumption |]].
    split; [now apply float_leb_refl | split; [now apply float_leb_refl |]].
    intros m c [].
  - cbv zeta. specialize (IH (statsStep (stats, total) m)). cbv zeta in IH.
    rewrite statsStep_costRange in IH.
    destruct (truthyNum (mm_costPerImage m)) as [c |] eqn:Ec;
      cbn [range_min range_max] in IH.
    + pose proof (truthyNum_not_nan _ _ Ec) as Hc.
      destruct (jsMin_le (range_min (costRange stats)) c Hlo Hc) as [Hm1 Hm2].
      destruct (jsMax_ge (range_max (costRange stats)) c Hhi Hc) as [HM1 HM2].
      destruct IH as (Hn1 & Hn2 & Hle & Hge & Hall).
      { now apply float_leb_not_nan in Hm1. }
      { now apply float_leb_not_nan in HM1. }
      split; [exact Hn1 | split; [exact Hn2 |]].
      split; [exact (float_leb_trans _ _ _ Hle Hm1) |].
      split; [exact (float_leb_trans _ _ _ HM1 Hge) |].
      intros m' c' [<- | Hin] Hc'; [| exact (Hall m' c' Hin Hc')].
      rewrite Ec in Hc'. injection Hc' as <-.
      split; [exact (float_leb_trans _ _ _ Hle Hm2) | exact (float_leb_trans _ _ _ HM2 Hge)].
    + destruct (IH Hlo Hhi) as (Hn1 & Hn2 & Hle & Hge & Hall).
      split; [exact Hn1 | split; [exact Hn2 |]].
      split; [exact Hle | split; [exact Hge |]].
      intros m' c' [<- | Hin] Hc'; [congruence | exact (Hall m' c' Hin Hc')].
Qed.

(** A number at most a finite one is not [Infinity]. *)
Lemma float_leb_finite_not_infinity (a c : float) :
  (a <=? c)%float = true -> (c <? PrimFloat.infinity)%float = true ->
  (a =? PrimFloat.infinity)%float = false.
Proof.
  rewrite leb_spec, ltb_spec, eqb_spec. unfold SFleb, SFltb, SFeqb.
  change (Prim2SF PrimFloat.infinity) with (S754_infinity false).
  destruct (Prim2SF a) as [sa | sa | | sa ma ea], (Prim2SF c) as [sc | sc | | sc mc ec];
    simpl; repeat match goal with s : bool |- _ => destruct s end;
    simpl; congruence.
Qed.

(** The cost range of [getModelStats] encloses the cost of every priced
    model, as soon as one priced model has a finite cost: [min <= c <= max]
    for the cost [c] of such a model. *)
Theorem getModelStats_costRange_bounds (loaded : list ManagedModel)
  (m : ManagedModel) (c : float) :
  In m loaded ->
  mm_costPerImage m = Some c ->
  truthy_num c = true ->
  (c <? PrimFloat.infinity)%float = true ->
  (range_min (costRange (getModelStats loaded)) <=? c)%float = true /\
  (c <=? range_max (costRange (getModelStats loaded)))%float = true.
Proof.
  intros Hin Hc Ht Hfin. unfold getModelStats.
  match goal with
  | |- context [fold_left statsStep loaded ?a] =>
      pose proof (statsStep_range loaded a eq_refl eq_refl) as H;
      destruct (fold_left statsStep loaded a) as [stats total]
  end.
  cbv zeta in H. cbn [fst] in H. destruct H as (_ & _ & _ & _ & Hall).
  assert (Hp : truthyNum (mm_costPerImage m) = Some c).
  { rewrite Hc. unfold truthyNum. now rewrite Ht. }
  destruct (Hall m c Hin Hp) as [Hlo Hhi].
  rewrite (float_leb_finite_not_infinity _ _ Hlo Hfin). cbn [costRange range_min range_max].
  split; assumption.
Qed.

Lemma getModelStats_costRange_bounds_witness :
  (range_min (costRange (getModelStats sampleModels)) <=? 0.025)%float = true /\
  (0.025 <=? range_max (costRange (getModelStats sampleModels)))%float = true.
Proof.
  apply (getModelStats_costRange_bounds sampleModels
           {| mm_id := "fal-ai/flux/dev"; mm_type := Some "image";
              mm_costPerImage := Some 0.025%float;
              mm_capabilities := Some ["Text-to-Image"; "High Quality"] |}
           0.025%float); [left | | |]; reflexivity.
Defined.

Lemma statsStep_unpriced (ms : list ManagedModel) : forall acc,
  (forall m, In m ms -> truthyNum (mm_costPerImage m) = None) ->
  costRange (fst (fold_left statsStep ms acc)) = costRange (fst acc).
Proof.
  induction ms as [| m ms IH]; intros [stats total] H; cbn [fold_left]; [reflexivity |].
  rewrite IH by (intros m' Hin; apply H; now right).
  rewrite statsStep_costRange, (H m) by now left. reflexivity.
Qed.

(** When no model has a price (none at all, or a [costPerImage] of 0), the
    cost range is reported as [min: 0, max: 0], not as the infinities it
    starts from. *)
Theorem getModelStats_costRange_unpriced (loaded : list ManagedModel) :
  (forall m, In m loaded -> truthyNum (mm_costPerImage m) = None) ->
  range_min (costRange (getModelStats loaded)) = 0%float /\
  range_max (costRange (getModelStats loaded)) = 0%float.
Proof.
  intros H. unfold getModelStats.
  match goal with
  | |- context [fold_left statsStep loaded ?a] =>
      pose proof (statsStep_unpriced loaded a H) as E;
      destruct (fold_left statsStep loaded a) as [stats total]
  end.
  cbn [fst costRange] in E. rewrite E. cbn. split; reflexivity.
Qed.

Lemma getModelStats_costRange_unpriced_witness :
  range_min (costRange (getModelStats
    [ {| mm_id := "acme/flux-clone"; mm_type := Some "image";
         mm_costPerImage := Some 0%float; mm_capabilities := None |} ])) = 0%float /\
  range_max (costRange (getModelStats
    [ {| mm_id := "acme/flux-clone"; mm_type := Some "image";
         mm_costPerImage := Some 0%float; mm_capabilities := None |} ])) = 0%float.
Proof.
  apply (getModelStats_costRange_unpriced
    [ {| mm_id := "acme/flux-clone"; mm_type := Some "image";
         mm_costPerImage := Some 0%float; mm_capabilities := None |} ]).
  intros m [<- | []]. reflexivity.
Defined.

(** ** Filtering the loaded models *)

(** The cost bounds of [getFilteredModels] at their edges.  A [maxCost] of
    0 filters nothing, being falsy: the result is the one without the
    bound.  And a model without [costPerImage] passes every cost bound: it
    is kept exactly when it is kept without them. *)
Theorem getFilteredModels_cost_bound_edges (loaded : list ManagedModel)
  (t p : option string) (lo hi : option float) (caps : option Capabilities) :
  getFilteredModels loaded
    {| flt_type := t; flt_provider := p; flt_maxCost := Some 0%float;
       flt_minCost := lo; flt_capabilities := caps |} =
  getFilteredModels loaded
    {| flt_type := t; flt_provider := p; flt_maxCost := None;
       flt_minCost := lo; flt_capabilities := caps |} /\
  forall m, mm_costPerImage m = None ->
    (In m (getFilteredModels loaded
             {| flt_type := t; flt_provider := p; flt_maxCost := hi;
                flt_minCost := lo; flt_capabilities := caps |}) <->
     In m (getFilteredModels loaded
             {| flt_type := t; flt_provider := p; flt_maxCost := None;
                flt_minCost := None; flt_capabilities := caps |})).
Proof.
  split; [reflexivity |].
  intros m Hm. unfold getFilteredModels. rewrite !filter_In.
  apply and_iff_compat_l.
  unfold keeps, costAbove, costBelow. cbn [flt_type flt_provider flt_maxCost
    flt_minCost flt_capabilities truthyNum]. rewrite Hm.
  destruct (truthyNum hi), (truthyNum lo); reflexivity.
Qed.

(** ** Counting by provider *)

Lemma cellOf_setCell key k c counts :
  cellOf key (setCell k c counts) =
    if String.eqb k key then Some c else cellOf key counts.
Proof.
  induction counts as [| [k' c'] counts IH]; simpl.
  - reflexivity.
  - destruct (String.eqb_spec k' k) as [-> | Hne]; simpl.
    + destruct (String.eqb k key); reflexivity.
    + rewrite IH. destruct (String.eqb_spec k' key) as [-> | Hne'].
      * destruct (String.eqb_spec k key); [congruence | reflexivity].
      * reflexivity.
Qed.

Lemma cellOf_countUp_other key k counts :
  k <> key -> cellOf key (countUp k counts) = cellOf key counts.
Proof.
  intros Hne. apply String.eqb_neq in Hne. unfold countUp.
  destruct (cellOf k counts) as [[n |] |];
    [| | destruct (inherited k); [destruct (String.eqb k "__proto__") |]];
    rewrite ?cellOf_setCell, ?Hne; reflexivity.
Qed.

Lemma cellOf_countUp_same key counts :
  inherited key = false ->
  cellOf key (countUp key counts) =
    match cellOf key counts with
    | Some (Count n) => Some (Count (n + 1))
    | Some Text => Some Text
    | None => Some (Count 1)
    end.
Proof.
  intros Hi. unfold countUp. rewrite Hi.
  destruct (cellOf key counts) as [[n |] |];
    rewrite cellOf_setCell, String.eqb_refl; reflexivity.
Qed.

(** The cell of an ordinary key after counting the keys [keys]: the number
    of occurrences of the key is added. *)
Lemma cellOf_counted key (keys : list string) : forall counts,
  inherited key = false ->
  cellOf key (fold_left (fun c k => countUp k c) keys counts) =
    let n := Z.of_nat (List.length (filter (String.eqb key) keys)) in
    match cellOf key counts with
    | Some (Count n0) => Some (Count (n0 + n))
    | Some Text => Some Text
    | None => if n =? 0 then None else Some (Count n)
    end.
Proof.
  intros counts Hi. revert counts.
  induction keys as [| k keys IH]; intros counts; cbn [fold_left filter].
  - cbn. destruct (cellOf key counts) as [[n0 |] |]; try reflexivity.
    now rewrite Z.add_0_r.
  - rewrite IH. cbv zeta. destruct (String.eqb_spec key k) as [<- | Hne].
    + rewrite (cellOf_countUp_same key counts Hi). cbn [List.length].
      rewrite Nat2Z.inj_succ.
      destruct (cellOf key counts) as [[n0 |] |]; try reflexivity.
      * f_equal. f_equal. lia.
      * destruct (Z.eqb_spec (Z.succ (Z.of_nat (List.length (filter (String.eqb key) keys)))) 0);
          [lia |]. f_equal. f_equal. lia.
    + rewrite cellOf_countUp_other by congruence. reflexivity.
Qed.

Lemma statsStep_byProvider (ms : list ManagedModel) : forall acc,
  byProvider (fst (fold_left statsStep ms acc)) =
    fold_left (fun c k => countUp k c) (map providerOf ms) (byProvider (fst acc)).
Proof.
  induction ms as [| m ms IH]; intros [stats total]; cbn [fold_left map]; [reflexivity |].
  rewrite IH. reflexivity.
Qed.

Lemma splitOn_head_prefix sep s : forall p rest,
  splitOn sep s = p :: rest -> String.prefix p s = true.
Proof.
  induction s as [| c s IH]; intros p rest; simpl.
  - intros [= <- _]. reflexivity.
  - destruct (Ascii.eqb c sep).
    + intros [= <- _]. reflexivity.
    + destruct (splitOn sep s) as [| q qs] eqn:E; intros [= <- _]; simpl.
      * now apply splitOn_nonempty in E.
      * destruct (ascii_dec c c); [| congruence]. now apply (IH q qs).
Qed.

Lemma includes_prefix s p : String.prefix p s = true -> includes s p = true.
Proof. intros H. destruct s; simpl in *; now rewrite H. Qed.

Lemma filter_length_le {A : Type} (f g : A -> bool) (l : list A) :
  (forall x, f x = true -> g x = true) ->
  (List.length (filter f l) <= List.length (filter g l))%nat.
Proof.
  intros H. induction l as [| x l IH]; simpl; [lia |].
  destruct (f x) eqn:Ef.
  - rewrite (H x Ef). simpl. lia.
  - destruct (g x); simpl; lia.
Qed.

(** The count [getModelStats] gives for a provider is the number of loaded
    models whose id starts with that provider and a slash (or is the
    provider), and [getFilteredModels] with the same provider as its only
    criterion returns at least as many models: it looks for the provider
    anywhere in the id. *)
Theorem getModelStats_byProvider_count (loaded : list ManagedModel)
  (provider : string) (n : Z) :
  inherited provider = false ->
  cellOf provider (byProvider (getModelStats loaded)) = Some (Count n) ->
  n = Z.of_nat (List.length
                  (filter (fun m => String.eqb provider (providerOf m)) loaded)) /\
  1 <= n <=
    Z.of_nat (List.length
                (getFilteredModels loaded
                   {| flt_type := None; flt_provider := Some provider;
                      flt_maxCost := None; flt_minCost := None;
                      flt_capabilities := None |})).
Proof.
  intros Hi. unfold getModelStats.
  match goal with
  | |- context [fold_left statsStep loaded ?a] =>
      pose proof (statsStep_byProvider loaded a) as E;
      destruct (fold_left statsStep loaded a) as [stats total]
  end.
  cbn [fst byProvider] in E |- *. rewrite E, cellOf_counted by exact Hi.
  cbv zeta. cbn [cellOf].
  assert (Hf : filter (String.eqb provider) (map providerOf loaded) =
               map providerOf
                 (filter (fun m => String.eqb provider (providerOf m)) loaded)).
  { clear. induction loaded as [| m ms IH]; simpl; [reflexivity |].
    destruct (String.eqb provider (providerOf m)); simpl; now rewrite IH. }
  rewrite Hf, length_map.
  destruct (Z.eqb_spec (Z.of_nat (List.length
              (filter (fun m => String.eqb provider (providerOf m)) loaded))) 0)
    as [| Hpos]; [discriminate |].
  intros [= <-]. split; [reflexivity |]. split; [lia |].
  apply inj_le. unfold getFilteredModels. apply filter_length_le.
  intros m Hm. apply String.eqb_eq in Hm. unfold keeps. cbn.
  destruct (String.eqb provider ""); [reflexivity |].
  assert (Hinc : includes (mm_id m) provider = true).
  { apply includes_prefix. unfold providerOf in Hm.
    destruct (splitOn "/"%char (mm_id m)) as [| q qs] eqn:Es.
    - now apply splitOn_nonempty in Es.
    - subst q. now apply (splitOn_head_prefix _ _ _ _ Es). }
  rewrite Hinc. reflexivity.
Qed.

Lemma getModelStats_byProvider_count_witness :
  2 = Z.of_nat (List.length
                  (filter (fun m => String.eqb "fal-ai" (providerOf m)) sampleModels)) /\
  1 <= 2 <=
    Z.of_nat (List.length
                (getFilteredModels sampleModels
                   {| flt_type := None; flt_provider := Some "fal-ai";
                      flt_maxCost := None; flt_minCost := None;
                      flt_capabilities := None |})).
Proof.
  apply (getModelStats_byProvider_count sampleModels "fal-ai" 2); reflexivity.
Defined.

(** ** The suggestion for an error of the API key *)

Lemma toLowerCase_app a b :
  toLowerCase (a ++ b)%string = (toLowerCase a ++ toLowerCase b)%string.
Proof.
  induction a as [| c a IH]; simpl; [reflexivity | now rewrite IH].
Qed.

Lemma prefix_app p a b :
  String.prefix p a = true -> String.prefix p (a ++ b)%string = true.
Proof.
  revert a. induction p as [| c p IH]; intros a.
  - intros _. destruct (a ++ b)%string; reflexivity.
  - destruct a as [| d a]; simpl; [discriminate |].
    destruct (ascii_dec c d); [apply IH | discriminate].
Qed.

Lemma includes_app_l a b sub :
  includes a sub = true -> includes (a ++ b)%string sub = true.
Proof.
  induction a as [| c a IH].
  - simpl. rewrite orb_false_r. intros H. destruct sub; [| discriminate H].
    destruct b; reflexivity.
  - cbn [includes]. intros H. apply orb_true_iff in H. destruct H as [H | H].
    + change (String c a ++ b)%string with (String c (a ++ b)%string).
      cbn [includes].
      change (String c (a ++ b)%string) with (String c a ++ b)%string.
      now rewrite (prefix_app sub (String c a) b H).
    + change (String c a ++ b)%string with (String c (a ++ b)%string).
      cbn [includes]. rewrite (IH H). apply orb_true_r.
Qed.

(** Every error [getApiKey] throws is answered with the suggestion to check
    [FAL_KEY]: its own two errors, and the error of [retrieveApiKey], whose
    message starts with [Failed to retrieve API key: ]. *)
Theorem getApiKey_error_suggestion (src : KeySources) (e : exn) :
  (forall e', retrieveApiKey src = Throw e' ->
     exists reason, e' = Error ("Failed to retrieve API key: " ++ reason)%string) ->
  getApiKey src = Throw e ->
  getSuggestionForError e =
    "Check your FAL_KEY environment variable or run the CLI setup command".
Proof.
  intros Hr. unfold getApiKey.
  assert (Hown : forall m,
            includes (toLowerCase m) "api key" = true ->
            getSuggestionForError (Error m) =
              "Check your FAL_KEY environment variable or run the CLI setup command").
  { intros m Hm. unfold getSuggestionForError. cbn [message]. now rewrite Hm. }
  destruct (truthyStr (FAL_KEY src)) as [s |]; cbn [bind].
  - cbn [truthyStr]. destruct (String.eqb s ""); [intros [= <-]; now apply Hown |].
    destruct (validateApiKeyFormat (VStr s)); cbn [negb]; [discriminate |].
    intros [= <-]. now apply Hown.
  - destruct (hasStoredApiKey src).
    + destruct (retrieveApiKey src) as [k | e'] eqn:Ek; cbn [bind].
      * destruct (truthyStr k) as [s |]; [| intros [= <-]; now apply Hown].
        destruct (validateApiKeyFormat (VStr s)); cbn [negb]; [discriminate |].
        intros [= <-]. now apply Hown.
      * intros [= <-]. destruct (Hr e' eq_refl) as [reason ->].
        apply Hown. rewrite toLowerCase_app. now apply includes_app_l.
    + cbn [bind truthyStr]. intros [= <-]. now apply Hown.
Qed.

Lemma getApiKey_error_suggestion_witness :
  getSuggestionForError
    (Error "Failed to retrieve API key: Failed to decrypt API key - data may be corrupted") =
    "Check your FAL_KEY environment variable or run the CLI setup command".
Proof.
  apply (getApiKey_error_suggestion corruptStore).
  - intros e' [= <-]. eexists. reflexivity.
  - reflexivity.
Defined.

(** ** The models by category *)

Lemma groupOf_pushTo key k m cats :
  groupOf key (pushTo k m cats) =
    if String.eqb k key
    then option_map (fun members => members ++ [m]) (groupOf key cats)
    else groupOf key cats.
Proof.
  induction cats as [| [k' g] cats IH]; simpl.
  - now destruct (String.eqb k key).
  - destruct (String.eqb_spec k' k) as [-> | Hne]; simpl.
    + destruct (String.eqb k key); reflexivity.
    + rewrite IH. destruct (String.eqb_spec k' key) as [-> | Hne'].
      * destruct (String.eqb_spec k key); [congruence | reflexivity].
      * reflexivity.
Qed.

Lemma groupOf_app key k g cats :
  groupOf key (cats ++ [(k, g)]) =
    match groupOf key cats with
    | Some members => Some members
    | None => if String.eqb k key then Some g else None
    end.
Proof.
  induction cats as [| [k' g'] cats IH]; simpl; [reflexivity |].
  destruct (String.eqb k' key); [reflexivity | exact IH].
Qed.

Lemma map_fst_pushTo k m cats : map fst (pushTo k m cats) = map fst cats.
Proof.
  induction cats as [| [k' g] cats IH]; simpl; [reflexivity |].
  destruct (String.eqb k' k); simpl; [reflexivity | now rewrite IH].
Qed.

Lemma groupOf_None_not_In key cats : groupOf key cats = None -> ~ In key (map fst cats).
Proof.
  induction cats as [| [k g] cats IH]; simpl; [tauto |].
  destruct (String.eqb_spec k key) as [-> | Hne]; [discriminate |].
  intros H [E | Hin]; [congruence | now apply IH].
Qed.

(** The models of a list with the category [key], in their order. *)
Lemma categorizeAll_groups (models : list CategorizedModel) : forall cats,
  Forall (fun m => inherited (categoryKey m) = false) models ->
  NoDup (map fst cats) ->
  exists categories,
    categorizeAll models cats = Return categories /\
    NoDup (map fst categories) /\
    forall key,
      groupOf key categories =
        match groupOf key cats,
              filter (fun m => String.eqb (categoryKey m) key) models with
        | Some members, added => Some (members ++ added)
        | None, [] => None
        | None, added => Some added
        end.
Proof.
  induction models as [| m ms IH]; intros cats Hi Hnd; cbn [categorizeAll filter].
  - exists cats. split; [reflexivity |]. split; [exact Hnd |].
    intros key. destruct (groupOf key cats); [now rewrite app_nil_r | reflexivity].
  - inversion Hi as [| ? ? Hm Hms]; subst.
    unfold categorize at 1. rewrite Hm.
    destruct (groupOf (categoryKey m) cats) as [g |] eqn:Eg; cbn [bind].
    + destruct (IH (pushTo (categoryKey m) m cats) Hms) as (cs & -> & Hn & Hg).
      { now rewrite map_fst_pushTo. }
      exists cs. split; [reflexivity |]. split; [exact Hn |].
      intros key. rewrite Hg, groupOf_pushTo.
      destruct (String.eqb_spec (categoryKey m) key) as [<- | Hne].
      * rewrite Eg. cbn [option_map]. now rewrite <- app_assoc.
      * reflexivity.
    + destruct (IH (pushTo (categoryKey m) m (cats ++ [(categoryKey m, [])])) Hms)
        as (cs & -> & Hn & Hg).
      { rewrite map_fst_pushTo, map_app. cbn [map fst].
        apply NoDup_app; [exact Hnd | repeat constructor; intros [] |].
        intros x Hx [<- | []]. now apply (groupOf_None_not_In _ _ Eg). }
      exists cs. split; [reflexivity |]. split; [exact Hn |].
      intros key. rewrite Hg, groupOf_pushTo, groupOf_app.
      destruct (String.eqb_spec (categoryKey m) key) as [<- | Hne].
      * rewrite Eg. reflexivity.
      * destruct (groupOf key cats); reflexivity.
Qed.

(** [getModelsByCategory] is a partition of the models by category: when
    no category names a member of [Object.prototype], it returns an object
    with one array per category met, which holds the models of that
    category in their order; a category that no model has is not a
    property of the object. *)
Theorem getModelsByCategory_groups (models : list CategorizedModel) :
  Forall (fun m => inherited (categoryKey m) = false) models ->
  exists categories,
    getModelsByCategory models = Return categories /\
    NoDup (map fst categories) /\
    forall key,
      groupOf key categories =
        match filter (fun m => String.eqb (categoryKey m) key) models with
        | [] => None
        | members => Some members
        end.
Proof.
  intros H. destruct (categorizeAll_groups models [] H) as (cs & E & Hn & Hg).
  { constructor. }
  exists cs. split; [exact E |]. split; [exact Hn |]. exact Hg.
Qed.

Lemma getModelsByCategory_groups_witness :
  exists categories,
    getModelsByCategory sampleCategorized = Return categories /\
    NoDup (map fst categories) /\
    forall key,
      groupOf key categories =
        match filter (fun m => String.eqb (categoryKey m) key) sampleCategorized with
        | [] => None
        | members => Some members
        end.
Proof.
  apply (getModelsByCategory_groups sampleCategorized).
  repeat constructor.
Defined.

Lemma categorizeAll_inherited (models : list CategorizedModel) : forall cats m,
  Forall (fun k => inherited k = false) (map fst cats) ->
  In m models ->
  inherited (categoryKey m) = true ->
  categorizeAll models cats =
    Throw (TypeError "categories[model.category].push is not a function").
Proof.
  induction models as [| m' ms IH]; intros cats m Hc Hin Hm; [destruct Hin |].
  cbn [categorizeAll]. unfold categorize.
  assert (Hnone : forall key, inherited key = true -> groupOf key cats = None).
  { clear - Hc. intros key Hk. induction cats as [| [k g] cats IH]; [reflexivity |].
    simpl in *. inversion Hc as [| ? ? Hk' Hrest]; subst.
    destruct (String.eqb_spec k key) as [-> | _]; [congruence | now apply IH]. }
  destruct (inherited (categoryKey m')) eqn:Em'.
  - rewrite (Hnone _ Em'). reflexivity.
  - destruct Hin as [-> | Hin]; [congruence |].
    destruct (groupOf (categoryKey m') cats); cbn [bind]; apply (IH _ m); auto.
    + now rewrite map_fst_pushTo.
    + rewrite map_fst_pushTo, map_app. apply Forall_app. split; [exact Hc |].
      repeat constructor. exact Em'.
Qed.

(** A model whose category is named like a member of [Object.prototype]
    ([constructor], [toString], ...) makes [getModelsByCategory] throw: the
    inherited member is found where an array is expected. *)
Theorem getModelsByCategory_inherited_category (models : list CategorizedModel)
  (m : CategorizedModel) :
  In m models ->
  inherited (categoryKey m) = true ->
  getModelsByCategory models =
    Throw (TypeError "categories[model.category].push is not a function").
Proof.
  intros Hin Hm. apply (categorizeAll_inherited models [] m); auto.
Qed.

Lemma getModelsByCategory_inherited_category_witness :
  getModelsByCategory
    (sampleCategorized ++ [ {| cat_key := "odd"; category := Some "constructor" |} ]) =
    Throw (TypeError "categories[model.category].push is not a function").
Proof.
  apply (getModelsByCategory_inherited_category
           (sampleCategorized ++ [ {| cat_key := "odd"; category := Some "constructor" |} ])
           {| cat_key := "odd"; category := Some "constructor" |}).
  - apply in_or_app. right. now left.
  - reflexivity.
Defined.

(** ** A model identifier that is not a string *)

(** [validateModelConfig] does not report an [id] of the wrong type, it
    throws on it: for a truthy [id] that is neither a string nor an array
    (a number, [true], an object) the call [id.includes] is a TypeError, and
    no validation result is returned. *)
Theorem validateModelConfig_throws_on_id (numeric : value -> float)
  (cfg : RawModelConfig) :
  truthy (raw_id cfg) = true ->
  isString (raw_id cfg) = false ->
  isArray (raw_id cfg) = false ->
  validateModelConfig numeric cfg =
    Throw (TypeError "modelConfig.id.includes is not a function").
Proof.
  intros Ht Hs Ha. unfold validateModelConfig. rewrite Ht.
  destruct (raw_id cfg); try discriminate; reflexivity.
Qed.

Lemma validateModelConfig_throws_on_id_witness :
  validateModelConfig toNaN
    {| raw_id := VNum 42%float; raw_name := VStr "Answer"; raw_type := VStr "image";
       raw_costPerImage := VNum 0.025%float; raw_parameters := None |} =
    Throw (TypeError "modelConfig.id.includes is not a function").
Proof.
  apply (validateModelConfig_throws_on_id toNaN
           {| raw_id := VNum 42%float; raw_name := VStr "Answer"; raw_type := VStr "image";
              raw_costPerImage := VNum 0.025%float; raw_parameters := None |});
    reflexivity.
Defined.

(** ** Any number as [batchSize] *)

(** The same options with another integer [batchSize]. *)
Lemma jobsFrom_batchSize w opts b batch : forall k,
  jobsFrom w
    {| outputDir := outputDir opts; generationId := generationId opts;
       batchSize := b; onProgress := onProgress opts |} k batch =
  jobsFrom w opts k batch.
Proof.
  induction batch as [| [pos task] batch IH]; intros k; simpl; [reflexivity |].
  now rewrite IH.
Qed.

Lemma windowEventsNumber_whole w opts b i total jobs :
  windowEventsNumber w opts (Whole i) (Whole total) jobs =
    map numberEventOf
      (windowEvents w
         {| outputDir := outputDir opts; generationId := generationId opts;
            batchSize := b; onProgress := onProgress opts |} i total jobs).
Proof.
  unfold windowEventsNumber, windowEvents. rewrite map_app, map_map. f_equal.
  induction (settleOrder w jobs) as [| j js IH]; [reflexivity |].
  cbn [flat_map]. rewrite map_app, IH. f_equal.
  unfold settleEventsNumber, settleEvents. cbn [onProgress].
  destruct (onProgress opts); reflexivity.
Qed.

(** With a whole number [b] as [batchSize], the general loop is the loop on
    integers. *)
Lemma generateBatchNumber_loop_whole w tasks opts b fuel : forall i results trace,
  generateBatchNumber_loop w tasks opts (Whole b) fuel (Whole i) results
    (map numberEventOf trace) =
  numberRunOf
    (generateBatch_loop w tasks
       {| outputDir := outputDir opts; generationId := generationId opts;
          batchSize := b; onProgress := onProgress opts |} fuel i results trace).
Proof.
  induction fuel as [| fuel IH]; intros i results trace;
    cbn [generateBatchNumber_loop generateBatch_loop less];
    destruct (i <? Z.of_nat (List.length tasks)); try reflexivity.
  cbv zeta. cbn [plus batchSize].
  change (sliceNumber (indexed tasks) (Whole i) (Whole (i + b)))
    with (slice (indexed tasks) i (i + b)).
  rewrite jobsFrom_batchSize.
  rewrite (windowEventsNumber_whole w opts b), <- map_app. apply IH.
Qed.

Lemma generateBatchNumber_whole w tasks opts fuel :
  generateBatchNumber w tasks opts (Whole (batchSize opts)) fuel =
    numberRunOf (generateBatch w tasks opts fuel).
Proof.
  unfold generateBatchNumber, generateBatch. destruct opts as [od gid b op].
  exact (generateBatchNumber_loop_whole w tasks
           {| outputDir := od; generationId := gid; batchSize := b; onProgress := op |}
           b fuel 0 [] []).
Qed.

Lemma runningNumber_of trace : runningNumber (map numberEventOf trace) = running trace.
Proof.
  induction trace as [| [pos t | pos r | c tot t r] trace IH]; cbn [map numberEventOf
    runningNumber running]; rewrite ?IH; reflexivity.
Qed.

Lemma settledNumber_of trace : settledNumber (map numberEventOf trace) = settled trace.
Proof.
  induction trace as [| [pos t | pos r | c tot t r] trace IH]; simpl;
    rewrite ?IH; reflexivity.
Qed.

Lemma progressNumbers_of trace :
  progressNumbers (map numberEventOf trace) = map Whole (progressValues trace).
Proof.
  induction trace as [| [pos t | pos r | c tot t r] trace IH]; simpl;
    rewrite ?IH; reflexivity.
Qed.

(** C3 - bounded concurrency.  [generateBatch] neither rejects nor rounds a
    [batchSize] that is not a whole number, and then goes over it: with six
    tasks and a [batchSize] of 2.5 the run returns its six results, its
    second window is [tasks.slice(2.5, 5)], the three tasks at positions 2,
    3 and 4, and once their calls are issued three calls are in flight,
    which is more than 2.5. *)
Theorem generateBatch_fractional_batchSize_exceeds_bound :
  exists results before after,
    generateBatchNumber sampleWorld sixTasks defaultOptions (Other 2.5%float) 10 =
      Returned results (before ++ after) /\
    List.length results = 6%nat /\
    dispatchedNumber before = [0; 1; 2; 3; 4]%nat /\
    settledNumber before = [1; 0]%nat /\
    runningNumber before = 3 /\
    less (Other 2.5%float) (Whole (runningNumber before)) = true.
Proof.
  set (run := generateBatchNumber sampleWorld sixTasks defaultOptions (Other 2.5%float) 10).
  vm_compute in run. subst run.
  match goal with
  | |- exists results before after, Returned ?r ?tr = _ /\ _ =>
      exists r, (firstn 7 tr), (skipn 7 tr)
  end.
  repeat split.
Qed.

(** ** Progress reports for a whole batch size *)

Lemma settled_dispatch jobs :
  settled (map (fun j => EvDispatch (job_pos j) (job_task j)) jobs) = [].
Proof.
  induction jobs as [| j jobs IH]; simpl; [reflexivity | exact IH].
Qed.

(** In the windows of a run the value reported at each call is the position
    of the task that has just settled, plus one. *)
Lemma progressValues_settled w tasks opts ws :
  Forall (jobsOfInput w tasks opts) ws ->
  onProgress opts = true ->
  progressValues (flat_map (eventsOfWindow w tasks opts) ws) =
    map (fun pos => Z.of_nat pos + 1)
      (settled (flat_map (eventsOfWindow w tasks opts) ws)).
Proof.
  intros Hall Hon. induction Hall as [| win ws Hwin Hws IH]; [reflexivity |].
  cbn [flat_map]. rewrite progressValues_app, settled_app, map_app, IH. f_equal.
  rewrite (progressValues_window w tasks opts win Hwin Hon).
  unfold eventsOfWindow, windowEvents.
  rewrite settled_app, settled_dispatch, settled_settleEvents. cbn [app].
  now rewrite map_map.
Qed.

Lemma settled_windows w tasks opts ws :
  Permutation (settled (flat_map (eventsOfWindow w tasks opts) ws))
    (map fst (flat_map windowTasks ws)).
Proof.
  induction ws as [| win ws IH]; [constructor |].
  cbn [flat_map]. rewrite settled_app, map_app. apply Permutation_app; [| exact IH].
  unfold eventsOfWindow, windowEvents.
  rewrite settled_app, settled_dispatch, settled_settleEvents. cbn [app].
  unfold windowTasks. rewrite map_map. cbn [fst].
  apply Permutation_map, settleOrder_perm.
Qed.

(** Progress, once per task.  With a whole number of at least 1 as
    [batchSize] and a callback, every task settles exactly once, and
    [onProgress] is called once each time: the call that follows the
    settling of the task at position [p] is given [completed = p + 1].  So
    there are N calls for N tasks, with the values 1 to N in the order in
    which the tasks settle. *)
Theorem generateBatch_progress_once_per_task
  (w : World) (tasks : list Task) (opts : Options) (fuel : nat) :
  1 <= batchSize opts ->
  (List.length tasks <= fuel)%nat ->
  onProgress opts = true ->
  exists results trace,
    generateBatchNumber w tasks opts (Whole (batchSize opts)) fuel =
      Returned results trace /\
    Permutation (settledNumber trace) (seq 0 (List.length tasks)) /\
    progressNumbers trace =
      map (fun pos => Whole (Z.of_nat pos + 1)) (settledNumber trace) /\
    List.length (progressNumbers trace) = List.length tasks.
Proof.
  intros Hb Hf Hon. rewrite generateBatchNumber_whole.
  rewrite (generateBatch_returns w tasks opts fuel Hb Hf). cbn [numberRunOf].
  do 2 eexists. split; [reflexivity |].
  rewrite settledNumber_of, progressNumbers_of.
  assert (P : Permutation
                (settled (flat_map (eventsOfWindow w tasks opts)
                            (windowsOf w tasks opts fuel 0)))
                (seq 0 (List.length tasks))).
  { eapply perm_trans; [apply settled_windows |].
    rewrite windowsOf_cover by (assumption || lia). cbn [Z.to_nat skipn].
    rewrite map_fst_indexed. apply Permutation_refl. }
  split; [exact P |].
  rewrite progressValues_settled;
    [| apply windowsOf_jobs; [assumption | lia] | exact Hon].
  split; [now rewrite !map_map |].
  rewrite !length_map, (Permutation_length P). apply length_seq.
Qed.

Lemma generateBatch_progress_once_per_task_witness :
  exists results trace,
    generateBatchNumber sampleWorld sampleTasks (sampleOptions 2) (Whole 2) 3 =
      Returned results trace /\
    Permutation (settledNumber trace) [0; 1; 2]%nat /\
    progressNumbers trace =
      map (fun pos => Whole (Z.of_nat pos + 1)) (settledNumber trace) /\
    List.length (progressNumbers trace) = 3%nat.
Proof.
  apply (generateBatch_progress_once_per_task sampleWorld sampleTasks (sampleOptions 2) 3).
  - simpl. lia.
  - simpl. lia.
  - reflexivity.
Defined.

(** The rounds of [generateBatch].  With a whole number [b >= 1] as
    [batchSize] and [N] tasks the loop goes through exactly [ceil(N / b)]
    windows, one [Promise.all] each: window [k] is sliced at position
    [k * b] and holds [min(b, N - k * b)] tasks, so every window but the
    last is full. *)
Theorem generateBatch_rounds (w : World) (tasks : list Task) (opts : Options)
  (fuel : nat) :
  1 <= batchSize opts ->
  Z.of_nat (List.length tasks) <= Z.of_nat fuel ->
  exists windows,
    generateBatchNumber w tasks opts (Whole (batchSize opts)) fuel =
      Returned (resultsInOrder w tasks opts)
        (map numberEventOf (flat_map (eventsOfWindow w tasks opts) windows)) /\
    Z.of_nat (List.length windows) =
      (Z.of_nat (List.length tasks) + batchSize opts - 1) / batchSize opts /\
    forall k win, nth_error windows k = Some win ->
      fst win = Z.of_nat k * batchSize opts /\
      Z.of_nat (List.length (snd win)) =
        Z.min (batchSize opts)
          (Z.of_nat (List.length tasks) - Z.of_nat k * batchSize opts).
Proof.
  intros Hb Hf.
  destruct (generateBatch_rounds_integer w tasks opts fuel Hb Hf)
    as (windows & Hrun & Hcount & Hsize).
  exists windows. rewrite generateBatchNumber_whole, Hrun.
  split; [reflexivity |]. split; assumption.
Qed.

Lemma generateBatch_rounds_witness :
  exists windows,
    generateBatchNumber sampleWorld sampleTasks (sampleOptions 2) (Whole 2) 3 =
      Returned (resultsInOrder sampleWorld sampleTasks (sampleOptions 2))
        (map numberEventOf
           (flat_map (eventsOfWindow sampleWorld sampleTasks (sampleOptions 2)) windows)) /\
    Z.of_nat (List.length windows) = 2 /\
    forall k win, nth_error windows k = Some win ->
      fst win = Z.of_nat k * 2 /\
      Z.of_nat (List.length (snd win)) = Z.min 2 (3 - Z.of_nat k * 2).
Proof.
  apply (generateBatch_rounds sampleWorld sampleTasks (sampleOptions 2) 3);
    simpl; lia.
Defined.

(** ** The [batch_generate] handler and the concurrency bound *)

(** The handler passes [batch_size] on as it is.  With a key that
    [getApiKey] accepts, a whole number below 1 as [batch_size], a task list
    that is not empty and an estimate that passes the spending check, the
    call of [generateBatch] never returns, and neither does the handler,
    however long it is observed. *)
Theorem batch_generate_invalid_batch_size_pending (w : World)
  (numeric : value -> float) (loaded : Throws (list (ModelConfig float)))
  (src : KeySources) (key : string)
  (tasks : list Task) (batch_size : Z) (dir now : string)
  (confirm_spending : bool) (fuel : nat) :
  getApiKey src = Return key ->
  batch_size < 1 ->
  tasks <> [] ->
  checkSpending (totalEstimatedCost numeric loaded tasks) confirm_spending = None ->
  exists trace,
    batch_generate w numeric loaded src tasks (Whole batch_size) dir now
      confirm_spending fuel = Generated (Looping trace).
Proof.
  intros Hk Hb Hne Hs. unfold batch_generate. rewrite Hk, Hs.
  unfold generateBatchNumber.
  change (@nil numberEvent) with (map numberEventOf []).
  rewrite (generateBatchNumber_loop_whole w tasks (handlerOptions dir now)
             batch_size fuel 0 [] []).
  rewrite generateBatch_loop_windows. cbv zeta.
  rewrite returns_never by (cbn [batchSize]; assumption || lia).
  eexists. reflexivity.
Qed.

Lemma batch_generate_invalid_batch_size_pending_witness :
  exists trace,
    batch_generate sampleWorld toNaN (Return sampleCatalog) (envKey sampleKey)
      sampleTasks (Whole 0) "out" "1700000000000" false 1000 =
    Generated (Looping trace).
Proof.
  apply (batch_generate_invalid_batch_size_pending sampleWorld toNaN
           (Return sampleCatalog) (envKey sampleKey) sampleKey sampleTasks 0
           "out" "1700000000000" false 1000).
  - reflexivity.
  - lia.
  - discriminate.
  - reflexivity.
Defined.
